(** * ai-auto-trading: trading control plane, shallow embedding

    The models below follow the TypeScript sources of the repository:

    - [Js]         : JavaScript numbers as IEEE binary64 values, with
                     Math.round, Math.floor, toFixed and toString
    - [RateLimit]  : RateLimitManager (request coordinator)
    - [Gate]       : GateExchangeClient.placeOrder / setPositionStopLoss
    - [Fee]        : FeeService
    - [Resolver]   : ResolveFailureTracker and InconsistentStateResolver
    - [Api]        : the /api/prices route
    - [GateClient] : GateExchangeClient, contract names, retry loops,
                     quantities, pnl and the trigger read-back
    - [OrderId]    : utils/orderIdExtractor
    - [Email]      : EmailAlertService.sendAlert / sendTradeNotification
    - [Routes]     : the /api/stats and /api/completed-trades routes
    - [Dashboard]  : parseDuration / formatDuration of the monitor page
    - [Prompt]     : the position line of generateCompactPrompt

    Conventions.  A JavaScript number is an integer ([Z]) where it is a
    millisecond clock value or a counter.  The prices of the trigger
    orders ([setPositionStopLoss], [formatPriceByTickSize]) and the
    contract count of [calculateQuantity] are binary64 values ([float]),
    computed and printed as JavaScript does.  Elsewhere a price, size or
    fee is an exact rational ([Qc]), and the rounding error of doubles is
    not modelled there.  [Date.now()] is an explicit argument, and a
    [setTimeout] sleep of [d] ms advances the clock by exactly [d].  A call
    that may throw returns [option] (or a sum); [None] is the exception.
    The answers of the exchange and of the database driver are arguments
    (records of functions); a comparison [a > b] of the source is written
    [b < a] where the order on [Qc] is used. *)

From Stdlib Require Import QArith Qcanon Qround Ascii String.
From Stdlib Require Import Floats.
From stdpp Require Import base numbers option list strings pretty gmap sorting.

Open Scope Z_scope.
Set Warnings "-inexact-float".

(** ** Numbers *)

Module Num.

(** A decimal literal of the source, as a canonical rational. *)
Definition dec (q : Q) : Qc := Q2Qc q.

(** [Math.abs]. *)
Definition abs (x : Qc) : Qc := if decide (x < 0)%Qc then (- x)%Qc else x.

(** [Math.min]. *)
Definition min (x y : Qc) : Qc := if decide (x < y)%Qc then x else y.

(** [Math.floor] and [Math.round] (halves round towards plus infinity). *)
Definition floor (x : Qc) : Z := Qfloor x.
Definition round (x : Qc) : Z := Qfloor (x + Q2Qc (1 # 2))%Qc.

Definition ofZ (z : Z) : Qc := Q2Qc (inject_Z z).

(** JavaScript truthiness of a (finite) number and of a string. *)
Definition truthy (x : Qc) : bool := bool_decide (x ≠ 0%Qc).
Definition truthyStr (s : string) : bool := bool_decide (s ≠ "").

(** [Math.ceil(ms / 1000)] on an integer number of milliseconds. *)
Definition ceilSeconds (ms : Z) : Z := - ((- ms) `div` 1000).

End Num.

(** ** JavaScript numbers as binary64 values *)

Module Js.

Local Open Scope Z_scope.

(** A number is a binary64 value: [+], [-], [*], [/], [Math.abs] and the
    comparisons are the operations of [PrimFloat].  [Prim2SF] gives its
    sign, mantissa and exponent; what follows is computed from them in
    exact arithmetic, as ECMAScript defines it. *)

(** The value of the finite number with sign [s], mantissa [m] and
    exponent [e]: plus or minus [m * 2^e]. *)
Definition valueOf (s : bool) (m : positive) (e : Z) : Q :=
  let v := if s then Z.neg m else Z.pos m in
  if decide (0 ≤ e) then inject_Z (v * 2 ^ e) else (v # Z.to_pos (2 ^ (- e)))%Q.

(** The exact value of a finite number; [None] for [NaN] and the
    infinities. *)
Definition exact (x : float) : option Qc :=
  match Prim2SF x with
  | S754_zero _ => Some 0%Qc
  | S754_finite s m e => Some (Q2Qc (valueOf s m e))
  | _ => None
  end.

(** The whole number [n] as a number, for [|n| ≤ 2^53]. *)
Definition ofZ (n : Z) : float :=
  if decide (n < 0)
  then PrimFloat.opp (PrimFloat.of_uint63 (Uint63.of_Z (- n)))
  else PrimFloat.of_uint63 (Uint63.of_Z n).

(** [Math.floor].  A number with a non-negative exponent is whole. *)
Definition floor (x : float) : float :=
  match Prim2SF x with
  | S754_finite s m e =>
      if decide (0 ≤ e) then x else ofZ (Qfloor (valueOf s m e))
  | _ => x
  end.

(** [Math.round]: the nearest whole number, the upper one of two;
    [-0] for [-0.5 ≤ x < 0]. *)
Definition round (x : float) : float :=
  match Prim2SF x with
  | S754_finite s m e =>
      if decide (0 ≤ e) then x
      else
        let n := Qfloor (valueOf s m e + (1 # 2))%Q in
        if decide (n = 0) then (if s then PrimFloat.neg_zero else PrimFloat.zero)
        else ofZ n
  | _ => x
  end.

Fixpoint zeros (n : nat) : string :=
  match n with
  | O => ""
  | S k => String "0" (zeros k)
  end.

(** The least [n], from [n] on, with [v < 10^n]. *)
Fixpoint magnitude (fuel : nat) (v : Q) (n : Z) : Z :=
  match fuel with
  | O => n
  | S fuel' => if Qlt_le_dec v (10 ^ n)%Q then n else magnitude fuel' v (n + 1)
  end.

(** Whether the decimal [q] reads back as the positive number [m * 2^e]:
    it lies between the midpoints to the two neighbours of the number,
    the midpoints included when [m] is even.  The lower neighbour of a
    power of two is half as far away. *)
Definition readsBack (m : positive) (e : Z) (q : Q) : bool :=
  let v := valueOf false m e in
  let up := valueOf false 1 (e - 1) in
  let down :=
    if decide (Z.pos m = 2 ^ 52 ∧ -1074 < e)
    then valueOf false 1 (e - 2) else up in
  if Z.even (Z.pos m)
  then Qle_bool (v - down)%Q q && Qle_bool q (v + up)%Q
  else negb (Qle_bool q (v - down)%Q) && negb (Qle_bool (v + up)%Q q).

(** [Number::toString], the digits: the whole number [s] of [k] digits
    and the exponent [n] with [s * 10^(n-k)] reading back as [m * 2^e],
    [k] as small as possible and [s * 10^(n-k)] nearest to the number
    (the even [s] of two).  [n0] is the least exponent with
    [m * 2^e < 10^n0]; the two decimals of [k] digits around the number
    are tried, then [k + 1] digits. *)
Fixpoint shortest (fuel : nat) (m : positive) (e : Z) (n0 : Z) (k : Z) : Z * Z :=
  let v := valueOf false m e in
  let scale := (10 ^ (n0 - k))%Q in
  let s := Qfloor (v / scale)%Q in
  let below := (inject_Z s * scale)%Q in
  let above := (inject_Z (s + 1) * scale)%Q in
  let fromAbove :=
    if decide (s + 1 = 10 ^ k) then (10 ^ (k - 1), n0 + 1) else (s + 1, n0) in
  match readsBack m e below, readsBack m e above with
  | true, true =>
      match Qcompare (v - below)%Q (above - v)%Q with
      | Lt => (s, n0)
      | Gt => fromAbove
      | Eq => if Z.even s then (s, n0) else fromAbove
      end
  | true, false => (s, n0)
  | false, true => fromAbove
  | false, false =>
      match fuel with
      | O => (s, n0)
      | S fuel' => shortest fuel' m e n0 (k + 1)
      end
  end.

(** [Number::toString] of the positive number [m * 2^e]: plain digits
    for [10^-7 < x < 10^21], exponent form otherwise.  Seventeen digits
    always read back. *)
Definition toStringPositive (m : positive) (e : Z) : string :=
  let v := valueOf false m e in
  let n0 := magnitude 8 v (((Z.log2 (Z.pos m) + e) * 30103) `div` 100000 - 1) in
  let '(s, n) := shortest 17 m e n0 1 in
  let digits : string := pretty s in
  let k := Z.of_nat (String.length digits) in
  if decide (k ≤ n ∧ n ≤ 21) then digits +:+ zeros (Z.to_nat (n - k))
  else if decide (0 < n ∧ n ≤ 21)
  then substring 0 (Z.to_nat n) digits +:+ "." +:+
       substring (Z.to_nat n) (Z.to_nat (k - n)) digits
  else if decide (-6 < n ∧ n ≤ 0) then "0." +:+ zeros (Z.to_nat (- n)) +:+ digits
  else
    let exponent :=
      (if decide (n - 1 < 0) then "-" else "+") +:+ pretty (Z.abs (n - 1)) in
    if decide (k = 1) then digits +:+ "e" +:+ exponent
    else substring 0 1 digits +:+ "." +:+
         substring 1 (Z.to_nat (k - 1)) digits +:+ "e" +:+ exponent.

(** [Number.prototype.toString()]. *)
Definition toString (x : float) : string :=
  match Prim2SF x with
  | S754_nan => "NaN"
  | S754_zero _ => "0"
  | S754_infinity s => if s then "-Infinity" else "Infinity"
  | S754_finite s m e => (if s then "-" else "") +:+ toStringPositive m e
  end.

(** [Number.prototype.toFixed(f)] for [0 ≤ f ≤ 100]: below [10^21] the
    whole number [n] with [n / 10^f] nearest to [|x|] (the larger of
    two), printed with [f] digits after the point. *)
Definition toFixed (x : float) (f : nat) : string :=
  match Prim2SF x with
  | S754_finite s m e =>
      let v := valueOf false m e in
      if Qlt_le_dec v (10 ^ 21)%Q then
        let n := Qfloor (v * 10 ^ Z.of_nat f + (1 # 2))%Q in
        let digits : string := pretty n in
        let k := String.length digits in
        let padded :=
          if decide (k ≤ f)%nat then zeros (f + 1 - k) +:+ digits else digits in
        let k := String.length padded in
        (if s then "-" else "") +:+
        (if decide (f = 0)%nat then padded
         else substring 0 (k - f) padded +:+ "." +:+ substring (k - f) f padded)
      else toString x
  | S754_zero _ => if decide (f = 0)%nat then "0" else "0." +:+ zeros f
  | _ => toString x
  end.

(** [String.prototype.split] with a separator of one character. *)
Fixpoint split (sep : Ascii.ascii) (s : string) : list string :=
  match s with
  | EmptyString => [EmptyString]
  | String ch rest =>
      if decide (ch = sep) then EmptyString :: split sep rest
      else match split sep rest with
           | part :: parts => String ch part :: parts
           | [] => [String ch EmptyString]
           end
  end.

End Js.

(** ** Request coordinator: RateLimitManager *)

Module RateLimit.

Record RateLimitConfig := {
  exchangeName : string;
  maxRequestsPerMinute : Z;
  minRequestDelay : Z;
  circuitBreakerThreshold : Z;
  circuitBreakerTimeout : Z
}.

Definition REQUEST_WINDOW : Z := 60000.
Definition BACKOFF_429_DURATION : Z := 60000.
Definition STATS_LOG_INTERVAL : Z := 300000.

(** The mutable fields of a manager instance. *)
Record State := {
  requestTimestamps : list Z;
  lastRequestTime : Z;
  consecutiveFailures : Z;
  circuitBreakerOpenUntil : Z;
  backoffUntil : Z;
  ipBannedUntil : Z;
  requestStats : gmap string Z;
  lastStatsLogTime : Z
}.

Definition initial : State := {|
  requestTimestamps := [];
  lastRequestTime := 0;
  consecutiveFailures := 0;
  circuitBreakerOpenUntil := 0;
  backoffUntil := 0;
  ipBannedUntil := 0;
  requestStats := ∅;
  lastStatsLogTime := 0
|}.

(** Which penalty window a block reason names. *)
Inductive Window := IpBan | Backoff429 | CircuitBreaker.

(** [{ block: true, reason, waitMs }]: the reason text is
    "<window>, remaining <remainingSeconds> s". *)
Record Block := {
  window : Window;
  remainingSeconds : Z;
  waitMs : Z
}.

(** The [Error] thrown by [waitForRateLimit]: its message is
    "[exchangeName] reason"; [waitMs] is not part of it. *)
Record BlockedError := {
  errExchange : string;
  errWindow : Window;
  errRemainingSeconds : Z
}.

#[global] Instance Window_eq_dec : EqDecision Window.
Proof. solve_decision. Defined.
#[global] Instance Block_eq_dec : EqDecision Block.
Proof. solve_decision. Defined.
#[global] Instance BlockedError_eq_dec : EqDecision BlockedError.
Proof. solve_decision. Defined.

(** The ban-expiry branch: all penalty state is cleared. *)
Definition clearBan (s : State) : State := {|
  requestTimestamps := requestTimestamps s;
  lastRequestTime := lastRequestTime s;
  consecutiveFailures := 0;
  circuitBreakerOpenUntil := 0;
  backoffUntil := 0;
  ipBannedUntil := 0;
  requestStats := requestStats s;
  lastStatsLogTime := lastStatsLogTime s
|}.

(** The breaker-expiry branch. *)
Definition clearBreaker (s : State) : State := {|
  requestTimestamps := requestTimestamps s;
  lastRequestTime := lastRequestTime s;
  consecutiveFailures := 0;
  circuitBreakerOpenUntil := 0;
  backoffUntil := backoffUntil s;
  ipBannedUntil := ipBannedUntil s;
  requestStats := requestStats s;
  lastStatsLogTime := lastStatsLogTime s
|}.

(** [shouldBlockRequest()]: [Some b] is [{block: true, ...}], [None] is
    [{block: false}]; the state is returned because the expiry branches
    write to it. *)
Definition shouldBlockRequest (now : Z) (s : State) : option Block * State :=
  if decide (ipBannedUntil s > now) then
    (Some {| window := IpBan;
             remainingSeconds := Num.ceilSeconds (ipBannedUntil s - now);
             waitMs := ipBannedUntil s - now |}, s)
  else
    let s1 :=
      if decide (ipBannedUntil s > 0 ∧ ipBannedUntil s <= now)
      then clearBan s else s in
    if decide (backoffUntil s1 > now) then
      (Some {| window := Backoff429;
               remainingSeconds := Num.ceilSeconds (backoffUntil s1 - now);
               waitMs := backoffUntil s1 - now |}, s1)
    else if decide (circuitBreakerOpenUntil s1 > now) then
      (Some {| window := CircuitBreaker;
               remainingSeconds :=
                 Num.ceilSeconds (circuitBreakerOpenUntil s1 - now);
               waitMs := circuitBreakerOpenUntil s1 - now |}, s1)
    else
      let s2 :=
        if decide (circuitBreakerOpenUntil s1 > 0
                   ∧ circuitBreakerOpenUntil s1 <= now)
        then clearBreaker s1 else s1 in
      (None, s2).

(** [recordRequestStat(endpoint)] at clock [now]. *)
Definition recordRequestStat (endpoint : string) (now : Z) (s : State) : State :=
  let count := default 0 (requestStats s !! endpoint) in
  let stats := <[endpoint := count + 1]> (requestStats s) in
  let rolled := bool_decide (now - lastStatsLogTime s > STATS_LOG_INTERVAL) in
  {| requestTimestamps := requestTimestamps s;
     lastRequestTime := lastRequestTime s;
     consecutiveFailures := consecutiveFailures s;
     circuitBreakerOpenUntil := circuitBreakerOpenUntil s;
     backoffUntil := backoffUntil s;
     ipBannedUntil := ipBannedUntil s;
     requestStats := if rolled then ∅ else stats;
     lastStatsLogTime := if rolled then now else lastStatsLogTime s |}.

(** Step 2 of [waitForRateLimit]: drop timestamps outside the window. *)
Definition evict (now : Z) (ts : list Z) : list Z :=
  filter (λ t, now - t < REQUEST_WINDOW) ts.

(** Step 3: the sleep taken when the ring is full.  [requestTimestamps[0]]
    of an empty ring is [undefined], the wait is then [NaN] and
    [NaN > 0] is false. *)
Definition limitWait (cfg : RateLimitConfig) (now : Z) (ts : list Z) : list Z :=
  if decide (Z.of_nat (length ts) >= maxRequestsPerMinute cfg) then
    match head ts with
    | Some oldestTimestamp =>
        let waitTime := REQUEST_WINDOW - (now - oldestTimestamp) + 100 in
        if decide (waitTime > 0) then [waitTime] else []
    | None => []
    end
  else [].

(** Step 4: the spacing sleep; [now] is the clock read before step 3. *)
Definition spacingWait (cfg : RateLimitConfig) (now : Z) (s : State) : list Z :=
  let timeSinceLastRequest := now - lastRequestTime s in
  if decide (timeSinceLastRequest < minRequestDelay cfg)
  then [minRequestDelay cfg - timeSinceLastRequest] else [].

Definition sumZ (l : list Z) : Z := foldr Z.add 0 l.

(** What a call to [waitForRateLimit] does: it throws, or it resolves after
    the listed sleeps (in order). *)
Inductive Outcome :=
  | Rejected (e : BlockedError)
  | Granted (sleeps : list Z).

(** [waitForRateLimit(endpoint)] entered at clock [now]. *)
Definition waitForRateLimit (cfg : RateLimitConfig) (endpoint : string)
    (now : Z) (s : State) : Outcome * State :=
  match shouldBlockRequest now s with
  | (Some b, s1) =>
      (Rejected {| errExchange := exchangeName cfg;
                   errWindow := window b;
                   errRemainingSeconds := remainingSeconds b |}, s1)
  | (None, s1) =>
      let ts := evict now (requestTimestamps s1) in
      let sleeps := limitWait cfg now ts ++ spacingWait cfg now s1 in
      let recordedAt := now + sumZ sleeps in
      let s2 := {|
        requestTimestamps := ts ++ [recordedAt];
        lastRequestTime := recordedAt;
        consecutiveFailures := consecutiveFailures s1;
        circuitBreakerOpenUntil := circuitBreakerOpenUntil s1;
        backoffUntil := backoffUntil s1;
        ipBannedUntil := ipBannedUntil s1;
        requestStats := requestStats s1;
        lastStatsLogTime := lastStatsLogTime s1 |} in
      (Granted sleeps, recordRequestStat endpoint recordedAt s2)
  end.

(** [handle429Warning()]. *)
Definition handle429Warning (now : Z) (s : State) : State := {|
  requestTimestamps := requestTimestamps s;
  lastRequestTime := lastRequestTime s;
  consecutiveFailures := consecutiveFailures s;
  circuitBreakerOpenUntil := circuitBreakerOpenUntil s;
  backoffUntil := now + BACKOFF_429_DURATION;
  ipBannedUntil := ipBannedUntil s;
  requestStats := requestStats s;
  lastStatsLogTime := lastStatsLogTime s
|}.

(** [handle418Ban(banDurationSeconds?)]; [0] is falsy like [undefined]. *)
Definition handle418Ban (cfg : RateLimitConfig) (banDurationSeconds : option Z)
    (now : Z) (s : State) : State :=
  let duration :=
    match banDurationSeconds with
    | Some d => if decide (d = 0) then 300000 else d * 1000
    | None => 300000
    end in
  {| requestTimestamps := requestTimestamps s;
     lastRequestTime := lastRequestTime s;
     consecutiveFailures := circuitBreakerThreshold cfg;
     circuitBreakerOpenUntil := now + duration;
     backoffUntil := backoffUntil s;
     ipBannedUntil := now + duration;
     requestStats := requestStats s;
     lastStatsLogTime := lastStatsLogTime s |}.

(** [recordSuccess()] and [recordFailure()]. *)
Definition recordSuccess (s : State) : State :=
  if decide (consecutiveFailures s > 0) then {|
    requestTimestamps := requestTimestamps s;
    lastRequestTime := lastRequestTime s;
    consecutiveFailures := 0;
    circuitBreakerOpenUntil := circuitBreakerOpenUntil s;
    backoffUntil := backoffUntil s;
    ipBannedUntil := ipBannedUntil s;
    requestStats := requestStats s;
    lastStatsLogTime := lastStatsLogTime s |}
  else s.

Definition recordFailure (cfg : RateLimitConfig) (now : Z) (s : State) : State :=
  let n := consecutiveFailures s + 1 in
  {| requestTimestamps := requestTimestamps s;
     lastRequestTime := lastRequestTime s;
     consecutiveFailures := n;
     circuitBreakerOpenUntil :=
       if decide (n >= circuitBreakerThreshold cfg)
       then now + circuitBreakerTimeout cfg
       else circuitBreakerOpenUntil s;
     backoffUntil := backoffUntil s;
     ipBannedUntil := ipBannedUntil s;
     requestStats := requestStats s;
     lastStatsLogTime := lastStatsLogTime s |}.

End RateLimit.

(** ** Exchange capability interface: shared types *)

Module Exchange.

Inductive Side := long | short.

Inductive ContractType := inverse | linear.

#[global] Instance Side_eq_dec : EqDecision Side.
Proof. solve_decision. Defined.
#[global] Instance ContractType_eq_dec : EqDecision ContractType.
Proof. solve_decision. Defined.

(** [PositionInfo]; [size] is the value of [parseFloat(p.size)]. *)
Record PositionInfo := {
  posContract : string;
  posSize : Qc
}.

End Exchange.

(** ** Gate.io client: placeOrder and setPositionStopLoss *)

Module Gate.
Import Exchange.

Local Open Scope Qc_scope.

(** The fields of [ContractInfo] that the two methods read;
    [orderPriceRound] is the tick size as [formatPriceByTickSize] parses
    it, [parseFloat(contractInfo.orderPriceRound || "0.01")]. *)
Record ContractInfo := {
  orderSizeMin : Qc;
  orderSizeMax : Qc;
  orderPriceRound : float
}.

(** *** placeOrder *)

(** [autoSize], [stopLoss] and [takeProfit] of [OrderParams] are copied
    into the order unchanged and are left out here. *)
Record OrderParams := {
  contract : string;
  size : Qc;
  price : option Qc;
  tif : option string;
  reduceOnly : option bool
}.

(** The object passed to [createFuturesOrder]; [orderPrice] is the number
    printed by [formatPrice]. *)
Record FuturesOrder := {
  orderContract : string;
  orderSize : Qc;
  orderPrice : Qc;
  orderTif : string;
  isReduceOnly : bool
}.

Inductive CreateResponse :=
  | Created (id : string)
  | InsufficientAvailable
  | Refused.

Inductive PlaceResult :=
  | Placed (o : FuturesOrder) (id : string)
  | ErrInsufficient (o : FuturesOrder)
  | ErrOrderFailed (submitted : option FuturesOrder).

Definition API_MAX_SIZE : Qc := Num.ofZ 10000000.

(** Lines 767-790: the size sent to the exchange. *)
Definition adjustSize (info : ContractInfo) (size : Qc) : Qc :=
  let absSize := Num.abs size in
  let adjustedSize :=
    if Num.truthy (orderSizeMin info) && bool_decide (absSize < orderSizeMin info)
    then (if decide (0 < size) then orderSizeMin info else - orderSizeMin info)
    else size in
  let maxSize :=
    if Num.truthy (orderSizeMax info)
    then Num.min (orderSizeMax info) API_MAX_SIZE
    else API_MAX_SIZE in
  if decide (maxSize < absSize)
  then (if decide (0 < size) then maxSize else - maxSize)
  else adjustedSize.

(** Lines 792-813: the price band around the mark price. *)
Definition maxDeviation : Qc := Num.dec 0.015.

Definition adjustPrice (markPrice : Qc) (size price : Qc) : Qc :=
  if decide (0 < markPrice) then
    let priceDeviation := Num.abs (price - markPrice) / markPrice in
    if decide (maxDeviation < priceDeviation) then
      if decide (0 < size)
      then markPrice * (1 + maxDeviation)
      else markPrice * (1 - maxDeviation)
    else price
  else price.

(** [formatPrice]: eight decimals, [0] for a missing price. *)
Definition formatPrice (price : option Qc) : Qc :=
  match price with
  | Some p =>
      if decide (p = 0) then 0
      else Num.ofZ (Num.round (p * Num.ofZ 100000000)) / Num.ofZ 100000000
  | None => 0
  end.

(** What [placeOrder] asks of the exchange. *)
Record OrderApi := {
  orderContractInfo : string → option ContractInfo;
  orderMarkPrice : string → option Qc;
  createFuturesOrder : FuturesOrder → CreateResponse
}.

Definition placeOrder (api : OrderApi) (params : OrderParams) : PlaceResult :=
  match orderContractInfo api (contract params) with
  | None => ErrOrderFailed None
  | Some contractInfo =>
      let adjustedSize := adjustSize contractInfo (size params) in
      let adjustedPrice : option (option Qc) :=
        match price params with
        | Some p =>
            if Num.truthy p && bool_decide (0 < p) then
              match orderMarkPrice api (contract params) with
              | Some markPrice => Some (Some (adjustPrice markPrice (size params) p))
              | None => None
              end
            else Some (Some p)
        | None => Some None
        end in
      match adjustedPrice with
      | None => ErrOrderFailed None
      | Some adjustedPrice =>
          let formattedPrice := formatPrice adjustedPrice in
          let order := {|
            orderContract := contract params;
            orderSize := adjustedSize;
            orderPrice := formattedPrice;
            orderTif :=
              if decide (formattedPrice ≠ 0)
              then (match tif params with
                    | Some t => if Num.truthyStr t then t else "gtc"
                    | None => "gtc"
                    end)%string
              else "ioc"%string;
            isReduceOnly := bool_decide (reduceOnly params = Some true) |} in
          match createFuturesOrder api order with
          | Created id => Placed order id
          | InsufficientAvailable => ErrInsufficient order
          | Refused => ErrOrderFailed (Some order)
          end
      end
  end.

(** *** setPositionStopLoss *)

(** The price-triggered order sent to [createPriceTriggeredOrder]:
    [initial = {contract, size, price: '0', tif: 'ioc'}] and
    [trigger = {strategy_type: 0, price_type: 0, price, rule}];
    [trigger.price] is the string printed by [formatPriceByTickSize]. *)
Record TriggerOrder := {
  initialContract : string;
  initialSize : Z;
  initialPrice : Qc;
  initialTif : string;
  triggerPrice : string;
  triggerRule : Z
}.

Inductive Leg := StopLossLeg | TakeProfitLeg.

(** The exchange as seen by [setPositionStopLoss].  [markPrice leg c] is
    [parseFloat(ticker.markPrice || ticker.last || "0")] of the ticker
    fetched while preparing that leg; [createPriceTriggeredOrder o] is
    [result.body.id?.toString()]. *)
Record TriggerApi := {
  getPositions : option (list PositionInfo);
  cancelPriceTriggeredOrderList : string → option unit;
  markPrice : Leg → string → option float;
  getContractInfo : string → option ContractInfo;
  createPriceTriggeredOrder : TriggerOrder → option (option string)
}.

(** Calls that reach the exchange and change it, in program order. *)
Inductive Call :=
  | CancelTriggers (c : string)
  | CreateTrigger (o : TriggerOrder).

Inductive Message :=
  | MsgNoPosition
  | MsgStopLossFailed
  | MsgStopLossOnly
  | MsgTakeProfitFailed
  | MsgSet
  | MsgSetFailed.

Record StopLossResult := {
  success : bool;
  stopLossOrderId : option string;
  takeProfitOrderId : option string;
  message : Message
}.

(** [formatPriceByTickSize] (lines 935-952): the price divided by the
    tick, rounded to a whole number and multiplied by the tick again, is
    printed with as many decimals as [tickSize.toString()] shows after
    its point; with two decimals when the contract information cannot be
    fetched. *)
Definition tickDecimals (tickSize : float) : nat :=
  default 0%nat (String.length <$> Js.split "." (Js.toString tickSize) !! 1%nat).

Definition formatPriceByTickSize (api : TriggerApi) (c : string) (price : float)
    : string :=
  match getContractInfo api c with
  | Some contractInfo =>
      let tickSize := orderPriceRound contractInfo in
      let roundedPrice := (Js.round (price / tickSize) * tickSize)%float in
      let decimals := tickDecimals tickSize in
      Js.toFixed roundedPrice decimals
  | None => Js.toFixed price 2
  end.

Definition minDistance : float := 0.005%float.
Definition minSafeDistance : float := 0.003%float.

(** Lines 1298-1323. *)
Definition isInvalidStopLoss (side : Side) (currentPrice stopLoss : float) : bool :=
  bool_decide (side = long) && (currentPrice <=? stopLoss)%float
  || bool_decide (side = short) && (stopLoss <=? currentPrice)%float.

Definition adjustStopLoss (side : Side) (currentPrice stopLoss : float) : float :=
  if isInvalidStopLoss side currentPrice stopLoss then
    match side with
    | long => (currentPrice * (1 - minDistance))%float
    | short => (currentPrice * (1 + minDistance))%float
    end
  else
    let priceDeviation :=
      (PrimFloat.abs (stopLoss - currentPrice) / currentPrice)%float in
    if (priceDeviation <? minSafeDistance)%float then
      match side with
      | long => (currentPrice * (1 - minSafeDistance))%float
      | short => (currentPrice * (1 + minSafeDistance))%float
      end
    else stopLoss.

(** Lines 1390-1415. *)
Definition isInvalidTakeProfit (side : Side) (currentPrice takeProfit : float)
    : bool :=
  bool_decide (side = long) && (takeProfit <=? currentPrice)%float
  || bool_decide (side = short) && (currentPrice <=? takeProfit)%float.

Definition adjustTakeProfit (side : Side) (currentPrice takeProfit : float)
    : float :=
  if isInvalidTakeProfit side currentPrice takeProfit then
    match side with
    | long => (currentPrice * (1 + minDistance))%float
    | short => (currentPrice * (1 - minDistance))%float
    end
  else
    let priceDeviation :=
      (PrimFloat.abs (takeProfit - currentPrice) / currentPrice)%float in
    if (priceDeviation <? minSafeDistance)%float then
      match side with
      | long => (currentPrice * (1 + minSafeDistance))%float
      | short => (currentPrice * (1 - minSafeDistance))%float
      end
    else takeProfit.

Definition triggerOrder (c : string) (closeSize : Z) (p : string) (rule : Z)
    : TriggerOrder := {|
  initialContract := c;
  initialSize := closeSize;
  initialPrice := 0;
  initialTif := "ioc";
  triggerPrice := p;
  triggerRule := rule
|}.

(** The body of one [try] block: [inl tt] when it throws, [inr id] with
    the id string of the created order otherwise; together with the orders
    submitted. *)
Definition placeLeg (api : TriggerApi) (leg : Leg) (c : string) (side : Side)
    (closeSize : Z) (requested : float) : (unit + option string) * list Call :=
  match markPrice api leg c with
  | None => (inl tt, [])
  | Some currentPrice =>
      if (currentPrice <=? 0)%float then (inl tt, [])
      else
        let adjusted :=
          match leg with
          | StopLossLeg => adjustStopLoss side currentPrice requested
          | TakeProfitLeg => adjustTakeProfit side currentPrice requested
          end in
        let formatted := formatPriceByTickSize api c adjusted in
        let rule :=
          match leg, side with
          | StopLossLeg, long => 2%Z
          | StopLossLeg, short => 1%Z
          | TakeProfitLeg, long => 1%Z
          | TakeProfitLeg, short => 2%Z
          end in
        let order := triggerOrder c closeSize formatted rule in
        match createPriceTriggeredOrder api order with
        | None => (inl tt, [CreateTrigger order])
        | Some id => (inr id, [CreateTrigger order])
        end
  end.

(** [x !== undefined && x > 0]. *)
Definition requested (x : option float) : option float :=
  match x with
  | Some v => if (0 <? v)%float then Some v else None
  | None => None
  end.

(** [if (stopLossOrderId)]: a defined, non-empty string. *)
Definition truthyId (id : option string) : bool :=
  match id with
  | Some s => Num.truthyStr s
  | None => false
  end.

Definition setPositionStopLoss (api : TriggerApi) (c : string)
    (stopLoss takeProfit : option float) : StopLossResult * list Call :=
  match getPositions api with
  | None =>
      ({| success := false; stopLossOrderId := None;
          takeProfitOrderId := None; message := MsgSetFailed |}, [])
  | Some positions =>
      match find (λ p, bool_decide (posContract p = c)) positions with
      | None =>
          ({| success := false; stopLossOrderId := None;
              takeProfitOrderId := None; message := MsgNoPosition |}, [])
      | Some position =>
          if decide (Num.abs (posSize position) = 0) then
            ({| success := false; stopLossOrderId := None;
                takeProfitOrderId := None; message := MsgNoPosition |}, [])
          else
            let side := if decide (0 < posSize position) then long else short in
            let closeSize := Z.abs (Num.round (posSize position)) in
            let cancel := [CancelTriggers c] in
            let '(sl, slCalls) :=
              match requested stopLoss with
              | Some v => placeLeg api StopLossLeg c side closeSize v
              | None => (inr None, [])
              end in
            match sl with
            | inl _ =>
                ({| success := false; stopLossOrderId := None;
                    takeProfitOrderId := None; message := MsgStopLossFailed |},
                 cancel ++ slCalls)
            | inr stopLossOrderId =>
                let '(tp, tpCalls) :=
                  match requested takeProfit with
                  | Some v => placeLeg api TakeProfitLeg c side closeSize v
                  | None => (inr None, [])
                  end in
                match tp with
                | inl _ =>
                    if truthyId stopLossOrderId then
                      ({| success := true; stopLossOrderId := stopLossOrderId;
                          takeProfitOrderId := None; message := MsgStopLossOnly |},
                       cancel ++ slCalls ++ tpCalls)
                    else
                      ({| success := false; stopLossOrderId := None;
                          takeProfitOrderId := None;
                          message := MsgTakeProfitFailed |},
                       cancel ++ slCalls ++ tpCalls)
                | inr takeProfitOrderId =>
                    ({| success := true; stopLossOrderId := stopLossOrderId;
                        takeProfitOrderId := takeProfitOrderId;
                        message := MsgSet |},
                     cancel ++ slCalls ++ tpCalls)
                end
            end
      end
  end.

#[global] Instance FuturesOrder_eq_dec : EqDecision FuturesOrder.
Proof. solve_decision. Defined.
#[global] Instance PlaceResult_eq_dec : EqDecision PlaceResult.
Proof. solve_decision. Defined.
#[global] Instance TriggerOrder_eq_dec : EqDecision TriggerOrder.
Proof. solve_decision. Defined.
#[global] Instance Call_eq_dec : EqDecision Call.
Proof. solve_decision. Defined.
#[global] Instance Message_eq_dec : EqDecision Message.
Proof. solve_decision. Defined.
#[global] Instance StopLossResult_eq_dec : EqDecision StopLossResult.
Proof. solve_decision. Defined.

End Gate.

(** ** FeeService *)

Module Fee.

Local Open Scope Qc_scope.

Inductive Source := actual | estimated.

Record FeeCalculationResult := {
  fee : Qc;
  source : Source;
  rate : option Qc
}.

#[global] Instance Source_eq_dec : EqDecision Source.
Proof. solve_decision. Defined.
#[global] Instance FeeCalculationResult_eq_dec : EqDecision FeeCalculationResult.
Proof. solve_decision. Defined.

(** A fill returned by [getMyTrades]; [tradeFee] is
    [parseFloat(trade.fee || '0')]. *)
Record TradeRecord := {
  tradeId : string;
  tradeOrderId : option string;
  tradeFee : Qc
}.

Inductive NetworkType := testnet | mainnet.

Record FeeConfig := { maker : Qc; taker : Qc }.

(** The exchange client of the service and the rate table
    [RISK_PARAMS.FEE_RATES] (config/riskParams is not part of the sources
    at hand, so the table is a field). *)
Record Client := {
  getExchangeName : string;
  isTestnet : bool;
  getMyTrades : string → Z → Z → option (list TradeRecord);
  FEE_RATES : string → NetworkType → FeeConfig
}.

Definition CACHE_TTL : Z := 300000.

Record CacheEntry := { result : FeeCalculationResult; timestamp : Z }.

#[global] Instance CacheEntry_eq_dec : EqDecision CacheEntry.
Proof. solve_decision. Defined.

(** [t.order_id === orderId || t.id === orderId]. *)
Definition matches (orderId : string) (t : TradeRecord) : bool :=
  bool_decide (tradeOrderId t = Some orderId) || bool_decide (tradeId t = orderId).

(** The [reduce] over the matched fills. *)
Definition totalFee (matchedTrades : list TradeRecord) : Qc :=
  foldl (λ sum trade, sum + Num.abs (tradeFee trade)) 0 matchedTrades.

(** [getActualFeeFromTrade(orderId, contract, startTime?)] at clock [now];
    [None] is [null]. *)
Definition getActualFeeFromTrade (cl : Client) (orderId contract : string)
    (startTime : option Z) (now : Z) (feeCache : gmap string CacheEntry)
    : option FeeCalculationResult * gmap string CacheEntry :=
  let fresh :=
    match feeCache !! orderId with
    | Some cached =>
        if decide (now - timestamp cached < CACHE_TTL)%Z
        then Some (result cached) else None
    | None => None
    end in
  match fresh with
  | Some r => (Some r, feeCache)
  | None =>
      let queryStartTime :=
        match startTime with
        | Some t => if decide (t = 0%Z) then (now - 24 * 60 * 60 * 1000)%Z else t
        | None => (now - 24 * 60 * 60 * 1000)%Z
        end in
      match getMyTrades cl contract 100%Z queryStartTime with
      | None => (None, feeCache)
      | Some trades =>
          let matchedTrades := filter (λ t, matches orderId t) trades in
          if decide (length matchedTrades = 0%nat) then (None, feeCache)
          else
            let r := {| fee := totalFee matchedTrades;
                        source := actual; rate := None |} in
            (Some r, <[orderId := {| result := r; timestamp := now |}]> feeCache)
      end
  end.

(** [estimateFee(notionalValue, isMaker)]. *)
Definition estimateFee (cl : Client) (notionalValue : Qc) (isMaker : bool)
    : FeeCalculationResult :=
  let networkType := if isTestnet cl then testnet else mainnet in
  let feeConfig := FEE_RATES cl (getExchangeName cl) networkType in
  let feeRate := if isMaker then maker feeConfig else taker feeConfig in
  {| fee := Num.abs (notionalValue * feeRate);
     source := estimated;
     rate := Some feeRate |}.

(** [getFee(orderId, contract, notionalValue, isMaker, startTime?)]. *)
Definition getFee (cl : Client) (orderId : option string) (contract : string)
    (notionalValue : Qc) (isMaker : bool) (startTime : option Z) (now : Z)
    (feeCache : gmap string CacheEntry)
    : FeeCalculationResult * gmap string CacheEntry :=
  let attempt :=
    match orderId with
    | Some o =>
        if Num.truthyStr o
        then getActualFeeFromTrade cl o contract startTime now feeCache
        else (None, feeCache)
    | None => (None, feeCache)
    end in
  match attempt with
  | (Some actualFee, cache) =>
      if decide (0 < fee actualFee) then (actualFee, cache)
      else (estimateFee cl notionalValue isMaker, cache)
  | (None, cache) => (estimateFee cl notionalValue isMaker, cache)
  end.

(** [cleanupCache()] at clock [now]: entries older than the TTL are
    deleted. *)
Definition cleanupCache (now : Z) (feeCache : gmap string CacheEntry)
    : gmap string CacheEntry :=
  filter (λ entry, ¬ (now - timestamp (snd entry) > CACHE_TTL)%Z) feeCache.

End Fee.

(** ** Reconciler: ResolveFailureTracker and InconsistentStateResolver *)

Module Resolver.
Import Exchange.

(** *** Alerts and the failure tracker *)

Inductive AlertLevel := INFO | WARNING | ERROR | CRITICAL.

Inductive AlertTitle := RepairKeepsFailing | RepairServiceAbnormal.

(** The [details] object of the two alerts. *)
Inductive AlertDetails :=
  | RowDetails (stateId : Z) (failureCount consecutiveTotalFailures : nat)
  | OverallDetails (consecutive affectedStates : nat) (failedStateIds : gset Z).

Record Alert := {
  level : AlertLevel;
  title : AlertTitle;
  details : AlertDetails
}.

#[global] Instance AlertLevel_eq_dec : EqDecision AlertLevel.
Proof. solve_decision. Defined.
#[global] Instance AlertTitle_eq_dec : EqDecision AlertTitle.
Proof. solve_decision. Defined.
#[global] Instance AlertDetails_eq_dec : EqDecision AlertDetails.
Proof. solve_decision. Defined.
#[global] Instance Alert_eq_dec : EqDecision Alert.
Proof. solve_decision. Defined.

(** The fields of [ResolveFailureTracker]. *)
Record Tracker := {
  consecutiveFailures : nat;
  failedStates : gmap Z nat
}.

Definition newTracker : Tracker :=
  {| consecutiveFailures := 0; failedStates := ∅ |}.

(** [recordFailure(stateId)]: the new tracker and the alerts handed to
    [emailAlertService.sendAlert]. *)
Definition recordFailure (stateId : Z) (t : Tracker) : Tracker * list Alert :=
  let count := (default 0 (failedStates t !! stateId) + 1)%nat in
  let t' := {| consecutiveFailures := S (consecutiveFailures t);
               failedStates := <[stateId := count]> (failedStates t) |} in
  (t',
   if decide (5 ≤ count)%nat
   then [ {| level := ERROR; title := RepairKeepsFailing;
             details := RowDetails stateId count (consecutiveFailures t') |} ]
   else []).

(** [recordSuccess(stateId)]. *)
Definition recordSuccess (stateId : Z) (t : Tracker) : Tracker :=
  {| consecutiveFailures := 0;
     failedStates := delete stateId (failedStates t) |}.

(** [checkOverallFailures()]. *)
Definition checkOverallFailures (t : Tracker) : list Alert :=
  if decide (10 ≤ consecutiveFailures t)%nat
  then [ {| level := CRITICAL; title := RepairServiceAbnormal;
            details := OverallDetails (consecutiveFailures t)
                         (size (failedStates t)) (dom (failedStates t)) |} ]
  else [].

(** *** The store *)

Inductive TradeType := open | close.
Inductive PriceOrderStatus := active | triggered | cancelled.

Record PositionRow := {
  positionSymbol : string;
  positionSide : Side;
  positionQuantity : Qc
}.

Record PriceOrderRow := {
  priceOrderId : Z;
  priceOrderSymbol : string;
  priceOrderSide : Side;
  priceOrderStatus : PriceOrderStatus;
  priceOrderUpdatedAt : Z
}.

Record TradeRow := {
  tradeOrderId : string;
  tradeSymbol : string;
  tradeSide : Side;
  tradeType : TradeType;
  tradePrice : Qc;
  tradeQuantity : Qc;
  tradeLeverage : Qc;
  tradePnl : option Qc;
  tradeFee : Qc;
  tradeTimestamp : Z;
  tradeStatus : string
}.

Record CloseEventRow := {
  eventSymbol : string;
  eventSide : Side;
  eventEntryPrice : Qc;
  eventClosePrice : Qc;
  eventQuantity : Qc;
  eventLeverage : Qc;
  eventPnl : Qc;
  eventPnlPercent : Qc;
  eventFee : Qc;
  eventCloseReason : string;
  eventTriggerType : string;
  eventOrderId : string;
  eventCreatedAt : Z;
  eventProcessed : Z
}.

Record InconsistentState := {
  id : Z;
  operation : string;
  symbol : string;
  side : Side;
  exchange_order_id : string;
  created_at : Z;
  resolved : Z;
  resolved_at : option Z;
  resolved_by : option string
}.

#[global] Instance TradeType_eq_dec : EqDecision TradeType.
Proof. solve_decision. Defined.
#[global] Instance PriceOrderStatus_eq_dec : EqDecision PriceOrderStatus.
Proof. solve_decision. Defined.
#[global] Instance PositionRow_eq_dec : EqDecision PositionRow.
Proof. solve_decision. Defined.
#[global] Instance PriceOrderRow_eq_dec : EqDecision PriceOrderRow.
Proof. solve_decision. Defined.
#[global] Instance TradeRow_eq_dec : EqDecision TradeRow.
Proof. solve_decision. Defined.
#[global] Instance CloseEventRow_eq_dec : EqDecision CloseEventRow.
Proof. solve_decision. Defined.
#[global] Instance InconsistentState_eq_dec : EqDecision InconsistentState.
Proof. solve_decision. Defined.

(** The tables the resolver touches.  Timestamps are clock values; the
    ISO-8601 strings of the source order the same way. *)
Record Store := {
  positions : list PositionRow;
  price_orders : list PriceOrderRow;
  trades : list TradeRow;
  position_close_events : list CloseEventRow;
  inconsistent_states : list InconsistentState
}.

#[global] Instance Store_eq_dec : EqDecision Store.
Proof. solve_decision. Defined.

(** The connection: the visible tables, and the tables as they were at
    [BEGIN] while a transaction is open. *)
Record Db := {
  store : Store;
  snapshot : option Store
}.

(** The statements the resolver sends through [dbClient.execute]. *)
Inductive Stmt :=
  | Begin
  | Commit
  | Rollback
  | DeletePosition (sym : string) (sd : Side)
  | CancelActivePriceOrders (updatedAt : Z) (sym : string) (sd : Side)
  | InsertTrade (row : TradeRow)
  | InsertCloseEvent (row : CloseEventRow)
  | MarkResolved (resolvedAt : Z) (stateId : Z).

Definition deletePosition (sym : string) (sd : Side) (st : Store) : Store := {|
  positions :=
    filter (λ p, ¬ (positionSymbol p = sym ∧ positionSide p = sd)) (positions st);
  price_orders := price_orders st;
  trades := trades st;
  position_close_events := position_close_events st;
  inconsistent_states := inconsistent_states st
|}.

Definition cancelRow (updatedAt : Z) (sym : string) (sd : Side)
    (o : PriceOrderRow) : PriceOrderRow :=
  if decide (priceOrderSymbol o = sym ∧ priceOrderSide o = sd
             ∧ priceOrderStatus o = active)
  then {| priceOrderId := priceOrderId o;
          priceOrderSymbol := priceOrderSymbol o;
          priceOrderSide := priceOrderSide o;
          priceOrderStatus := cancelled;
          priceOrderUpdatedAt := updatedAt |}
  else o.

Definition cancelActivePriceOrders (updatedAt : Z) (sym : string) (sd : Side)
    (st : Store) : Store := {|
  positions := positions st;
  price_orders := cancelRow updatedAt sym sd <$> price_orders st;
  trades := trades st;
  position_close_events := position_close_events st;
  inconsistent_states := inconsistent_states st
|}.

Definition insertTrade (row : TradeRow) (st : Store) : Store := {|
  positions := positions st;
  price_orders := price_orders st;
  trades := trades st ++ [row];
  position_close_events := position_close_events st;
  inconsistent_states := inconsistent_states st
|}.

Definition insertCloseEvent (row : CloseEventRow) (st : Store) : Store := {|
  positions := positions st;
  price_orders := price_orders st;
  trades := trades st;
  position_close_events := position_close_events st ++ [row];
  inconsistent_states := inconsistent_states st
|}.

Definition resolveRow (resolvedAt : Z) (stateId : Z) (r : InconsistentState)
    : InconsistentState :=
  if decide (id r = stateId)
  then {| id := id r; operation := operation r; symbol := symbol r;
          side := side r; exchange_order_id := exchange_order_id r;
          created_at := created_at r;
          resolved := 1; resolved_at := Some resolvedAt;
          resolved_by := Some "auto" |}
  else r.

Definition markResolved (resolvedAt : Z) (stateId : Z) (st : Store) : Store := {|
  positions := positions st;
  price_orders := price_orders st;
  trades := trades st;
  position_close_events := position_close_events st;
  inconsistent_states := resolveRow resolvedAt stateId <$> inconsistent_states st
|}.

(** What a statement does when the database accepts it; [None] is an
    error of the statement itself (BEGIN inside a transaction, COMMIT or
    ROLLBACK outside of one). *)
Definition run (s : Stmt) (db : Db) : option Db :=
  let write f := Some {| store := f (store db); snapshot := snapshot db |} in
  match s with
  | Begin =>
      match snapshot db with
      | None => Some {| store := store db; snapshot := Some (store db) |}
      | Some _ => None
      end
  | Commit =>
      match snapshot db with
      | Some _ => Some {| store := store db; snapshot := None |}
      | None => None
      end
  | Rollback =>
      match snapshot db with
      | Some old => Some {| store := old; snapshot := None |}
      | None => None
      end
  | DeletePosition sym sd => write (deletePosition sym sd)
  | CancelActivePriceOrders ts sym sd => write (cancelActivePriceOrders ts sym sd)
  | InsertTrade row => write (insertTrade row)
  | InsertCloseEvent row => write (insertCloseEvent row)
  | MarkResolved ts i => write (markResolved ts i)
  end.

(** The database together with the number of [dbClient.execute] calls made
    so far.  [fails k] tells whether the k-th call throws for a reason of
    its own (I/O error, lock, constraint); a failed statement changes
    nothing. *)
Record World := {
  db : Db;
  executed : nat
}.

Definition execute (fails : nat → bool) (s : Stmt) (w : World) : bool * World :=
  let next := S (executed w) in
  if fails (executed w) then (false, {| db := db w; executed := next |})
  else
    match run s (db w) with
    | Some db' => (true, {| db := db'; executed := next |})
    | None => (false, {| db := db w; executed := next |})
    end.

(** Statements awaited one after the other inside one [try] block: the
    first failure leaves the block. *)
Fixpoint executeAll (fails : nat → bool) (ss : list Stmt) (w : World)
    : bool * World :=
  match ss with
  | [] => (true, w)
  | s :: rest =>
      let '(ok, w1) := execute fails s w in
      if ok then executeAll fails rest w1 else (false, w1)
  end.

(** A [SELECT]: also one [execute] call. *)
Definition select {A} (fails : nat → bool) (q : Store → A) (w : World)
    : option A * World :=
  let w' := {| db := db w; executed := S (executed w) |} in
  if fails (executed w) then (None, w') else (Some (q (store (db w))), w').

#[global] Instance Db_eq_dec : EqDecision Db.
Proof. solve_decision. Defined.
#[global] Instance World_eq_dec : EqDecision World.
Proof. solve_decision. Defined.

(** *** resolveClosePosition *)

(** A fill returned by [getMyTrades]: the three id fields after
    [?.toString()], and the parsed numbers.  [fillSize] and [fillQty] are
    [None] when the field is missing or falsy. *)
Record Fill := {
  fillOrderId : option string;
  fill_order_id : option string;
  fillId : option string;
  fillPrice : Qc;
  fillSize : option Qc;
  fillQty : option Qc;
  fillFee : Qc
}.

(** The exchange client as the resolver uses it, and [getQuantoMultiplier]
    of utils/contractUtils (not part of the sources at hand). *)
Record ExchangeClient := {
  getPositions : option (list PositionInfo);
  normalizeContract : string → string;
  getMyTrades : string → Z → option (list Fill);
  calculatePnl : Qc → Qc → Qc → Side → string → option Qc;
  getContractType : ContractType;
  getQuantoMultiplier : string → option Qc
}.

Definition positionExists (contract : string) (ps : list PositionInfo) : bool :=
  existsb (λ p, bool_decide (posContract p = contract)
                && bool_decide (0 < Num.abs (posSize p))%Qc) ps.

Definition isCloseTrade (exchangeOrderId : string) (t : Fill) : bool :=
  bool_decide (fillOrderId t = Some exchangeOrderId)
  || bool_decide (fill_order_id t = Some exchangeOrderId)
  || bool_decide (fillId t = Some exchangeOrderId).

(** [SELECT * FROM trades WHERE symbol = ? AND side = ? AND type = 'open'
    ORDER BY timestamp DESC LIMIT 1]; among rows with the same timestamp
    the earliest inserted one is taken. *)
Definition latestOpenTrade (sym : string) (sd : Side) (st : Store)
    : option TradeRow :=
  foldl (λ best r,
           if decide (tradeSymbol r = sym ∧ tradeSide r = sd ∧ tradeType r = open)
           then match best with
                | None => Some r
                | Some b =>
                    if decide (tradeTimestamp b < tradeTimestamp r)
                    then Some r else Some b
                end
           else best)
        None (trades st).

Definition FLAT_FEE_RATE : Qc := Num.dec 0.001.

(** Lines 262-302: the figures of the synthesized close.  They are
    rationals: with a margin of zero (a quantity or an entry price of 0)
    the source divides by zero, and its [pnlPercent] is [NaN] or
    infinite, which the database driver does not take as an argument, so
    that the INSERT of the close event throws.  Here [pnlPercent] is 0 in
    that case, and the throw is one of the failures that the fault
    schedule [fails] of [execute] stands for. *)
Record CloseFigures := {
  entryPrice : Qc;
  exitPrice : Qc;
  quantity : Qc;
  leverage : Qc;
  positionValue : Qc;
  totalFee : Qc;
  netPnl : Qc;
  pnlPercent : Qc
}.

#[global] Instance Fill_eq_dec : EqDecision Fill.
Proof. solve_decision. Defined.
#[global] Instance CloseFigures_eq_dec : EqDecision CloseFigures.
Proof. solve_decision. Defined.

Definition closeFigures (contractType : ContractType) (quantoMultiplier : Qc)
    (openTrade : TradeRow) (closeTrade : Fill) (grossPnl : Qc) : CloseFigures :=
  let entryPrice := tradePrice openTrade in
  let exitPrice := fillPrice closeTrade in
  let quantity :=
    Num.abs (default (default 0%Qc (fillQty closeTrade)) (fillSize closeTrade)) in
  let leverage :=
    if Num.truthy (tradeLeverage openTrade) then tradeLeverage openTrade else 1%Qc in
  let positionValue :=
    match contractType with
    | inverse => (quantity * quantoMultiplier * exitPrice)%Qc
    | linear => (quantity * exitPrice)%Qc
    end in
  let totalFee := (positionValue * FLAT_FEE_RATE)%Qc in
  let netPnl := (grossPnl - totalFee)%Qc in
  let openPositionValue :=
    match contractType with
    | inverse => (quantity * quantoMultiplier * entryPrice)%Qc
    | linear => (quantity * entryPrice)%Qc
    end in
  let margin := (openPositionValue / leverage)%Qc in
  {| entryPrice := entryPrice; exitPrice := exitPrice; quantity := quantity;
     leverage := leverage; positionValue := positionValue;
     totalFee := totalFee; netPnl := netPnl;
     pnlPercent := (netPnl / margin * Num.ofZ 100)%Qc |}.

Definition closeTradeRow (state : InconsistentState) (f : CloseFigures)
    (timestamp : Z) : TradeRow := {|
  tradeOrderId := exchange_order_id state;
  tradeSymbol := symbol state;
  tradeSide := side state;
  tradeType := close;
  tradePrice := exitPrice f;
  tradeQuantity := quantity f;
  tradeLeverage := leverage f;
  tradePnl := Some (netPnl f);
  tradeFee := totalFee f;
  tradeTimestamp := timestamp;
  tradeStatus := "filled"
|}.

Definition closeEventRow (state : InconsistentState) (f : CloseFigures)
    (timestamp : Z) : CloseEventRow := {|
  eventSymbol := symbol state;
  eventSide := side state;
  eventEntryPrice := entryPrice f;
  eventClosePrice := exitPrice f;
  eventQuantity := quantity f;
  eventLeverage := leverage f;
  eventPnl := netPnl f;
  eventPnlPercent := pnlPercent f;
  eventFee := totalFee f;
  eventCloseReason := "system_recovered";
  eventTriggerType := "auto_fix";
  eventOrderId := exchange_order_id state;
  eventCreatedAt := timestamp;
  eventProcessed := 1
|}.

(** The statements of the inner [try] block, in order. *)
Definition repairStatements (state : InconsistentState) (f : CloseFigures)
    (timestamp : Z) : list Stmt :=
  [ DeletePosition (symbol state) (side state);
    CancelActivePriceOrders timestamp (symbol state) (side state);
    InsertTrade (closeTradeRow state f timestamp);
    InsertCloseEvent (closeEventRow state f timestamp);
    Commit ].

(** Steps 1 to 4: everything read before the transaction; [None] is any of
    the early [return false] (including the outer [catch]).  The world is
    returned because the open-trade lookup is an [execute] call. *)
Definition prepareClose (fails : nat → bool) (ex : ExchangeClient)
    (state : InconsistentState) (w : World) : option (Fill * CloseFigures) * World :=
  match getPositions ex with
  | None => (None, w)
  | Some ps =>
      let contract := normalizeContract ex (symbol state) in
      if positionExists contract ps then (None, w)
      else
        match getMyTrades ex contract 100 with
        | None => (None, w)
        | Some fills =>
            match find (isCloseTrade (exchange_order_id state)) fills with
            | None => (None, w)
            | Some closeTrade =>
                match select fails (latestOpenTrade (symbol state) (side state)) w with
                | (None, w1) | (Some None, w1) => (None, w1)
                | (Some (Some openTrade), w1) =>
                    let quantity :=
                      Num.abs (default (default 0%Qc (fillQty closeTrade))
                                       (fillSize closeTrade)) in
                    match calculatePnl ex (tradePrice openTrade) (fillPrice closeTrade)
                            quantity (side state) contract with
                    | None => (None, w1)
                    | Some grossPnl =>
                        match getContractType ex with
                        | inverse =>
                            match getQuantoMultiplier ex contract with
                            | None => (None, w1)
                            | Some m =>
                                (Some (closeTrade,
                                       closeFigures inverse m openTrade closeTrade grossPnl),
                                 w1)
                            end
                        | linear =>
                            (Some (closeTrade,
                                   closeFigures linear 1%Qc openTrade closeTrade grossPnl),
                             w1)
                        end
                    end
                end
            end
        end
  end.

(** [resolveClosePosition(state, exchangeClient)] with [timestamp] the
    value of [new Date().toISOString()]. *)
Definition resolveClosePosition (fails : nat → bool) (ex : ExchangeClient)
    (timestamp : Z) (state : InconsistentState) (w : World) : bool * World :=
  match prepareClose fails ex state w with
  | (None, w1) => (false, w1)
  | (Some (_, f), w1) =>
      match execute fails Begin w1 with
      | (false, w2) => (false, w2)
      | (true, w2) =>
          match executeAll fails (repairStatements state f timestamp) w2 with
          | (true, w3) => (true, w3)
          | (false, w3) => (false, snd (execute fails Rollback w3))
          end
      end
  end.

(** [resolveState(state)]. *)
Definition resolveState (fails : nat → bool) (ex : ExchangeClient)
    (timestamp : Z) (state : InconsistentState) (w : World) : bool * World :=
  if decide (operation state = "close_position") then
    resolveClosePosition fails ex timestamp state w
  else if decide (operation state = "price_order_triggered") then
    resolveClosePosition fails ex timestamp state w
  else (false, w).

(** *** resolveInconsistentStates *)

(** [SELECT * FROM inconsistent_states WHERE resolved = 0
    ORDER BY created_at ASC]. *)
Definition createdNoLater (a b : InconsistentState) : Prop :=
  created_at a ≤ created_at b.

#[global] Instance createdNoLater_dec : RelDecision createdNoLater.
Proof. intros a b. unfold createdNoLater. apply _. Defined.

Definition unresolvedRows (st : Store) : list InconsistentState :=
  merge_sort createdNoLater
             (filter (λ r, resolved r = 0) (inconsistent_states st)).

(** What one pass leaves behind. *)
Record Pass := {
  world : World;
  tracker : Tracker;
  alerts : list Alert
}.

(** The body of the [for] loop for one row; [ex state] is the exchange as
    it answers while that row is handled. *)
Definition processRow (fails : nat → bool)
    (ex : InconsistentState → ExchangeClient) (timestamp : Z)
    (p : Pass) (state : InconsistentState) : Pass :=
  let failure w :=
    let '(t, a) := recordFailure (id state) (tracker p) in
    {| world := w; tracker := t; alerts := alerts p ++ a |} in
  match resolveState fails (ex state) timestamp state (world p) with
  | (true, w1) =>
      match execute fails (MarkResolved timestamp (id state)) w1 with
      | (true, w2) =>
          {| world := w2; tracker := recordSuccess (id state) (tracker p);
             alerts := alerts p |}
      | (false, w2) => failure w2
      end
  | (false, w1) => failure w1
  end.

Definition resolveInconsistentStates (fails : nat → bool)
    (ex : InconsistentState → ExchangeClient) (timestamp : Z)
    (w : World) (t : Tracker) : Pass :=
  match select fails unresolvedRows w with
  | (None, w1) => {| world := w1; tracker := t; alerts := [] |}
  | (Some [], w1) => {| world := w1; tracker := t; alerts := [] |}
  | (Some rows, w1) =>
      let p := foldl (processRow fails ex timestamp)
                     {| world := w1; tracker := t; alerts := [] |} rows in
      {| world := world p; tracker := tracker p;
         alerts := alerts p ++ checkOverallFailures (tracker p) |}
  end.

End Resolver.

(** ** HTTP read API: GET /api/prices *)

Module Api.

(** [String.prototype.split(",")]. *)
Fixpoint split (sep : Ascii.ascii) (s : string) : list string :=
  match s with
  | EmptyString => [EmptyString]
  | String ch rest =>
      if decide (ch = sep) then EmptyString :: split sep rest
      else match split sep rest with
           | h :: t => String ch h :: t
           | [] => [String ch EmptyString]
           end
  end.

(** [String.prototype.trim()], on the ASCII white space characters. *)
Definition isSpace (ch : Ascii.ascii) : bool :=
  let n := Ascii.nat_of_ascii ch in
  Nat.eqb n 32 || (Nat.leb 9 n && Nat.leb n 13).

Fixpoint trimStart (s : string) : string :=
  match s with
  | EmptyString => EmptyString
  | String ch rest => if isSpace ch then trimStart rest else s
  end.

Fixpoint trimEnd (s : string) : string :=
  match s with
  | EmptyString => EmptyString
  | String ch rest =>
      let rest' := trimEnd rest in
      if isSpace ch && bool_decide (rest' = EmptyString)
      then EmptyString else String ch rest'
  end.

Definition trim (s : string) : string := trimEnd (trimStart s).

(** The module-level [priceCache]. *)
Record PriceCache := {
  prices : gmap string Qc;
  timestamp : Z
}.

#[global] Instance PriceCache_eq_dec : EqDecision PriceCache.
Proof. solve_decision. Defined.

Definition PRICE_CACHE_TTL : Z := 5000.
Definition DEFAULT_TRADING_SYMBOLS : string := "BTC,ETH,SOL,XRP,BNB,BCH".

(** The request as the handler receives it: its query parameters. *)
Record Request := {
  query : gmap string string
}.

(** The exchange client of the route; [getFuturesTicker c] is
    [parseFloat(ticker.last || "0")], [None] when the call throws. *)
Record Exchange := {
  normalizeContract : string → string;
  getFuturesTicker : string → option Qc
}.

(** [process.env.TRADING_SYMBOLS || DEFAULT_TRADING_SYMBOLS], split and
    trimmed. *)
Definition tradingSymbols (envTradingSymbols : option string) : list string :=
  let tradingSymbolsStr :=
    match envTradingSymbols with
    | Some s => if Num.truthyStr s then s else DEFAULT_TRADING_SYMBOLS
    | None => DEFAULT_TRADING_SYMBOLS
    end in
  trim <$> split "," tradingSymbolsStr.

(** The body of the per-symbol callback: one assignment to
    [prices[symbol]]. *)
Definition fetchPrice (ex : Exchange) (priceCache : option PriceCache)
    (acc : gmap string Qc) (symbol : string) : gmap string Qc :=
  match getFuturesTicker ex (normalizeContract ex symbol) with
  | Some last => <[symbol := last]> acc
  | None =>
      match priceCache with
      | Some cache =>
          match prices cache !! symbol with
          | Some old => if Num.truthy old then <[symbol := old]> acc
                        else <[symbol := 0%Qc]> acc
          | None => <[symbol := 0%Qc]> acc
          end
      | None => <[symbol := 0%Qc]> acc
      end
  end.

(** The handler of [GET /api/prices], entered at clock [now]; a fetch of
    all symbols takes [elapsed] ms.  The result is the [prices] object of
    the JSON body and the new [priceCache].  The request is an argument
    of the handler; the handler does not read it. *)
Definition getPrices (envTradingSymbols : option string) (ex : Exchange)
    (req : Request) (now elapsed : Z) (priceCache : option PriceCache)
    : gmap string Qc * option PriceCache :=
  let symbols := tradingSymbols envTradingSymbols in
  let hit :=
    match priceCache with
    | Some cache =>
        if decide (now - timestamp cache < PRICE_CACHE_TTL)
        then Some (prices cache) else None
    | None => None
    end in
  match hit with
  | Some cached => (cached, priceCache)
  | None =>
      let fetched := foldl (fetchPrice ex priceCache) ∅ symbols in
      (fetched, Some {| prices := fetched; timestamp := now + elapsed |})
  end.

End Api.

(** ** Gate.io client: contracts, retries, quantities and trigger read-back *)

Module GateClient.
Import Exchange Gate.

Local Open Scope Qc_scope.

(** [normalizeContract] and [extractSymbol]. *)
Definition normalizeContract (symbol : string) : string :=
  (symbol +:+ "_USDT")%string.

Definition extractSymbol (contract : string) : string :=
  default EmptyString (head (Api.split "_" contract)).

(** What the [catch] of the retry loops sees of an error: [error.status]
    and [error.response.status]. *)
Record ApiError := {
  status : option Z;
  responseStatus : option Z
}.

#[global] Instance ApiError_eq_dec : EqDecision ApiError.
Proof. solve_decision. Defined.

(** [1000 * Math.pow(2, i)]. *)
Definition backoff (i : nat) : Z := (1000 * 2 ^ Z.of_nat i)%Z.

(** The loop [for (let i = 0; i <= retries; i++)] shared by
    [getFuturesTicker], [getFuturesCandles], [getFuturesAccount] and
    [getPositions], from iteration [i] on with [remaining = retries - i].
    [attempt i] is the outcome of the [try] block in iteration [i]: the
    value returned, or the error caught.  [fatal] is the test that makes
    the [catch] rethrow at once.  The result is what the method returns
    or throws, with the sleeps taken in between. *)
Fixpoint retryLoop {A} (fatal : ApiError → bool) (attempt : nat → ApiError + A)
    (remaining i : nat) : (ApiError + A) * list Z :=
  match attempt i with
  | inr a => (inr a, [])
  | inl error =>
      if fatal error then (inl error, [])
      else
        match remaining with
        | O => (inl error, [])
        | S k =>
            let '(r, sleeps) := retryLoop fatal attempt k (S i) in
            (r, backoff i :: sleeps)
        end
  end.

Definition getFuturesTicker {A} (listFuturesTickers : nat → ApiError + A)
    (retries : nat) : (ApiError + A) * list Z :=
  retryLoop (λ _, false) listFuturesTickers retries 0.

Definition getFuturesCandles {A} (listFuturesCandlesticks : nat → ApiError + A)
    (retries : nat) : (ApiError + A) * list Z :=
  retryLoop (λ _, false) listFuturesCandlesticks retries 0.

Definition getPositions {A} (listPositions : nat → ApiError + A)
    (retries : nat) : (ApiError + A) * list Z :=
  retryLoop (λ _, false) listPositions retries 0.

(** [error?.status === 401 || error?.response?.status === 401]. *)
Definition is401 (error : ApiError) : bool :=
  bool_decide (status error = Some 401%Z)
  || bool_decide (responseStatus error = Some 401%Z).

Definition getFuturesAccount {A} (listFuturesAccounts : nat → ApiError + A)
    (retries : nat) : (ApiError + A) * list Z :=
  retryLoop is401 listFuturesAccounts retries 0.

(** [calculateQuantity], in doubles; [quantoMultiplier] is the answer
    of [getQuantoMultiplier(contract)] (utils/contractUtils is not part
    of the sources at hand). *)
Definition calculateQuantity (quantoMultiplier amountUsdt price leverage : float)
    : float :=
  let quantity := ((amountUsdt * leverage) / (quantoMultiplier * price))%float in
  Js.floor quantity.

(** [calculatePnl]. *)
Definition calculatePnl (quantoMultiplier entryPrice exitPrice quantity : Qc)
    (side : Side) : Qc :=
  let priceChange :=
    match side with
    | long => exitPrice - entryPrice
    | short => entryPrice - exitPrice
    end in
  priceChange * quantity * quantoMultiplier.

(** [getPositionStopLossOrders(contract)]: the pair
    [(stopLossOrder, takeProfitOrder)].  [positions] is the answer of
    [getPositions()] and [listPriceTriggeredOrders] that of the exchange
    for the open trigger orders of the contract: [None] when the call
    throws, [Some None] when [result.body] is missing. *)
Definition classify (side : Side) (slots : option TriggerOrder * option TriggerOrder)
    (order : TriggerOrder) : option TriggerOrder * option TriggerOrder :=
  let rule := triggerRule order in
  match side with
  | long =>
      if decide (rule = 2%Z) then (Some order, snd slots)
      else if decide (rule = 1%Z) then (fst slots, Some order)
      else slots
  | short =>
      if decide (rule = 1%Z) then (Some order, snd slots)
      else if decide (rule = 2%Z) then (fst slots, Some order)
      else slots
  end.

Definition getPositionStopLossOrders (positions : option (list PositionInfo))
    (listPriceTriggeredOrders : string → option (option (list TriggerOrder)))
    (c : string) : option TriggerOrder * option TriggerOrder :=
  match positions with
  | None => (None, None)
  | Some positions =>
      match find (λ p, bool_decide (posContract p = c)) positions with
      | None => (None, None)
      | Some position =>
          let side := if decide (0 < posSize position) then long else short in
          match listPriceTriggeredOrders c with
          | None => (None, None)
          | Some body =>
              let orders := default [] body in
              foldl (classify side) (None, None) orders
          end
      end
  end.

End GateClient.

(** ** Order ids (utils/orderIdExtractor) *)

Module OrderId.

(** The value of an id field that is present: a number or a string.  A
    field that is missing, [undefined] or [null] is [None]. *)
Inductive IdValue := IdNum (n : Z) | IdStr (s : string).

#[global] Instance IdValue_eq_dec : EqDecision IdValue.
Proof. solve_decision. Defined.

Definition truthy (v : IdValue) : bool :=
  match v with
  | IdNum n => bool_decide (n ≠ 0)
  | IdStr s => Num.truthyStr s
  end.

(** [toString()] of an id; numeric ids are integers. *)
Definition toString (v : IdValue) : string :=
  match v with
  | IdNum n => pretty n
  | IdStr s => s
  end.

(** An order object: its five id fields, and [payload] for the rest. *)
Record Order := {
  algoId : option IdValue;
  id : option IdValue;
  orderId : option IdValue;
  order_id : option IdValue;
  clientOrderId : option IdValue;
  payload : string
}.

#[global] Instance Order_eq_dec : EqDecision Order.
Proof. solve_decision. Defined.

(** [a || b]. *)
Definition orElse (a b : option IdValue) : option IdValue :=
  match a with
  | Some v => if truthy v then a else b
  | None => b
  end.

(** [extractOrderId(order)]; a [null] order is [None], and so is the
    result [undefined]. *)
Definition extractOrderId (order : option Order) : option string :=
  match order with
  | None => None
  | Some order =>
      let orderId :=
        orElse (orElse (orElse (orElse (algoId order) (id order)) (orderId order))
                  (order_id order))
          (clientOrderId order) in
      toString <$> orderId
  end.

(** [extractOrderIds(orders)]. *)
Definition extractOrderIds (orders : list (option Order)) : list string :=
  filter (λ id, id ≠ EmptyString) (omap extractOrderId orders).

(** [createOrderIdMap(orders)]. *)
Definition createOrderIdMap (orders : list (option Order)) : gmap string Order :=
  foldl (λ map order,
           match extractOrderId order, order with
           | Some orderId, Some o =>
               if Num.truthyStr orderId then <[orderId := o]> map else map
           | _, _ => map
           end)
        ∅ orders.

End OrderId.

(** ** Email alerts (EmailAlertService) *)

Module Email.
Import Exchange.

Definition levelName (level : Resolver.AlertLevel) : string :=
  match level with
  | Resolver.INFO => "INFO"
  | Resolver.WARNING => "WARNING"
  | Resolver.ERROR => "ERROR"
  | Resolver.CRITICAL => "CRITICAL"
  end.

(** The fields of the service that [sendAlert] reads and writes;
    [enabled] stands for [this.enabled && this.transporter]. *)
Record Service := {
  enabled : bool;
  lastAlertTime : gmap string Z
}.

Definition alertCooldown : Z := 5 * 60 * 1000.

(** [`${alert.level}-${alert.title}`]. *)
Definition alertKey (level : Resolver.AlertLevel) (title : string) : string :=
  (levelName level +:+ "-" +:+ title)%string.

(** [sendAlert(alert)] entered at clock [now] and awaited; [sendMail]
    tells whether [transporter.sendMail] resolves.  The result is the
    boolean returned. *)
Definition sendAlert (sendMail : bool) (level : Resolver.AlertLevel)
    (title : string) (now : Z) (s : Service) : bool * Service :=
  if negb (enabled s) then (false, s)
  else
    let key := alertKey level title in
    let lastTime := default 0 (lastAlertTime s !! key) in
    if decide (now - lastTime < alertCooldown) then (false, s)
    else if sendMail then
      (true, {| enabled := enabled s;
                lastAlertTime := <[key := now]> (lastAlertTime s) |})
    else (false, s).

(** The fields of [TradeNotification] that decide the title and the
    level of the mail. *)
Record TradeNotification := {
  type : Resolver.TradeType;
  symbol : string;
  side : Side;
  pnl : option Qc
}.

Definition tradeTitle (trade : TradeNotification) : string :=
  let direction :=
    match side trade with
    | long => "做多"
    | short => "做空"
    end%string in
  match type trade with
  | Resolver.open => ("开仓提醒: " +:+ symbol trade +:+ " " +:+ direction)%string
  | Resolver.close => ("平仓提醒: " +:+ symbol trade +:+ " " +:+ direction)%string
  end.

Definition tradeLevel (trade : TradeNotification) : Resolver.AlertLevel :=
  match type trade, pnl trade with
  | Resolver.close, Some pnl =>
      if decide (pnl < Num.ofZ (-100))%Qc then Resolver.ERROR
      else if decide (pnl < 0)%Qc then Resolver.WARNING
      else Resolver.INFO
  | _, _ => Resolver.INFO
  end.

(** [sendTradeNotification(trade)]. *)
Definition sendTradeNotification (sendMail : bool) (trade : TradeNotification)
    (now : Z) (s : Service) : bool * Service :=
  sendAlert sendMail (tradeLevel trade) (tradeTitle trade) now s.

End Email.

(** ** HTTP read API: GET /api/stats and GET /api/completed-trades *)

Module Routes.
Import Exchange Resolver.

Local Open Scope Qc_scope.

(** [WHERE type = 'close' AND pnl IS NOT NULL]: the pnl values. *)
Definition closedPnls (st : Store) : list Qc :=
  omap (λ r, if decide (tradeType r = close) then tradePnl r else None) (trades st).

(** [SUM], [MAX] and [MIN] of SQL: [None] is [NULL], the value over no
    row. *)
Definition sqlSum (xs : list Qc) : option Qc :=
  match xs with
  | [] => None
  | x :: rest => Some (foldl Qcplus x rest)
  end.

Definition sqlMax (xs : list Qc) : option Qc :=
  match xs with
  | [] => None
  | x :: rest => Some (foldl (λ best y, if decide (best < y) then y else best) x rest)
  end.

Definition sqlMin (xs : list Qc) : option Qc :=
  match xs with
  | [] => None
  | x :: rest => Some (foldl (λ best y, if decide (y < best) then y else best) x rest)
  end.

(** [value || 0]. *)
Definition orZero (x : option Qc) : Qc :=
  match x with
  | Some v => if Num.truthy v then v else 0
  | None => 0
  end.

Record Stats := {
  totalTrades : nat;
  winTrades : nat;
  lossTrades : Z;
  winRate : Qc;
  totalPnl : Qc;
  maxWin : Qc;
  maxLoss : Qc
}.

(** The handler of [GET /api/stats], its five queries answered from the
    same tables. *)
Definition getStats (st : Store) : Stats :=
  let pnls := closedPnls st in
  let totalTrades := length pnls in
  let winTrades := length (filter (λ pnl, 0 < pnl) pnls) in
  {| totalTrades := totalTrades;
     winTrades := winTrades;
     lossTrades := (Z.of_nat totalTrades - Z.of_nat winTrades)%Z;
     winRate :=
       if decide (0 < totalTrades)%nat
       then Num.ofZ (Z.of_nat winTrades) / Num.ofZ (Z.of_nat totalTrades) * Num.ofZ 100
       else 0;
     totalPnl := orZero (sqlSum pnls);
     maxWin := orZero (sqlMax (filter (λ pnl, 0 < pnl) pnls));
     maxLoss := orZero (sqlMin (filter (λ pnl, pnl < 0) pnls)) |}.

(** [GET /api/completed-trades], the outer query: [SELECT t.*,
    pce.close_reason FROM trades t LEFT JOIN position_close_events pce
    ON t.order_id = pce.order_id WHERE t.type = 'close' ORDER BY
    t.timestamp DESC LIMIT ?].  A close row comes once for each close
    event with its order id, and once without a reason when there is
    none; a negative limit is no limit. *)
Definition joinCloseEvents (st : Store) (t : TradeRow)
    : list (TradeRow * option string) :=
  match filter (λ e, eventOrderId e = tradeOrderId t) (position_close_events st) with
  | [] => [(t, None)]
  | events => (λ e, (t, Some (eventCloseReason e))) <$> events
  end.

Definition joinedCloseRows (st : Store) : list (TradeRow * option string) :=
  filter (λ t, tradeType t = close) (trades st) ≫= joinCloseEvents st.

Definition newerFirst (a b : TradeRow * option string) : Prop :=
  (tradeTimestamp (fst b) ≤ tradeTimestamp (fst a))%Z.

#[global] Instance newerFirst_dec : RelDecision newerFirst.
Proof. intros a b. unfold newerFirst. apply _. Defined.

Definition limitRows {A} (limit : Z) (rows : list A) : list A :=
  if decide (limit < 0)%Z then rows else take (Z.to_nat limit) rows.

Definition closeRows (limit : Z) (st : Store) : list (TradeRow * option string) :=
  limitRows limit (merge_sort newerFirst (joinedCloseRows st)).

(** The inner query, the open row paired with a close row:
    [SELECT * FROM trades WHERE symbol = ? AND side = ? AND type = 'open'
    AND timestamp < ? ORDER BY timestamp DESC LIMIT 1]. *)
Definition openBefore (closeRow : TradeRow) (st : Store) : option TradeRow :=
  foldl (λ best r,
           if decide (tradeSymbol r = tradeSymbol closeRow
                      ∧ tradeSide r = tradeSide closeRow
                      ∧ tradeType r = open
                      ∧ (tradeTimestamp r < tradeTimestamp closeRow)%Z)
           then match best with
                | None => Some r
                | Some b =>
                    if decide (tradeTimestamp b < tradeTimestamp r)%Z
                    then Some r else Some b
                end
           else best)
        None (trades st).

(** The friendly holding time: [`${hours}时${minutes}分`] or
    [`${minutes}分`]. *)
Definition holdingHours (holdingTimeMs : Z) : Z :=
  (holdingTimeMs `div` (1000 * 60 * 60))%Z.

Definition holdingMinutes (holdingTimeMs : Z) : Z :=
  ((holdingTimeMs `rem` (1000 * 60 * 60)) `div` (1000 * 60))%Z.

Definition holdingTime (holdingTimeMs : Z) : string :=
  let hours := holdingHours holdingTimeMs in
  let minutes := holdingMinutes holdingTimeMs in
  if decide (hours > 0)%Z
  then (pretty hours +:+ "时" +:+ pretty minutes +:+ "分")%string
  else (pretty minutes +:+ "分")%string.

(** A completed trade: the fields copied from the close row that tell
    the trades apart, and the fields that are computed. *)
Record CompletedTrade := {
  completedSymbol : string;
  completedSide : Side;
  openTime : Z;
  closeTime : Z;
  completedHoldingTimeMs : Z;
  completedHoldingTime : string;
  completedTotalFee : Qc;
  completedPnl : Qc;
  completedCloseReason : option string
}.

(** The body of the loop over the close rows; [None] when the row is
    skipped.  [closeReason] is the [close_reason] column of the row. *)
Definition completedTrade (closeRow : TradeRow) (closeReason : option string)
    (st : Store) : option CompletedTrade :=
  match openBefore closeRow st with
  | None => None
  | Some openRow =>
      let holdingTimeMs := (tradeTimestamp closeRow - tradeTimestamp openRow)%Z in
      Some {| completedSymbol := tradeSymbol closeRow;
              completedSide := tradeSide closeRow;
              openTime := tradeTimestamp openRow;
              closeTime := tradeTimestamp closeRow;
              completedHoldingTimeMs := holdingTimeMs;
              completedHoldingTime := holdingTime holdingTimeMs;
              completedTotalFee := Resolver.tradeFee openRow + Resolver.tradeFee closeRow;
              completedPnl := orZero (tradePnl closeRow);
              completedCloseReason :=
                match closeReason with
                | Some reason => if Num.truthyStr reason then Some reason else None
                | None => None
                end |}
  end.

(** The handler, for [limit] the value of
    [Number.parseInt(c.req.query("limit") || "50")], which is 50 when the
    request names no limit: the completed trades of the rows of the outer
    query, in their order.  The route is modelled for the requests whose
    limit is a whole number. *)
Definition completedTrades (limit : Z) (st : Store) : list CompletedTrade :=
  omap (λ row, completedTrade (fst row) (snd row) st) (closeRows limit st).

#[global] Instance CompletedTrade_eq_dec : EqDecision CompletedTrade.
Proof. solve_decision. Defined.

End Routes.

(** ** Dashboard (public/monitor-script.js): durations *)

Module Dashboard.

Local Open Scope Z_scope.

(** [\d]. *)
Definition isDigit (ch : Ascii.ascii) : bool :=
  let n := Ascii.nat_of_ascii ch in Nat.leb 48 n && Nat.leb n 57.

(** [\d*] at the start of the string: the digits and what follows. *)
Fixpoint digitsPrefix (s : string) : string * string :=
  match s with
  | EmptyString => (EmptyString, EmptyString)
  | String ch rest =>
      if isDigit ch
      then let '(ds, after) := digitsPrefix rest in (String ch ds, after)
      else (EmptyString, s)
  end.

(** [str.match(/(\d+)lit/)]: the capture group of the leftmost match,
    for a literal that does not start with a digit.  The string is its
    UTF-8 bytes; the literals are whole characters. *)
Fixpoint matchDigitsBefore (lit : string) (s : string) : option string :=
  match s with
  | EmptyString => None
  | String ch rest =>
      let '(ds, after) := digitsPrefix s in
      if negb (bool_decide (ds = EmptyString)) && String.prefix lit after
      then Some ds
      else matchDigitsBefore lit rest
  end.

(** [parseInt] on a string of decimal digits. *)
Definition digitValue (ch : Ascii.ascii) : Z := Z.of_nat (Ascii.nat_of_ascii ch) - 48.

Fixpoint parseDigits (acc : Z) (s : string) : Z :=
  match s with
  | EmptyString => acc
  | String ch rest => parseDigits (10 * acc + digitValue ch) rest
  end.

Definition parseInt (s : string) : Z := parseDigits 0 s.

(** [parseDuration(durationStr)]. *)
Definition parseDuration (durationStr : string) : Z :=
  let part lit unit :=
    match matchDigitsBefore lit durationStr with
    | Some ds => parseInt ds * unit
    | None => 0
    end in
  part "天"%string 86400 + part "小时"%string 3600 + part "分"%string 60.

(** [x % y] on numbers: the remainder has the sign of [x]. *)
Definition trunc (x : Qc) : Z :=
  if decide (x < 0)%Qc then - Num.floor (- x) else Num.floor x.

Definition fmod (x y : Qc) : Qc := (x - y * Num.ofZ (trunc (x / y)))%Qc.

(** [formatDuration(seconds)]. *)
Definition formatDuration (seconds : Qc) : string :=
  let hours := Num.floor (seconds / Num.ofZ 3600) in
  let minutes := Num.floor (fmod seconds (Num.ofZ 3600) / Num.ofZ 60) in
  if decide (hours >= 24) then
    let days := hours `div` 24 in
    let remainHours := hours `rem` 24 in
    (pretty days +:+ "天" +:+ pretty remainHours +:+ "小时" +:+ pretty minutes +:+ "分")%string
  else if decide (hours > 0) then
    (pretty hours +:+ "小时" +:+ pretty minutes +:+ "分")%string
  else (pretty minutes +:+ "分")%string.

End Dashboard.

(** ** Compact prompt: the line printed for a position *)

Module Prompt.
Import Exchange.

Local Open Scope Qc_scope.

(** The fields of a position row that the line is computed from;
    [warningScore] and [partial_close_percentage] are [None] when the
    field is missing. *)
Record Position := {
  side : Side;
  leverage : Qc;
  entry_price : Qc;
  current_price : Qc;
  reversalWarning : option Z;
  warningScore : option Qc;
  partial_close_percentage : option Qc
}.

(** [pnl]: the leveraged return in percent. *)
Definition pnl (p : Position) : Qc :=
  if decide (0 < entry_price p)
  then (current_price p - entry_price p) / entry_price p * Num.ofZ 100
       * (match side p with long => 1 | short => - (1) end) * leverage p
  else 0.

(** [pnl >= 0 ? '+' : '']. *)
Definition pnlSign (p : Position) : string :=
  if decide (0 ≤ pnl p) then "+"%string else EmptyString.

(** [x || 0]. *)
Definition orZero (x : option Qc) : Qc :=
  match x with
  | Some v => if Num.truthy v then v else 0
  | None => 0
  end.

(** The warning flag [f]. *)
Definition warningFlag (p : Position) : string :=
  let w := orZero (warningScore p) in
  if bool_decide (reversalWarning p = Some 1%Z) && bool_decide (Num.ofZ 70 ≤ w)
  then "⚠️紧急"%string
  else if decide (Num.ofZ 50 ≤ w) then "⚠️预"%string
  else EmptyString.

(** [stageInfo]. *)
Definition stageInfo (p : Position) : string :=
  let partialClosed := orZero (partial_close_percentage p) in
  if decide (Num.ofZ 66 ≤ partialClosed) then "|S3(已平66%)"%string
  else if decide (Num.ofZ 33 ≤ partialClosed) then "|S2(已平33%)"%string
  else if decide (0 < partialClosed) then "|S1(已平部分)"%string
  else EmptyString.

End Prompt.

(** * Properties *)

(** Closes a decidable closed goal (over [Qc], [gmap], records) by
    evaluation. *)
Ltac by_compute := apply (bool_decide_unpack _); vm_compute; exact I.

(** ** Request coordinator *)

Section RateLimitProps.
Import RateLimit.

Variable cfg : RateLimitConfig.

Lemma ceilSeconds_spec (ms : Z) :
  1000 * (Num.ceilSeconds ms - 1) < ms ≤ 1000 * Num.ceilSeconds ms.
Proof.
  unfold Num.ceilSeconds.
  pose proof (Z.div_mod (- ms) 1000 ltac:(lia)) as Hdm.
  pose proof (Z.mod_pos_bound (- ms) 1000 ltac:(lia)) as Hb.
  lia.
Qed.

(** The deadline a block reason refers to. *)
Definition deadline (w : Window) (s : State) : Z :=
  match w with
  | IpBan => ipBannedUntil s
  | Backoff429 => backoffUntil s
  | CircuitBreaker => circuitBreakerOpenUntil s
  end.

(** A ban deadline that has passed and has not been cleared yet: the next
    admission call clears it together with the other two windows. *)
Definition expiredBanPending (now : Z) (s : State) : Prop :=
  0 < ipBannedUntil s ∧ ipBannedUntil s ≤ now.

(** The penalty windows as the admission check sees them. *)
Definition penaltyActive (now : Z) (s : State) : Prop :=
  now < ipBannedUntil s
  ∨ (¬ expiredBanPending now s
     ∧ (now < backoffUntil s ∨ now < circuitBreakerOpenUntil s)).

Lemma shouldBlockRequest_ring now s :
  requestTimestamps (snd (shouldBlockRequest now s)) = requestTimestamps s
  ∧ lastRequestTime (snd (shouldBlockRequest now s)) = lastRequestTime s.
Proof.
  unfold shouldBlockRequest. repeat case_decide; simpl; auto.
Qed.

Lemma shouldBlockRequest_blocked now s :
  penaltyActive now s →
  ∃ b, shouldBlockRequest now s = (Some b, s)
       ∧ now < deadline (window b) s
       ∧ waitMs b = deadline (window b) s - now
       ∧ remainingSeconds b = Num.ceilSeconds (waitMs b).
Proof.
  unfold penaltyActive, expiredBanPending, shouldBlockRequest.
  intros Hact.
  destruct (decide (ipBannedUntil s > now)) as [Hban|Hban].
  { eexists; split; [reflexivity|simpl; split; [lia|done]]. }
  destruct Hact as [?|[Hpend Hact]]; [lia|].
  rewrite (decide_False (P := ipBannedUntil s > 0 ∧ ipBannedUntil s <= now))
    by lia.
  destruct (decide (backoffUntil s > now)) as [Hb|Hb].
  { eexists; split; [reflexivity|simpl; split; [lia|done]]. }
  destruct (decide (circuitBreakerOpenUntil s > now)) as [Hc|Hc]; [|lia].
  eexists; split; [reflexivity|simpl; split; [lia|done]].
Qed.

Lemma shouldBlockRequest_open now s :
  ¬ penaltyActive now s → fst (shouldBlockRequest now s) = None.
Proof.
  unfold penaltyActive, expiredBanPending, shouldBlockRequest. intros Hn.
  rewrite (decide_False (P := ipBannedUntil s > now)) by lia.
  destruct (decide (ipBannedUntil s > 0 ∧ ipBannedUntil s <= now)) as [Hp|Hp];
    simpl.
  - rewrite !decide_False by lia. done.
  - rewrite !decide_False by lia. done.
Qed.

(** C3 (as amended).  An admission call made while the ban window is
    open, or - with no expired ban waiting to be cleared - while the 429
    back-off or the circuit breaker window is open, throws: the error
    names the exchange and the first open window (ban, back-off, breaker)
    and carries that window's remaining time in whole seconds, rounded
    up.  The call throws before any sleep and before anything is recorded:
    the coordinator state is left as it was. *)
Theorem waitForRateLimit_rejects_in_window (endpoint : string) (now : Z) (s : State) :
  penaltyActive now s →
  ∃ w r,
    waitForRateLimit cfg endpoint now s =
      (Rejected {| errExchange := exchangeName cfg;
                   errWindow := w; errRemainingSeconds := r |}, s)
    ∧ now < deadline w s
    ∧ r = Num.ceilSeconds (deadline w s - now)
    ∧ 1000 * (r - 1) < deadline w s - now ≤ 1000 * r
    ∧ (w = Backoff429 → ipBannedUntil s ≤ now)
    ∧ (w = CircuitBreaker → ipBannedUntil s ≤ now ∧ backoffUntil s ≤ now).
Proof.
  intros Hact.
  destruct (shouldBlockRequest_blocked now s Hact) as (b & Hb & Hlt & Hms & Hsec).
  exists (window b), (remainingSeconds b).
  unfold waitForRateLimit. rewrite Hb.
  rewrite Hsec, Hms.
  split; [done|]. split; [done|]. split; [done|].
  split; [apply ceilSeconds_spec|].
  revert Hb. unfold shouldBlockRequest.
  repeat case_decide; intros [= <-]; simpl; split; intros; try done; lia.
Qed.

(** The coordinator rejects exactly when a window is active in that
    sense. *)
Lemma waitForRateLimit_rejected_iff (endpoint : string) (now : Z) (s : State) :
  (∃ e, fst (waitForRateLimit cfg endpoint now s) = Rejected e)
  ↔ penaltyActive now s.
Proof.
  split.
  - intros [e He]. destruct (decide (penaltyActive now s)) as [|Hn]; [done|].
    apply shouldBlockRequest_open in Hn.
    unfold waitForRateLimit in He.
    destruct (shouldBlockRequest now s) as [[b|] s1]; simpl in *; done.
  - intros Hact.
    destruct (shouldBlockRequest_blocked now s Hact) as (b & Hb & _).
    unfold waitForRateLimit. rewrite Hb. simpl. eauto.
Qed.

(** C5 (as amended).  When no window blocks the call and the ring, after
    eviction, holds at least [maxRequestsPerMinute] entries, the call
    first sleeps exactly until the oldest remaining timestamp is 60 s and
    100 ms old; it then sleeps the spacing remainder
    [minRequestDelay - (now - lastRequestTime)] if that was positive when
    the call was entered; only then is the request recorded. *)
Theorem waitForRateLimit_full_ring_wait (endpoint : string) (now : Z)
    (s : State) (oldest : Z) :
  fst (shouldBlockRequest now s) = None →
  Z.of_nat (length (evict now (requestTimestamps s))) >= maxRequestsPerMinute cfg →
  head (evict now (requestTimestamps s)) = Some oldest →
  let wait := oldest + REQUEST_WINDOW + 100 - now in
  let spacing := spacingWait cfg now s in
  let s' := snd (waitForRateLimit cfg endpoint now s) in
  fst (waitForRateLimit cfg endpoint now s) = Granted (wait :: spacing)
  ∧ 100 < wait
  ∧ now + wait = oldest + 60000 + 100
  ∧ spacing = (if decide (now - lastRequestTime s < minRequestDelay cfg)
               then [minRequestDelay cfg - (now - lastRequestTime s)] else [])
  ∧ requestTimestamps s' =
      evict now (requestTimestamps s) ++ [oldest + 60000 + 100 + sumZ spacing]
  ∧ lastRequestTime s' = oldest + 60000 + 100 + sumZ spacing.
Proof.
  intros Hopen Hfull Hhead wait spacing s'.
  assert (Hin : now - oldest < REQUEST_WINDOW).
  { assert (Hel : oldest ∈ evict now (requestTimestamps s)).
    { destruct (evict now (requestTimestamps s)); simplify_eq/=. left. }
    unfold evict in Hel. apply list_elem_of_filter in Hel. tauto. }
  subst s'. unfold waitForRateLimit.
  destruct (shouldBlockRequest_ring now s) as [Hring Hlast].
  destruct (shouldBlockRequest now s) as [[b|] s1]; simpl in *; [done|].
  rewrite Hring.
  assert (Hlw : limitWait cfg now (evict now (requestTimestamps s)) = [wait]).
  { unfold limitWait. rewrite decide_True by done. rewrite Hhead.
    rewrite decide_True by (unfold REQUEST_WINDOW in *; lia).
    f_equal. subst wait. lia. }
  assert (Hsp : spacingWait cfg now s1 = spacing).
  { subst spacing. unfold spacingWait. by rewrite Hlast. }
  rewrite Hlw, Hsp. simpl.
  unfold REQUEST_WINDOW in *.
  repeat split; try (subst wait; lia).
  f_equal. f_equal. subst wait. lia.
Qed.

(** *** The ring is kept in arrival order *)

(** The timestamps are ascending and none lies after the clock. *)
Definition ringInOrder (now : Z) (s : State) : Prop :=
  StronglySorted Z.le (requestTimestamps s)
  ∧ ∀ t, t ∈ requestTimestamps s → t ≤ now.

Lemma evict_sorted now ts :
  StronglySorted Z.le ts → StronglySorted Z.le (evict now ts).
Proof.
  unfold evict. induction 1 as [|t ts Hs IH Hall]; [constructor|].
  rewrite filter_cons. case_decide; [|done].
  constructor; [done|].
  apply Forall_forall. intros u Hu. apply list_elem_of_filter in Hu as [_ Hu].
  rewrite Forall_forall in Hall. by apply Hall.
Qed.

Lemma sorted_head_least (ts : list Z) (oldest : Z) :
  StronglySorted Z.le ts → head ts = Some oldest → ∀ t, t ∈ ts → oldest ≤ t.
Proof.
  intros Hs Hhead t Ht. destruct ts as [|o rest]; [done|].
  simpl in Hhead. injection Hhead as ->.
  apply StronglySorted_cons in Hs as [Hall _].
  apply elem_of_cons in Ht as [->|Ht]; [lia|].
  rewrite Forall_forall in Hall. by apply Hall.
Qed.

(** The head of the evicted ring is its oldest entry. *)
Lemma evicted_head_is_oldest now s oldest :
  ringInOrder now s →
  head (evict now (requestTimestamps s)) = Some oldest →
  ∀ t, t ∈ evict now (requestTimestamps s) → oldest ≤ t.
Proof.
  intros [Hs _]. apply sorted_head_least. by apply evict_sorted.
Qed.

Lemma sleeps_nonneg now s ts :
  0 ≤ sumZ (limitWait cfg now ts ++ spacingWait cfg now s).
Proof.
  unfold limitWait, spacingWait.
  repeat case_decide; destruct (head ts); repeat case_decide; simpl; lia.
Qed.

(** An admission call entered at a clock value not before the last
    recorded one leaves the ring in order, with the call's own completion
    time as the new bound. *)
Lemma waitForRateLimit_keeps_ring_in_order endpoint now s :
  ringInOrder now s →
  let r := waitForRateLimit cfg endpoint now s in
  match fst r with
  | Rejected _ => ringInOrder now (snd r)
  | Granted sleeps => ringInOrder (now + sumZ sleeps) (snd r)
  end.
Proof.
  intros [Hs Hb] r. subst r. unfold waitForRateLimit.
  destruct (shouldBlockRequest_ring now s) as [Hring _].
  destruct (shouldBlockRequest now s) as [[b|] s1]; simpl in *.
  - unfold ringInOrder. by rewrite Hring.
  - rewrite Hring.
    pose proof (sleeps_nonneg now s1 (evict now (requestTimestamps s))) as Hpos.
    set (total := sumZ _) in *.
    assert (Hle : ∀ t, t ∈ evict now (requestTimestamps s) → t ≤ now + total).
    { intros t Ht. apply list_elem_of_filter in Ht as [_ Ht].
      specialize (Hb t Ht). lia. }
    split.
    + apply StronglySorted_app_2; [|by apply evict_sorted|repeat constructor].
      intros t u Ht Hu. apply list_elem_of_singleton in Hu as ->. by apply Hle.
    + intros t Ht. apply elem_of_app in Ht as [Ht|Ht]; [by apply Hle|].
      apply list_elem_of_singleton in Ht as ->. lia.
Qed.

End RateLimitProps.

(** *** Concrete runs of the coordinator *)

Definition demoConfig : RateLimit.RateLimitConfig := {|
  RateLimit.exchangeName := "gate";
  RateLimit.maxRequestsPerMinute := 3;
  RateLimit.minRequestDelay := 100;
  RateLimit.circuitBreakerThreshold := 5;
  RateLimit.circuitBreakerTimeout := 60000
|}.

(** A clock value of the right magnitude (milliseconds since the epoch). *)
Definition T0 : Z := 1700000000000.

(** The exchange answered 418 with a 240 s ban at [T0]. *)
Definition bannedState : RateLimit.State :=
  RateLimit.handle418Ban demoConfig (Some 240) T0 RateLimit.initial.

Lemma waitForRateLimit_rejects_in_window_witness :
  penaltyActive (T0 + 1000) bannedState
  ∧ ∃ w r,
      RateLimit.waitForRateLimit demoConfig "ticker" (T0 + 1000) bannedState =
        (RateLimit.Rejected
           {| RateLimit.errExchange := "gate";
              RateLimit.errWindow := w; RateLimit.errRemainingSeconds := r |},
         bannedState)
      ∧ T0 + 1000 < deadline w bannedState
      ∧ r = Num.ceilSeconds (deadline w bannedState - (T0 + 1000))
      ∧ 1000 * (r - 1) < deadline w bannedState - (T0 + 1000) ≤ 1000 * r
      ∧ (w = RateLimit.Backoff429 → RateLimit.ipBannedUntil bannedState ≤ T0 + 1000)
      ∧ (w = RateLimit.CircuitBreaker →
         RateLimit.ipBannedUntil bannedState ≤ T0 + 1000
         ∧ RateLimit.backoffUntil bannedState ≤ T0 + 1000).
Proof.
  assert (H : penaltyActive (T0 + 1000) bannedState) by (left; vm_compute; reflexivity).
  split; [exact H|].
  exact (waitForRateLimit_rejects_in_window demoConfig "ticker" (T0 + 1000) bannedState H).
Defined.

Example banned_call_reports_239_seconds :
  RateLimit.waitForRateLimit demoConfig "ticker" (T0 + 1000) bannedState =
    (RateLimit.Rejected
       {| RateLimit.errExchange := "gate"; RateLimit.errWindow := RateLimit.IpBan;
          RateLimit.errRemainingSeconds := 239 |}, bannedState).
Proof. reflexivity. Qed.

(** A one-second ban at [T0], then a 429 half a second later (the answer
    to a request that was already in flight). *)
Definition afterBanAndBackoff : RateLimit.State :=
  RateLimit.handle429Warning (T0 + 500)
    (RateLimit.handle418Ban demoConfig (Some 1) T0 RateLimit.initial).

(** C3, counterexample.  Two seconds after [T0] the back-off window set
    by the 429 is still open for 58.5 s, yet the admission call is not
    rejected: the ban deadline has passed, and clearing it clears the
    back-off and the breaker as well. *)
Lemma expired_ban_opens_backoff_window :
  T0 + 2000 < RateLimit.backoffUntil afterBanAndBackoff
  ∧ T0 + 2000 < RateLimit.circuitBreakerOpenUntil
                  (RateLimit.recordFailure demoConfig (T0 + 1500) afterBanAndBackoff)
  ∧ fst (RateLimit.waitForRateLimit demoConfig "ticker" (T0 + 2000)
           afterBanAndBackoff) = RateLimit.Granted []
  ∧ ¬ (∃ e, fst (RateLimit.waitForRateLimit demoConfig "ticker" (T0 + 2000)
                   (RateLimit.recordFailure demoConfig (T0 + 1500)
                      afterBanAndBackoff)) = RateLimit.Rejected e).
Proof.
  split; [vm_compute; reflexivity|].
  split; [vm_compute; reflexivity|].
  split; [vm_compute; reflexivity|].
  intros [e He]. vm_compute in He. discriminate He.
Qed.

(** Three calls let through 100 ms apart, starting from a fresh manager. *)
Definition afterThreeCalls : RateLimit.State :=
  let call now s := snd (RateLimit.waitForRateLimit demoConfig "ticker" now s) in
  call (T0 + 200) (call (T0 + 100) (call T0 RateLimit.initial)).

Lemma waitForRateLimit_full_ring_wait_witness :
  fst (RateLimit.shouldBlockRequest (T0 + 250) afterThreeCalls) = None
  ∧ Z.of_nat (length (RateLimit.evict (T0 + 250)
                        (RateLimit.requestTimestamps afterThreeCalls)))
    >= RateLimit.maxRequestsPerMinute demoConfig
  ∧ head (RateLimit.evict (T0 + 250)
            (RateLimit.requestTimestamps afterThreeCalls)) = Some T0
  ∧ fst (RateLimit.waitForRateLimit demoConfig "ticker" (T0 + 250) afterThreeCalls)
    = RateLimit.Granted
        ((T0 + RateLimit.REQUEST_WINDOW + 100 - (T0 + 250))
           :: RateLimit.spacingWait demoConfig (T0 + 250) afterThreeCalls).
Proof.
  assert (H1 : fst (RateLimit.shouldBlockRequest (T0 + 250) afterThreeCalls) = None)
    by (vm_compute; reflexivity).
  assert (H2 : Z.of_nat (length (RateLimit.evict (T0 + 250)
                        (RateLimit.requestTimestamps afterThreeCalls)))
               >= RateLimit.maxRequestsPerMinute demoConfig)
    by (vm_compute; discriminate).
  assert (H3 : head (RateLimit.evict (T0 + 250)
            (RateLimit.requestTimestamps afterThreeCalls)) = Some T0)
    by (vm_compute; reflexivity).
  split; [exact H1|]. split; [exact H2|]. split; [exact H3|].
  exact (proj1 (waitForRateLimit_full_ring_wait demoConfig "ticker" (T0 + 250)
                  afterThreeCalls T0 H1 H2 H3)).
Defined.

(** A coordinator limited to two requests per minute, 40 s apart; two
    calls have been let through, at [T0] and at [T0 + 40000]. *)
Definition slowConfig : RateLimit.RateLimitConfig := {|
  RateLimit.exchangeName := "gate";
  RateLimit.maxRequestsPerMinute := 2;
  RateLimit.minRequestDelay := 40000;
  RateLimit.circuitBreakerThreshold := 5;
  RateLimit.circuitBreakerTimeout := 60000
|}.

Definition afterTwoSlowCalls : RateLimit.State :=
  let call now s := snd (RateLimit.waitForRateLimit slowConfig "ticker" now s) in
  call (T0 + 40000) (call T0 RateLimit.initial).

(** C5, counterexample.  The third call arrives at [T0 + 45000] with the
    ring full.  The oldest entry is 60 s and 100 ms old at [T0 + 60100];
    the call sleeps the 15100 ms until then and goes on sleeping for the
    spacing step (the last request was 5 s old when the call was entered,
    the spacing is 40 s): the request is recorded at [T0 + 95100]. *)
Lemma full_ring_wait_exceeds_oldest_plus_slack :
  let r := RateLimit.waitForRateLimit slowConfig "ticker" (T0 + 45000)
             afterTwoSlowCalls in
  RateLimit.requestTimestamps afterTwoSlowCalls = [T0; T0 + 40000]
  ∧ RateLimit.lastRequestTime afterTwoSlowCalls = T0 + 40000
  ∧ fst (RateLimit.shouldBlockRequest (T0 + 45000) afterTwoSlowCalls) = None
  ∧ RateLimit.evict (T0 + 45000) (RateLimit.requestTimestamps afterTwoSlowCalls)
    = [T0; T0 + 40000]
  ∧ fst r = RateLimit.Granted [15100; 35000]
  ∧ RateLimit.sumZ [15100; 35000] ≠ T0 + 60000 + 100 - (T0 + 45000)
  ∧ RateLimit.requestTimestamps (snd r) = [T0; T0 + 40000; T0 + 95100]
  ∧ T0 + 95100 ≠ T0 + 60000 + 100.
Proof.
  repeat split; try (vm_compute; reflexivity); vm_compute; discriminate.
Qed.

(** ** Rational arithmetic used below *)

Section QcFacts.
Local Open Scope Qc_scope.

Lemma Qc_neg_of_pos (x : Qc) : 0 < x → - x < 0.
Proof.
  intros Hx. apply Qclt_minus_iff.
  replace (0 + - - x) with x by ring. exact Hx.
Qed.



Lemma abs_nonneg (x : Qc) : 0 ≤ Num.abs x.
Proof.
  unfold Num.abs. case_decide as Hneg.
  - apply Qclt_le_weak. apply Qclt_minus_iff.
    replace (- x + - 0) with (0 + - x) by ring.
    apply (proj1 (Qclt_minus_iff x 0) Hneg).
  - by apply Qcnot_lt_le.
Qed.



End QcFacts.

(** ** Gate.io client: trigger prices *)

Section TriggerPriceProps.
Import Exchange Gate.
Local Open Scope Qc_scope.



(** The exchange reports a position of non-zero size for the contract. *)
Definition held (api : TriggerApi) (c : string) (position : PositionInfo) : Prop :=
  ∃ positions,
    getPositions api = Some positions
    ∧ find (λ q, bool_decide (posContract q = c)) positions = Some position
    ∧ Num.abs (posSize position) ≠ 0.

(** What the [try] block of a leg comes to: [inl tt] when it throws (no
    usable mark price, or the exchange refuses the order), [inr id]
    otherwise; a leg that is not requested is skipped and leaves its id
    undefined. *)
Definition legResult (api : TriggerApi) (c : string) (position : PositionInfo)
    (leg : Leg) (x : option float) : unit + option string :=
  match requested x with
  | Some v =>
      fst (placeLeg api leg c
             (if decide (0 < posSize position) then long else short)
             (Z.abs (Num.round (posSize position))) v)
  | None => inr None
  end.

Lemma held_unique api c p q : held api c p → held api c q → p = q.
Proof. intros (ps & H1 & H2 & _) (qs & H3 & H4 & _). congruence. Qed.


















End TriggerPriceProps.

(** *** A long position of ten contracts, tick 0.1 *)


Definition btcPosition : Exchange.PositionInfo :=
  {| Exchange.posContract := "BTC_USDT"; Exchange.posSize := Num.ofZ 10 |}.

Definition btcInfo : Gate.ContractInfo := {|
  Gate.orderSizeMin := Num.ofZ 1;
  Gate.orderSizeMax := Num.ofZ 1000000;
  Gate.orderPriceRound := 0.1%float
|}.

(** Every request is answered; created orders get the id "1001". *)
Definition calmApi (mark : PrimFloat.float) : Gate.TriggerApi := {|
  Gate.getPositions := Some [btcPosition];
  Gate.cancelPriceTriggeredOrderList := λ _, Some tt;
  Gate.markPrice := λ _ _, Some mark;
  Gate.getContractInfo := λ _, Some btcInfo;
  Gate.createPriceTriggeredOrder := λ _, Some (Some "1001")
|}.

(** The same position on a contract with another tick. *)
Definition tickApi (mark tick : PrimFloat.float) : Gate.TriggerApi := {|
  Gate.getPositions := Some [btcPosition];
  Gate.cancelPriceTriggeredOrderList := λ _, Some tt;
  Gate.markPrice := λ _ _, Some mark;
  Gate.getContractInfo := λ _,
    Some {| Gate.orderSizeMin := Num.ofZ 1;
            Gate.orderSizeMax := Num.ofZ 1000000;
            Gate.orderPriceRound := tick |};
  Gate.createPriceTriggeredOrder := λ _, Some (Some "1001")
|}.




(** The same requests as runs.  Under a mark of 100 a stop-loss asked at
    99.9 leaves as a trigger at 99.7, one asked at 101 as a trigger at
    99.5. *)
Example stop_loss_too_close_is_moved :
  snd (Gate.setPositionStopLoss (calmApi 100%float) "BTC_USDT"
         (Some 99.9%float) None)
  = [ Gate.CancelTriggers "BTC_USDT";
      Gate.CreateTrigger (Gate.triggerOrder "BTC_USDT" 10 "99.7" 2) ].
Proof. by_compute. Qed.

Example stop_loss_already_triggered_is_moved :
  snd (Gate.setPositionStopLoss (calmApi 100%float) "BTC_USDT"
         (Some 101%float) None)
  = [ Gate.CancelTriggers "BTC_USDT";
      Gate.CreateTrigger (Gate.triggerOrder "BTC_USDT" 10 "99.5" 2) ].
Proof. by_compute. Qed.

(** Printing at tick precision comes after the shift: under a mark of
    100.07 the shifted price 99.56965 is sent as 99.6. *)
Example shifted_price_is_printed_at_tick_size :
  snd (Gate.setPositionStopLoss (calmApi 100.07%float) "BTC_USDT"
         (Some 100.07%float) None)
  = [ Gate.CancelTriggers "BTC_USDT";
      Gate.CreateTrigger (Gate.triggerOrder "BTC_USDT" 10 "99.6" 2) ].
Proof. by_compute. Qed.

(** The shift is computed in doubles.  For a short position under a mark
    of 10 a stop-loss asked at 9.9 is moved to 10 * (1 + 0.005), which is
    10.049999999999999 and not 10.05: divided by the tick 0.1 it rounds
    down, and the trigger is sent at 10.0. *)
Example shifted_price_below_the_tie_rounds_down :
  let short10 := {| Exchange.posContract := "BTC_USDT";
                    Exchange.posSize := Num.ofZ (-10) |} in
  let api := {| Gate.getPositions := Some [short10];
                Gate.cancelPriceTriggeredOrderList := λ _, Some tt;
                Gate.markPrice := λ _ _, Some 10%float;
                Gate.getContractInfo := λ _, Some btcInfo;
                Gate.createPriceTriggeredOrder := λ _, Some (Some "1001") |} in
  Js.toString (10 * (1 + 0.005))%float = "10.049999999999999"%string
  ∧ snd (Gate.setPositionStopLoss api "BTC_USDT" (Some 9.9%float) None)
    = [ Gate.CancelTriggers "BTC_USDT";
        Gate.CreateTrigger (Gate.triggerOrder "BTC_USDT" 10 "10.0" 1) ].
Proof. split; by_compute. Qed.

(** [formatPriceByTickSize] on its own.  The number of decimals is read
    off [tickSize.toString()]: a tick of 0.0000001 prints as 1e-7, which
    has no point, so the price is printed without decimals.  A price
    half-way between two ticks in decimal need not be so as a double:
    1.005 lies below the middle and goes down. *)
Example formatPriceByTickSize_prints :
  Gate.formatPriceByTickSize (tickApi 100 0.1) "BTC_USDT" 99.7997%float
  = "99.8"%string
  ∧ Js.toString 0.0000001%float = "1e-7"%string
  ∧ Gate.tickDecimals 0.0000001%float = 0%nat
  ∧ Gate.formatPriceByTickSize (tickApi 100 0.0000001) "PEPE_USDT" 0.0000123%float
    = "0"%string
  ∧ Gate.formatPriceByTickSize (tickApi 100 0.01) "BTC_USDT" 1.005%float
    = "1.00"%string
  ∧ Gate.formatPriceByTickSize
      {| Gate.getPositions := None;
         Gate.cancelPriceTriggeredOrderList := λ _, None;
         Gate.markPrice := λ _ _, None;
         Gate.getContractInfo := λ _, None;
         Gate.createPriceTriggeredOrder := λ _, None |} "BTC_USDT" 99.7997%float
    = "99.80"%string.
Proof. repeat split; by_compute. Qed.

(** ** Gate.io client: the result of setPositionStopLoss *)

Section StopLossResultProps.
Import Exchange Gate.
Local Open Scope Qc_scope.

(** C10 (as amended).  Without a held position (none listed, size zero,
    or the position query failing) the call returns [success = false].
    With a held position: if the stop-loss order is created with a
    non-empty id and the take-profit leg fails, the result is
    [success = true] with that stop-loss id and no take-profit id; and
    [success = false] is returned exactly when the stop-loss leg fails, or
    the take-profit leg fails while no stop-loss id is at hand (no
    stop-loss was requested, or its creation returned no id). *)
Theorem setPositionStopLoss_success
    (api : TriggerApi) (c : string) (stopLoss takeProfit : option float) :
  let r := fst (setPositionStopLoss api c stopLoss takeProfit) in
  ((¬ ∃ position, held api c position) → success r = false)
  ∧ ∀ position, held api c position →
      (∀ id, legResult api c position StopLossLeg stopLoss = inr (Some id) →
             id ≠ ""%string →
             legResult api c position TakeProfitLeg takeProfit = inl tt →
             r = {| success := true; stopLossOrderId := Some id;
                    takeProfitOrderId := None; message := MsgStopLossOnly |})
      ∧ (success r = false ↔
           legResult api c position StopLossLeg stopLoss = inl tt
           ∨ (legResult api c position TakeProfitLeg takeProfit = inl tt
              ∧ ∃ slId, legResult api c position StopLossLeg stopLoss = inr slId
                        ∧ truthyId slId = false)).
Proof.
  intros r. subst r. split.
  - intros Hnone. unfold setPositionStopLoss.
    destruct (getPositions api) as [positions|] eqn:Hpos; [|done].
    destruct (find _ positions) as [position|] eqn:Hfind; [|done].
    case_decide as Hsize; [done|].
    exfalso. apply Hnone. exists position, positions. done.
  - intros position (positions & Hpos & Hfind & Hsize).
    unfold setPositionStopLoss, legResult.
    rewrite Hpos, Hfind.
    rewrite (decide_False (P := Num.abs (posSize position) = 0)) by done.
    set (side := if decide (0 < posSize position) then long else short).
    set (closeSize := Z.abs (Num.round (posSize position))).
    destruct (requested stopLoss) as [v|];
      [destruct (placeLeg api StopLossLeg c side closeSize v) as [[[]|slId] slCalls]|];
      (destruct (requested takeProfit) as [t|];
       [destruct (placeLeg api TakeProfitLeg c side closeSize t) as [[[]|tpId] tpCalls]|]);
      simpl.
    all: try destruct (truthyId slId) eqn:Hid; simpl.
    all: split;
      [ intros id Hsl Hne Htp; simplify_eq/=; try done;
        try (unfold truthyId, Num.truthyStr in Hid;
             rewrite bool_decide_eq_false in Hid; by destruct Hid)
      | split;
        [ intros Hs; simplify_eq/=; eauto
        | intros [Hl|[Hl (? & Hr & Ht)]]; simplify_eq/=; congruence ] ].
Qed.

End StopLossResultProps.

(** The exchange accepts the stop-loss order and refuses the
    take-profit order (rule 1 for a long position). *)
Definition stopLossOnlyApi : Gate.TriggerApi := {|
  Gate.getPositions := Some [btcPosition];
  Gate.cancelPriceTriggeredOrderList := λ _, Some tt;
  Gate.markPrice := λ _ _, Some 100%float;
  Gate.getContractInfo := λ _, Some btcInfo;
  Gate.createPriceTriggeredOrder :=
    λ o, if decide (Gate.triggerRule o = 2) then Some (Some "1001") else None
|}.

Lemma btcPosition_held : held stopLossOnlyApi "BTC_USDT" btcPosition.
Proof. exists [btcPosition]. repeat split. by_compute. Qed.

Lemma setPositionStopLoss_success_witness :
  held stopLossOnlyApi "BTC_USDT" btcPosition
  ∧ legResult stopLossOnlyApi "BTC_USDT" btcPosition Gate.StopLossLeg
      (Some 95%float) = inr (Some "1001")
  ∧ legResult stopLossOnlyApi "BTC_USDT" btcPosition Gate.TakeProfitLeg
      (Some 110%float) = inl tt
  ∧ fst (Gate.setPositionStopLoss stopLossOnlyApi "BTC_USDT"
           (Some 95%float) (Some 110%float))
    = {| Gate.success := true; Gate.stopLossOrderId := Some "1001";
         Gate.takeProfitOrderId := None;
         Gate.message := Gate.MsgStopLossOnly |}.
Proof.
  assert (H1 := btcPosition_held).
  assert (H2 : legResult stopLossOnlyApi "BTC_USDT" btcPosition Gate.StopLossLeg
      (Some 95%float) = inr (Some "1001")) by by_compute.
  assert (H3 : legResult stopLossOnlyApi "BTC_USDT" btcPosition Gate.TakeProfitLeg
      (Some 110%float) = inl tt) by by_compute.
  split; [exact H1|]. split; [exact H2|]. split; [exact H3|].
  refine (proj1 (proj2 (setPositionStopLoss_success stopLossOnlyApi "BTC_USDT"
                  (Some 95%float) (Some 110%float)) btcPosition H1)
            "1001" H2 _ H3).
  discriminate.
Defined.

(** C10, counterexample.  Only a take-profit is asked for and the
    exchange refuses it.  The position exists and no stop-loss creation
    failed (none was attempted: the only order sent is the take-profit
    order), yet the call returns [success = false]. *)
Lemma take_profit_only_failure_is_reported :
  let run := Gate.setPositionStopLoss stopLossOnlyApi "BTC_USDT" None
               (Some 110%float) in
  held stopLossOnlyApi "BTC_USDT" btcPosition
  ∧ legResult stopLossOnlyApi "BTC_USDT" btcPosition Gate.StopLossLeg None
    = inr None
  ∧ snd run = [ Gate.CancelTriggers "BTC_USDT";
                Gate.CreateTrigger
                  (Gate.triggerOrder "BTC_USDT" 10 "110.0" 1) ]
  ∧ fst run = {| Gate.success := false; Gate.stopLossOrderId := None;
                 Gate.takeProfitOrderId := None;
                 Gate.message := Gate.MsgTakeProfitFailed |}.
Proof.
  split; [exact btcPosition_held|].
  split; [reflexivity|].
  split; by_compute.
Qed.

(** ** Gate.io client: order size *)

Section OrderSizeProps.
Import Gate.
Local Open Scope Qc_scope.

(** The order that reached [createFuturesOrder], if any. *)
Definition submitted (r : PlaceResult) : option FuturesOrder :=
  match r with
  | Placed o _ => Some o
  | ErrInsufficient o => Some o
  | ErrOrderFailed o => o
  end.

(** The upper bound [placeOrder] enforces: the contract's maximum, but
    never more than [API_MAX_SIZE]. *)
Definition sizeCap (info : ContractInfo) : Qc :=
  if Num.truthy (orderSizeMax info)
  then Num.min (orderSizeMax info) API_MAX_SIZE
  else API_MAX_SIZE.

(** [v] with the direction of [size]. *)
Definition withSignOf (size v : Qc) : Qc :=
  if decide (0 < size) then v else - v.

Lemma placeOrder_submitted_size api params info o :
  orderContractInfo api (contract params) = Some info →
  submitted (placeOrder api params) = Some o →
  orderSize o = adjustSize info (size params).
Proof.
  intros Hinfo. unfold placeOrder. rewrite Hinfo.
  destruct (price params) as [p|]; simpl.
  - destruct (Num.truthy p && bool_decide (0 < p));
      [destruct (orderMarkPrice api (contract params)); simpl; [|done]|];
      (match goal with |- context [createFuturesOrder api ?x] =>
         destruct (createFuturesOrder api x) end);
      simpl; by intros [= <-].
  - match goal with |- context [createFuturesOrder api ?x] =>
      destruct (createFuturesOrder api x) end;
      simpl; by intros [= <-].
Qed.

Lemma adjustSize_cases info size :
  let a := Num.abs size in
  (sizeCap info < a → adjustSize info size = withSignOf size (sizeCap info))
  ∧ (¬ sizeCap info < a → a < orderSizeMin info →
     adjustSize info size = withSignOf size (orderSizeMin info))
  ∧ (¬ sizeCap info < a → ¬ a < orderSizeMin info → adjustSize info size = size).
Proof.
  intros a. subst a. unfold adjustSize, withSignOf. fold (sizeCap info).
  split; [|split].
  - intros Hcap. by rewrite (decide_True (P := sizeCap info < Num.abs size)).
  - intros Hcap Hmin.
    rewrite (decide_False (P := sizeCap info < Num.abs size)) by done.
    assert (Hpos : 0 < orderSizeMin info)
      by (eapply Qcle_lt_trans; [apply abs_nonneg|done]).
    unfold Num.truthy. rewrite bool_decide_eq_true_2.
    + by rewrite bool_decide_eq_true_2.
    + intros Heq. rewrite Heq in Hpos. by apply Qclt_not_eq in Hpos.
  - intros Hcap Hmin.
    rewrite (decide_False (P := sizeCap info < Num.abs size)) by done.
    rewrite (bool_decide_eq_false_2 (Num.abs size < orderSizeMin info)) by done.
    by rewrite andb_false_r.
Qed.

Lemma withSignOf_sign size v :
  0 < v →
  (0 < size → 0 < withSignOf size v) ∧ (size < 0 → withSignOf size v < 0).
Proof.
  intros Hv. unfold withSignOf. split; intros Hs.
  - by rewrite decide_True.
  - rewrite decide_False; [by apply Qc_neg_of_pos|].
    intros Hpos. apply (Qclt_not_le _ _ Hs). by apply Qclt_le_weak.
Qed.

(** C7 (as amended).  For an order of non-zero size that [placeOrder]
    submits: with [cap] the smaller of the contract's [orderSizeMax] and
    the client's own limit of 10,000,000 (that limit alone when the
    contract has no maximum), an absolute size above [cap] is sent as
    [cap], an absolute size below [orderSizeMin] (and not above [cap]) is
    sent as [orderSizeMin], any other size is sent unchanged; the sent
    size has the direction of the requested one.  When the contract's
    maximum is set and does not exceed 10,000,000, [cap] is
    [orderSizeMax]. *)
Theorem placeOrder_clamps_size
    (api : OrderApi) (params : OrderParams) (info : ContractInfo)
    (o : FuturesOrder) :
  orderContractInfo api (contract params) = Some info →
  submitted (placeOrder api params) = Some o →
  size params ≠ 0 →
  let a := Num.abs (size params) in
  let cap := sizeCap info in
  (cap < a → orderSize o = withSignOf (size params) cap)
  ∧ (¬ cap < a → a < orderSizeMin info →
     orderSize o = withSignOf (size params) (orderSizeMin info))
  ∧ (¬ cap < a → ¬ a < orderSizeMin info → orderSize o = size params)
  ∧ (0 < cap →
     (0 < size params → 0 < orderSize o) ∧ (size params < 0 → orderSize o < 0))
  ∧ (orderSizeMax info ≠ 0 → orderSizeMax info ≤ API_MAX_SIZE →
     cap = orderSizeMax info).
Proof.
  intros Hinfo Hsub Hnz a cap.
  rewrite (placeOrder_submitted_size _ _ _ _ Hinfo Hsub).
  destruct (adjustSize_cases info (size params)) as (Hc1 & Hc2 & Hc3).
  fold a cap in Hc1, Hc2, Hc3.
  split; [done|]. split; [done|]. split; [done|]. split.
  - intros Hcap.
    destruct (decide (cap < a)) as [Hover|Hover].
    { rewrite Hc1 by done. by apply withSignOf_sign. }
    destruct (decide (a < orderSizeMin info)) as [Hunder|Hunder].
    { rewrite Hc2 by done. apply withSignOf_sign.
      eapply Qcle_lt_trans; [apply abs_nonneg|done]. }
    rewrite Hc3 by done. done.
  - intros Hmax Hle. subst cap. unfold sizeCap, Num.truthy, Num.min.
    rewrite bool_decide_eq_true_2 by done.
    case_decide as Hlt; [done|].
    apply Qcnot_lt_le in Hlt. by apply Qcle_antisym.
Qed.

End OrderSizeProps.

(** *** A contract whose maximum exceeds the client's limit *)

Definition wideInfo : Gate.ContractInfo := {|
  Gate.orderSizeMin := Num.ofZ 1;
  Gate.orderSizeMax := Num.ofZ 20000000;
  Gate.orderPriceRound := 0.0000001%float
|}.

Definition acceptingApi (info : Gate.ContractInfo) : Gate.OrderApi := {|
  Gate.orderContractInfo := λ _, Some info;
  Gate.orderMarkPrice := λ _, Some (Num.ofZ 100);
  Gate.createFuturesOrder := λ _, Gate.Created "7001"
|}.

Definition marketOrder (size : Qc) : Gate.OrderParams := {|
  Gate.contract := "PEPE_USDT";
  Gate.size := size;
  Gate.price := None;
  Gate.tif := None;
  Gate.reduceOnly := None
|}.

(** C7, counterexample.  The contract allows 20,000,000 contracts per
    order; 30,000,000 are requested; 10,000,000 are sent. *)
Lemma size_above_orderSizeMax_is_not_sent_as_orderSizeMax :
  let r := Gate.placeOrder (acceptingApi wideInfo) (marketOrder (Num.ofZ 30000000)) in
  (Gate.orderSizeMax wideInfo < Num.abs (Num.ofZ 30000000))%Qc
  ∧ (∃ o, r = Gate.Placed o "7001" ∧ Gate.orderSize o = Num.ofZ 10000000)
  ∧ Num.ofZ 10000000 ≠ Gate.orderSizeMax wideInfo.
Proof.
  split; [reflexivity|]. split; [|by_compute].
  eexists. split; [reflexivity|by_compute].
Qed.

Lemma placeOrder_clamps_size_witness :
  let api := acceptingApi btcInfo in
  let params := marketOrder (Num.ofZ (-2000000)) in
  let o := {| Gate.orderContract := "PEPE_USDT";
              Gate.orderSize := Num.ofZ (-1000000);
              Gate.orderPrice := 0%Qc; Gate.orderTif := "ioc";
              Gate.isReduceOnly := false |} in
  Gate.orderContractInfo api (Gate.contract params) = Some btcInfo
  ∧ submitted (Gate.placeOrder api params) = Some o
  ∧ Gate.size params ≠ 0%Qc
  ∧ sizeCap btcInfo = Gate.orderSizeMax btcInfo
  ∧ (Gate.orderSize o < 0)%Qc.
Proof.
  intros api params o.
  assert (H1 : Gate.orderContractInfo api (Gate.contract params) = Some btcInfo)
    by reflexivity.
  assert (H2 : submitted (Gate.placeOrder api params) = Some o) by by_compute.
  assert (H3 : Gate.size params ≠ 0%Qc) by by_compute.
  split; [exact H1|]. split; [exact H2|]. split; [exact H3|].
  pose proof (placeOrder_clamps_size api params btcInfo o H1 H2 H3)
    as (_ & _ & _ & Hsign & Hcap).
  split.
  - apply Hcap; by_compute.
  - apply Hsign; reflexivity.
Defined.

(** ** FeeService *)

Section FeeProps.
Import Fee.
Local Open Scope Qc_scope.

Variable cl : Client.

(** The rate [estimateFee] reads from the table. *)
Definition configuredRate (isMaker : bool) : Qc :=
  let feeConfig :=
    FEE_RATES cl (getExchangeName cl) (if isTestnet cl then testnet else mainnet) in
  if isMaker then maker feeConfig else taker feeConfig.

(** The cache holds no entry for the order that is younger than the TTL. *)
Definition noFreshEntry (orderId : string) (now : Z)
    (feeCache : gmap string CacheEntry) : Prop :=
  ∀ e, feeCache !! orderId = Some e → ¬ (now - timestamp e < CACHE_TTL)%Z.

(** [startTime || Date.now() - 24h]. *)
Definition queryStart (startTime : option Z) (now : Z) : Z :=
  match startTime with
  | Some t => if decide (t = 0%Z) then (now - 24 * 60 * 60 * 1000)%Z else t
  | None => (now - 24 * 60 * 60 * 1000)%Z
  end.

Lemma estimateFee_spec notionalValue isMaker :
  estimateFee cl notionalValue isMaker =
    {| fee := Num.abs (notionalValue * configuredRate isMaker);
       source := estimated; rate := Some (configuredRate isMaker) |}.
Proof. reflexivity. Qed.

Lemma abs_of_nonneg (x : Qc) : 0 ≤ x → Num.abs x = x.
Proof.
  intros Hx. unfold Num.abs. rewrite decide_False; [done|].
  by apply Qcle_not_lt.
Qed.

(** C9.  When the lookup made by [getFee] for a non-empty order id finds
    matching fills whose absolute fees sum to zero, the result is the
    estimate: source [estimated], fee [|notional * rate|] for the
    configured maker or taker rate of the venue and network, which is
    [notional * rate] when that product is not negative.  And whatever the
    inputs, a result with source [actual] has a strictly positive fee. *)
Theorem getFee_zero_actual_fee_is_estimated
    (orderId contract : string) (notionalValue : Qc) (isMaker : bool)
    (startTime : option Z) (now : Z) (feeCache : gmap string CacheEntry) :
  (∀ trades,
     orderId ≠ ""%string →
     noFreshEntry orderId now feeCache →
     getMyTrades cl contract 100%Z (queryStart startTime now) = Some trades →
     filter (λ t, matches orderId t) trades ≠ [] →
     totalFee (filter (λ t, matches orderId t) trades) = 0 →
     let r := fst (getFee cl (Some orderId) contract notionalValue isMaker
                     startTime now feeCache) in
     r = estimateFee cl notionalValue isMaker
     ∧ source r = estimated
     ∧ rate r = Some (configuredRate isMaker)
     ∧ fee r = Num.abs (notionalValue * configuredRate isMaker)
     ∧ (0 ≤ notionalValue * configuredRate isMaker →
        fee r = notionalValue * configuredRate isMaker))
  ∧ (∀ o, let r := fst (getFee cl o contract notionalValue isMaker
                          startTime now feeCache) in
          source r = actual → 0 < fee r).
Proof.
  split.
  - intros trades Hid Hfresh Htrades Hmatch Hzero r. subst r.
    assert (Hlookup :
      getActualFeeFromTrade cl orderId contract startTime now feeCache =
        (Some {| fee := 0; source := actual; rate := None |},
         <[orderId := {| result := {| fee := 0; source := actual; rate := None |};
                         timestamp := now |}]> feeCache)).
    { unfold getActualFeeFromTrade. fold (queryStart startTime now).
      rewrite Htrades.
      assert (Hlen : length (filter (λ t, matches orderId t) trades) ≠ 0%nat).
      { destruct (filter _ trades); [done|]. simpl. lia. }
      rewrite (decide_False (P := length _ = 0%nat)) by done.
      rewrite Hzero.
      destruct (feeCache !! orderId) as [cached|] eqn:Hc; [|done].
      rewrite decide_False; [done|]. by apply Hfresh. }
    unfold getFee, Num.truthyStr. rewrite bool_decide_eq_true_2 by done.
    rewrite Hlookup. simpl.
    rewrite estimateFee_spec. simpl.
    repeat split. apply abs_of_nonneg.
  - intros o r. subst r. unfold getFee.
    set (attempt := match o with
                    | Some o0 => if Num.truthyStr o0
                                 then getActualFeeFromTrade cl o0 contract startTime
                                        now feeCache
                                 else (None, feeCache)
                    | None => (None, feeCache)
                    end).
    destruct attempt as [[actualFee|] cache] eqn:Ha; simpl; [|done].
    case_decide as Hpos; simpl; done.
Qed.

End FeeProps.

(** *** A fill that carries no fee *)

Definition gateRates : Fee.FeeConfig :=
  {| Fee.maker := Num.dec 0.0002; Fee.taker := Num.dec 0.0005 |}.

Definition zeroFeeClient : Fee.Client := {|
  Fee.getExchangeName := "gate";
  Fee.isTestnet := true;
  Fee.getMyTrades := λ _ _ _,
    Some [ {| Fee.tradeId := "t-1"; Fee.tradeOrderId := Some "987654321";
              Fee.tradeFee := 0%Qc |} ];
  Fee.FEE_RATES := λ _ _, gateRates
|}.

Lemma getFee_zero_actual_fee_is_estimated_witness :
  let trades := [ {| Fee.tradeId := "t-1"; Fee.tradeOrderId := Some "987654321";
                     Fee.tradeFee := 0%Qc |} ] in
  (noFreshEntry "987654321" T0 ∅
   ∧ Fee.getMyTrades zeroFeeClient "ETH_USDT" 100 (queryStart None T0) = Some trades
   ∧ filter (λ t, Fee.matches "987654321" t) trades ≠ []
   ∧ Fee.totalFee (filter (λ t, Fee.matches "987654321" t) trades) = 0%Qc)
  ∧ fst (Fee.getFee zeroFeeClient (Some "987654321") "ETH_USDT" (Num.ofZ 1000)
           false None T0 ∅)
    = {| Fee.fee := Num.dec 0.5; Fee.source := Fee.estimated;
         Fee.rate := Some (Num.dec 0.0005) |}.
Proof.
  intros trades.
  assert (H1 : noFreshEntry "987654321" T0 ∅) by (intros e He; done).
  assert (H2 : Fee.getMyTrades zeroFeeClient "ETH_USDT" 100 (queryStart None T0)
               = Some trades) by reflexivity.
  assert (H3 : filter (λ t, Fee.matches "987654321" t) trades ≠ []) by by_compute.
  assert (H4 : Fee.totalFee (filter (λ t, Fee.matches "987654321" t) trades) = 0%Qc)
    by by_compute.
  split; [done|].
  destruct (proj1 (getFee_zero_actual_fee_is_estimated zeroFeeClient "987654321"
                     "ETH_USDT" (Num.ofZ 1000) false None T0 ∅)
              trades ltac:(discriminate) H1 H2 H3 H4) as [-> _].
  by_compute.
Defined.

(** ** Reconciler: failure tracker *)

Section TrackerProps.
Import Resolver.

(** [n] failed repair attempts of the same row, one after the other; the
    alerts are those of the last attempt. *)
Fixpoint failTimes (n : nat) (stateId : Z) (t : Tracker) : Tracker * list Alert :=
  match n with
  | O => (t, [])
  | S m => recordFailure stateId (fst (failTimes m stateId t))
  end.

Lemma failTimes_count n stateId t :
  failedStates t !! stateId = None →
  consecutiveFailures (fst (failTimes n stateId t)) = (consecutiveFailures t + n)%nat
  ∧ default 0%nat (failedStates (fst (failTimes n stateId t)) !! stateId) = n.
Proof.
  intros Hfresh. induction n as [|n [IHc IHf]]; simpl.
  - rewrite Hfresh. split; [lia|done].
  - rewrite IHc, IHf. rewrite lookup_insert_eq. simpl. split; lia.
Qed.

(** On a row without earlier failures the n-th failure in a row raises
    the per-row alert exactly from the fifth on, at level ERROR. *)
Lemma failTimes_alert n stateId t :
  failedStates t !! stateId = None →
  snd (failTimes (S n) stateId t) =
    if decide (5 ≤ S n)%nat
    then [ {| level := ERROR; title := RepairKeepsFailing;
              details := RowDetails stateId (S n) (consecutiveFailures t + S n) |} ]
    else [].
Proof.
  intros Hfresh. simpl.
  destruct (failTimes_count n stateId t Hfresh) as [Hc Hf].
  unfold recordFailure. simpl. rewrite Hc, Hf.
  replace (n + 1)%nat with (S n) by lia.
  case_decide; [|done]. repeat f_equal. lia.
Qed.


End TrackerProps.


(** Ten failures followed by a success before the end of the pass: the
    run is over when the check is made, and no CRITICAL alert is
    raised. *)
Example success_ends_the_run_before_the_check :
  Resolver.checkOverallFailures
    (Resolver.recordSuccess 8 (fst (failTimes 10 7 Resolver.newTracker))) = []
  ∧ ∃ a, Resolver.checkOverallFailures (fst (failTimes 10 7 Resolver.newTracker)) = [a]
         ∧ Resolver.level a = Resolver.CRITICAL.
Proof. split; [reflexivity|]. eexists. split; reflexivity. Qed.

(** ** Reconciler: the repair transaction *)

Section RepairProps.
Import Exchange Resolver.

Variable fails : nat → bool.
Variable ex : ExchangeClient.
Variable timestamp : Z.

(** The tables after the four writes of the repair. *)
Definition repairedStore (state : InconsistentState) (f : CloseFigures)
    (st : Store) : Store :=
  insertCloseEvent (closeEventRow state f timestamp)
    (insertTrade (closeTradeRow state f timestamp)
       (cancelActivePriceOrders timestamp (symbol state) (side state)
          (deletePosition (symbol state) (side state) st))).

(** The quantity read from a fill: [|size or qty or 0|]. *)
Definition fillQuantity (t : Fill) : Qc :=
  Num.abs (default (default 0%Qc (fillQty t)) (fillSize t)).

Lemma Db_eta (d : Db) : {| store := store d; snapshot := snapshot d |} = d.
Proof. by destruct d. Qed.

(** What is known when the preparation hands over to the transaction. *)
Lemma prepareClose_Some state w fill f w1 :
  prepareClose fails ex state w = (Some (fill, f), w1) →
  db w1 = db w ∧ executed w1 = S (executed w)
  ∧ ∃ fills openTrade grossPnl m,
      getMyTrades ex (normalizeContract ex (symbol state)) 100 = Some fills
      ∧ find (isCloseTrade (exchange_order_id state)) fills = Some fill
      ∧ latestOpenTrade (symbol state) (side state) (store (db w)) = Some openTrade
      ∧ calculatePnl ex (tradePrice openTrade) (fillPrice fill) (fillQuantity fill)
          (side state) (normalizeContract ex (symbol state)) = Some grossPnl
      ∧ match getContractType ex with
        | inverse =>
            getQuantoMultiplier ex (normalizeContract ex (symbol state)) = Some m
        | linear => m = 1%Qc
        end
      ∧ f = closeFigures (getContractType ex) m openTrade fill grossPnl.
Proof.
  unfold prepareClose, select, fillQuantity.
  destruct (getPositions ex) as [ps|]; [|done].
  destruct (positionExists _ ps); [done|].
  destruct (getMyTrades ex _ 100) as [fills|]; [|done].
  destruct (find _ fills) as [closeTrade|] eqn:Hfind; [|done].
  destruct (fails (executed w)); [done|].
  destruct (latestOpenTrade _ _ _) as [openTrade|] eqn:Hopen; [|done].
  destruct (calculatePnl ex _ _ _ _ _) as [grossPnl|] eqn:Hpnl; [|done].
  destruct (getContractType ex) eqn:Htype.
  - destruct (getQuantoMultiplier ex _) as [m|] eqn:Hm; [|done].
    intros [= <- <- <-]. simpl. do 2 (split; [done|]).
    exists fills, openTrade, grossPnl, m. repeat split; done.
  - intros [= <- <- <-]. simpl. do 2 (split; [done|]).
    exists fills, openTrade, grossPnl, 1%Qc. repeat split; done.
Qed.

(** The preparation reads; it writes nothing. *)
Lemma prepareClose_db state w : db (snd (prepareClose fails ex state w)) = db w.
Proof.
  unfold prepareClose, select.
  destruct (getPositions ex) as [ps|]; [|done].
  destruct (positionExists _ ps); [done|].
  destruct (getMyTrades ex _ 100) as [fills|]; [|done].
  destruct (find _ fills) as [closeTrade|]; [|done].
  destruct (fails (executed w)); [done|].
  destruct (latestOpenTrade _ _ _) as [openTrade|]; [|done].
  destruct (calculatePnl ex _ _ _ _ _) as [grossPnl|]; [|done].
  destruct (getContractType ex); [|done].
  by destruct (getQuantoMultiplier ex _).
Qed.

(** The [try] block inside an open transaction: if all five statements
    pass, the four writes are in and the transaction is closed. *)
Lemma executeAll_repair_true state f w2 w3 s0 :
  snapshot (db w2) = Some s0 →
  executeAll fails (repairStatements state f timestamp) w2 = (true, w3) →
  db w3 = {| store := repairedStore state f (store (db w2)); snapshot := None |}
  ∧ executed w3 = (5 + executed w2)%nat
  ∧ ∀ k, (k < 5)%nat → fails (k + executed w2) = false.
Proof.
  intros Hsnap. unfold repairStatements, executeAll, execute. simpl.
  destruct (fails (executed w2)) eqn:F0; simpl; [intros [=]|].
  destruct (fails (S (executed w2))) eqn:F1; simpl; [intros [=]|].
  destruct (fails (S (S (executed w2)))) eqn:F2; simpl; [intros [=]|].
  destruct (fails (S (S (S (executed w2))))) eqn:F3; simpl; [intros [=]|].
  destruct (fails (S (S (S (S (executed w2)))))) eqn:F4; simpl; [intros [=]|].
  rewrite Hsnap. intros [= <-]. simpl. do 2 (split; [done|]).
  intros k Hk.
  destruct k as [|[|[|[|[|k]]]]]; simpl; try done. lia.
Qed.

(** If one of them fails, every earlier write is still inside the open
    transaction: the tables as they were at [BEGIN] are kept. *)
Lemma executeAll_repair_false state f w2 w3 s0 :
  snapshot (db w2) = Some s0 →
  executeAll fails (repairStatements state f timestamp) w2 = (false, w3) →
  snapshot (db w3) = Some s0
  ∧ ∃ k, (k < 5)%nat ∧ executed w3 = (S k + executed w2)%nat
         ∧ fails (k + executed w2) = true.
Proof.
  intros Hsnap. unfold repairStatements, executeAll, execute. simpl.
  destruct (fails (executed w2)) eqn:F0; simpl.
  { intros [= <-]. split; [done|]. exists 0%nat. split; [lia|done]. }
  destruct (fails (S (executed w2))) eqn:F1; simpl.
  { intros [= <-]. split; [done|]. exists 1%nat. split; [lia|done]. }
  destruct (fails (S (S (executed w2)))) eqn:F2; simpl.
  { intros [= <-]. split; [done|]. exists 2%nat. split; [lia|done]. }
  destruct (fails (S (S (S (executed w2))))) eqn:F3; simpl.
  { intros [= <-]. split; [done|]. exists 3%nat. split; [lia|done]. }
  destruct (fails (S (S (S (S (executed w2)))))) eqn:F4; simpl.
  { intros [= <-]. split; [done|]. exists 4%nat. split; [lia|done]. }
  rewrite Hsnap. done.
Qed.

(** A repair that reports success has committed exactly the four writes,
    on a connection that had no transaction open. *)
Lemma resolveClosePosition_true state w w' :
  resolveClosePosition fails ex timestamp state w = (true, w') →
  ∃ fill f w1,
    prepareClose fails ex state w = (Some (fill, f), w1)
    ∧ snapshot (db w) = None
    ∧ db w' = {| store := repairedStore state f (store (db w)); snapshot := None |}
    ∧ executed w' = (6 + executed w1)%nat
    ∧ ∀ k, (k < 6)%nat → fails (k + executed w1) = false.
Proof.
  unfold resolveClosePosition.
  destruct (prepareClose fails ex state w) as [[[fill f]|] w1] eqn:Hprep; [|done].
  destruct (prepareClose_Some _ _ _ _ _ Hprep) as (Hdb & _ & _).
  unfold execute at 1. destruct (fails (executed w1)) eqn:Fb; [done|].
  unfold run. rewrite Hdb.
  destruct (snapshot (db w)) as [open|] eqn:Hsnap; [done|].
  match goal with |- context [executeAll fails _ ?w2] =>
    destruct (executeAll fails (repairStatements state f timestamp) w2)
      as [[|] w3] eqn:Hall; [|done];
    apply (executeAll_repair_true _ _ _ _ (store (db w))) in Hall; [|done]
  end.
  simpl in Hall. destruct Hall as (Hdb3 & Hex3 & Hok).
  intros [= <-]. exists fill, f, w1.
  split; [done|]. split; [done|]. split; [done|]. split; [lia|].
  intros k Hk. destruct k as [|k]; [done|].
  replace (S k + executed w1)%nat with (k + S (executed w1))%nat by lia.
  apply Hok. lia.
Qed.

(** A repair that reports failure has left the database as it was,
    unless the ROLLBACK itself failed: then the transaction is still open
    and nothing of it is committed. *)
Lemma resolveClosePosition_false state w w' :
  snapshot (db w) = None →
  resolveClosePosition fails ex timestamp state w = (false, w') →
  db w' = db w
  ∨ (snapshot (db w') = Some (store (db w))
     ∧ ∃ n, executed w' = S n ∧ fails n = true).
Proof.
  intros Hsnap. unfold resolveClosePosition.
  destruct (prepareClose fails ex state w) as [[[fill f]|] w1] eqn:Hprep.
  - destruct (prepareClose_Some _ _ _ _ _ Hprep) as (Hdb & _ & _).
    unfold execute at 1. destruct (fails (executed w1)) eqn:Fb.
    { intros [= <-]. by left. }
    unfold run. rewrite Hdb, Hsnap.
    match goal with |- context [executeAll fails _ ?w2] =>
      destruct (executeAll fails (repairStatements state f timestamp) w2)
        as [[|] w3] eqn:Hall; [done|];
      apply (executeAll_repair_false _ _ _ _ (store (db w))) in Hall; [|done]
    end.
    destruct Hall as (Hsnap3 & _).
    unfold execute, run. rewrite Hsnap3.
    destruct (fails (executed w3)) eqn:Fr; simpl; intros [= <-]; simpl.
    + right. split; [done|]. by exists (executed w3).
    + left. rewrite <- Hsnap. apply Db_eta.
  - intros [= <-]. left.
    change w1 with (snd (@None (Fill * CloseFigures), w1)).
    rewrite <- Hprep. apply prepareClose_db.
Qed.

End RepairProps.

Section RepairTheorems.
Import Exchange Resolver.

Variable fails : nat → bool.
Variable ex : ExchangeClient.
Variable exOf : InconsistentState → ExchangeClient.
Variable timestamp : Z.

(** An earlier statement of the block passed: step over it. *)
Local Ltac passed H n :=
  let B := fresh "B" in
  pose proof (H n ltac:(lia)) as B; simpl in B; rewrite B; simpl.

Lemma resolveRow_resolved (stateId : Z) (rows : list InconsistentState) r :
  r ∈ resolveRow timestamp stateId <$> rows → id r = stateId →
  resolved r = 1 ∧ resolved_by r = Some "auto"%string
  ∧ resolved_at r = Some timestamp.
Proof.
  intros Hin Hid. apply list_elem_of_fmap in Hin as (r0 & -> & _).
  unfold resolveRow in *. case_decide; [done|]. done.
Qed.

Lemma resolveState_dispatch (client : ExchangeClient) state w :
  operation state = "close_position"%string
  ∨ operation state = "price_order_triggered"%string →
  resolveState fails client timestamp state w
  = resolveClosePosition fails client timestamp state w.
Proof.
  intros [Hop|Hop]; unfold resolveState; rewrite Hop; repeat case_decide; done.
Qed.

(** C1.  Take a row whose repair reaches the point where the close is
    synthesized ([prepareClose] hands over the fill and the figures), on a
    connection without an open transaction; let [b] be the number of the
    BEGIN statement.  If BEGIN, the four writes, COMMIT and the UPDATE of
    the row all pass, the repair commits the tables with the position
    deleted, the active triggers cancelled, the close trade and the close
    event inserted, and then the row carries [resolved = 1],
    [resolved_by = 'auto'].  If one of the four writes or COMMIT fails
    after a successful BEGIN (and the ROLLBACK passes), the repair reports
    failure, the database is exactly as before, and the failure is
    counted for the row. *)
Theorem repair_transaction_is_atomic
    (p : Pass) (state : InconsistentState) (fill : Fill) (f : CloseFigures)
    (w1 : World) :
  operation state = "close_position"%string
  ∨ operation state = "price_order_triggered"%string →
  snapshot (db (world p)) = None →
  prepareClose fails (exOf state) state (world p) = (Some (fill, f), w1) →
  let b := executed w1 in
  let st := store (db (world p)) in
  let p' := processRow fails exOf timestamp p state in
  ((∀ k, (k ≤ 6)%nat → fails (k + b) = false) →
     resolveClosePosition fails (exOf state) timestamp state (world p)
     = (true, {| db := {| store := repairedStore timestamp state f st;
                          snapshot := None |};
                 executed := 6 + b |})
     ∧ db (world p')
       = {| store := markResolved timestamp (id state)
                       (repairedStore timestamp state f st);
            snapshot := None |}
     ∧ (∀ r, r ∈ inconsistent_states (store (db (world p'))) →
             id r = id state →
             resolved r = 1 ∧ resolved_by r = Some "auto"%string
             ∧ resolved_at r = Some timestamp)
     ∧ tracker p' = recordSuccess (id state) (tracker p)
     ∧ alerts p' = alerts p)
  ∧ (∀ k, (k < 5)%nat →
       fails b = false →
       (∀ j, (j < k)%nat → fails (S j + b) = false) →
       fails (S k + b) = true →
       fails (S (S k) + b) = false →
       fst (resolveClosePosition fails (exOf state) timestamp state (world p)) = false
       ∧ db (world p') = db (world p)
       ∧ tracker p' = fst (recordFailure (id state) (tracker p))).
Proof.
  intros Hop Hsnap Hprep b st p'. subst b st p'.
  destruct (prepareClose_Some _ _ _ _ _ _ _ Hprep) as (Hdb & _ & _).
  destruct w1 as [d1 b]. simpl in Hdb. subst d1. simpl.
  pose proof (Db_eta (db (world p))) as Heta. rewrite Hsnap in Heta.
  split.
  - intros Hok.
    pose proof (Hok 0%nat ltac:(lia)) as F0.
    pose proof (Hok 1%nat ltac:(lia)) as F1.
    pose proof (Hok 2%nat ltac:(lia)) as F2.
    pose proof (Hok 3%nat ltac:(lia)) as F3.
    pose proof (Hok 4%nat ltac:(lia)) as F4.
    pose proof (Hok 5%nat ltac:(lia)) as F5.
    pose proof (Hok 6%nat ltac:(lia)) as F6.
    simpl in F0, F1, F2, F3, F4, F5, F6.
    assert (Hres : resolveClosePosition fails (exOf state) timestamp state (world p)
      = (true, {| db := {| store := repairedStore timestamp state f
                                      (store (db (world p)));
                           snapshot := None |};
                  executed := S (S (S (S (S (S b))))) |})).
    { unfold resolveClosePosition. rewrite Hprep.
      unfold repairStatements, executeAll, execute, run. simpl.
      rewrite F0, Hsnap. simpl. rewrite F1. simpl. rewrite F2. simpl.
      rewrite F3. simpl. rewrite F4. simpl. rewrite F5. simpl. done. }
    split; [exact Hres|].
    unfold processRow. rewrite (resolveState_dispatch _ _ _ Hop), Hres.
    unfold execute, run. simpl. rewrite F6. simpl.
    split; [done|]. split; [|done].
    intros r Hr Hid. by eapply resolveRow_resolved.
  - intros k Hk Fb Hbefore Hfail Hrollback.
    assert (Hres : resolveClosePosition fails (exOf state) timestamp state (world p)
      = (false, {| db := db (world p); executed := S (S (S k + b)) |})).
    { unfold resolveClosePosition. rewrite Hprep.
      unfold repairStatements, executeAll, execute, run. simpl.
      rewrite Fb, Hsnap. simpl.
      destruct k as [|[|[|[|[|k]]]]]; [| | | | |lia]; simpl in Hfail, Hrollback.
      + rewrite Hfail. simpl. rewrite Hrollback. simpl. by rewrite Heta.
      + passed Hbefore 0%nat.
        rewrite Hfail. simpl. rewrite Hrollback. simpl. by rewrite Heta.
      + passed Hbefore 0%nat.
        passed Hbefore 1%nat.
        rewrite Hfail. simpl. rewrite Hrollback. simpl. by rewrite Heta.
      + passed Hbefore 0%nat.
        passed Hbefore 1%nat.
        passed Hbefore 2%nat.
        rewrite Hfail. simpl. rewrite Hrollback. simpl. by rewrite Heta.
      + passed Hbefore 0%nat.
        passed Hbefore 1%nat.
        passed Hbefore 2%nat.
        passed Hbefore 3%nat.
        rewrite Hfail. simpl. rewrite Hrollback. simpl. by rewrite Heta. }
    rewrite Hres. split; [done|].
    unfold processRow. rewrite (resolveState_dispatch _ _ _ Hop), Hres.
    simpl. done.
Qed.

(** C2 (as amended).  Whenever the reconciler synthesizes a close, the
    matching fill was found, and the fee written into the close trade row
    and into the close event is the close notional times the flat rate
    0.001; the notional is quantity times exit price, times the quanto
    multiplier for an inverse contract.  The fee field of the fill is not
    read. *)
Theorem synthesized_close_fee_is_flat_rate
    (state : InconsistentState) (w w' : World) :
  resolveClosePosition fails ex timestamp state w = (true, w') →
  ∃ fills fill f m,
    getMyTrades ex (normalizeContract ex (symbol state)) 100 = Some fills
    ∧ find (isCloseTrade (exchange_order_id state)) fills = Some fill
    ∧ closeTradeRow state f timestamp ∈ trades (store (db w'))
    ∧ closeEventRow state f timestamp ∈ position_close_events (store (db w'))
    ∧ tradeFee (closeTradeRow state f timestamp)
      = (positionValue f * Num.dec 0.001)%Qc
    ∧ eventFee (closeEventRow state f timestamp)
      = (positionValue f * Num.dec 0.001)%Qc
    ∧ positionValue f =
        match getContractType ex with
        | inverse => (fillQuantity fill * m * fillPrice fill)%Qc
        | linear => (fillQuantity fill * fillPrice fill)%Qc
        end
    ∧ match getContractType ex with
      | inverse =>
          getQuantoMultiplier ex (normalizeContract ex (symbol state)) = Some m
      | linear => m = 1%Qc
      end.
Proof.
  intros Hres.
  destruct (resolveClosePosition_true _ _ _ _ _ _ Hres)
    as (fill & f & w1 & Hprep & _ & Hdb & _).
  destruct (prepareClose_Some _ _ _ _ _ _ _ Hprep)
    as (_ & _ & fills & openTrade & grossPnl & m & Hfills & Hfind & _ & _ & Hm & ->).
  exists fills, fill, (closeFigures (getContractType ex) m openTrade fill grossPnl), m.
  rewrite Hdb. simpl.
  split; [done|]. split; [done|].
  split; [apply elem_of_app; right; apply list_elem_of_singleton; done|].
  split; [apply elem_of_app; right; apply list_elem_of_singleton; done|].
  split; [done|]. split; [done|]. split; [|done].
  unfold fillQuantity. by destruct (getContractType ex).
Qed.

End RepairTheorems.

(** *** Scenario: a short ETH position closed on the exchange only *)

Definition ethState : Resolver.InconsistentState := {|
  Resolver.id := 1;
  Resolver.operation := "close_position";
  Resolver.symbol := "ETH";
  Resolver.side := Exchange.short;
  Resolver.exchange_order_id := "987654321";
  Resolver.created_at := T0;
  Resolver.resolved := 0;
  Resolver.resolved_at := None;
  Resolver.resolved_by := None
|}.

Definition ethOpenTrade : Resolver.TradeRow := {|
  Resolver.tradeOrderId := "555000111";
  Resolver.tradeSymbol := "ETH";
  Resolver.tradeSide := Exchange.short;
  Resolver.tradeType := Resolver.open;
  Resolver.tradePrice := Num.ofZ 2100;
  Resolver.tradeQuantity := Num.ofZ 1;
  Resolver.tradeLeverage := Num.ofZ 3;
  Resolver.tradePnl := None;
  Resolver.tradeFee := Num.dec 2.1;
  Resolver.tradeTimestamp := T0 - 3600000;
  Resolver.tradeStatus := "filled"
|}.

Definition ethTrigger (status : Resolver.PriceOrderStatus) (updatedAt : Z)
    : Resolver.PriceOrderRow := {|
  Resolver.priceOrderId := 11;
  Resolver.priceOrderSymbol := "ETH";
  Resolver.priceOrderSide := Exchange.short;
  Resolver.priceOrderStatus := status;
  Resolver.priceOrderUpdatedAt := updatedAt
|}.

Definition ethStore : Resolver.Store := {|
  Resolver.positions :=
    [ {| Resolver.positionSymbol := "ETH"; Resolver.positionSide := Exchange.short;
         Resolver.positionQuantity := Num.ofZ 1 |} ];
  Resolver.price_orders := [ ethTrigger Resolver.active (T0 - 3600000) ];
  Resolver.trades := [ ethOpenTrade ];
  Resolver.position_close_events := [];
  Resolver.inconsistent_states := [ ethState ]
|}.

(** The fill of the close order on the exchange; it carries a fee of
    0.5. *)
Definition ethFill : Resolver.Fill := {|
  Resolver.fillOrderId := None;
  Resolver.fill_order_id := Some "987654321";
  Resolver.fillId := Some "t-42";
  Resolver.fillPrice := Num.ofZ 2000;
  Resolver.fillSize := Some (Num.ofZ (-1));
  Resolver.fillQty := None;
  Resolver.fillFee := Num.dec 0.5
|}.

(** A linear venue showing no position and the close fill. *)
Definition ethExchange : Resolver.ExchangeClient := {|
  Resolver.getPositions := Some [];
  Resolver.normalizeContract := λ s, (s +:+ "USDT")%string;
  Resolver.getMyTrades := λ _ _, Some [ ethFill ];
  Resolver.calculatePnl := λ entry exit qty sd _,
    Some (match sd with
          | Exchange.long => (exit - entry) * qty
          | Exchange.short => (entry - exit) * qty
          end)%Qc;
  Resolver.getContractType := Exchange.linear;
  Resolver.getQuantoMultiplier := λ _, Some (Num.dec 0.01)
|}.

Definition ethFigures : Resolver.CloseFigures := {|
  Resolver.entryPrice := Num.ofZ 2100;
  Resolver.exitPrice := Num.ofZ 2000;
  Resolver.quantity := Num.ofZ 1;
  Resolver.leverage := Num.ofZ 3;
  Resolver.positionValue := Num.ofZ 2000;
  Resolver.totalFee := Num.ofZ 2;
  Resolver.netPnl := Num.ofZ 98;
  Resolver.pnlPercent := Num.ofZ 14
|}.

Definition ethWorld : Resolver.World := {|
  Resolver.db := {| Resolver.store := ethStore; Resolver.snapshot := None |};
  Resolver.executed := 0
|}.

Definition ethPass : Resolver.Pass := {|
  Resolver.world := ethWorld;
  Resolver.tracker := Resolver.newTracker;
  Resolver.alerts := []
|}.

Definition noFault : nat → bool := λ _, false.

(** The store after the repair and the UPDATE of the row. *)
Definition ethRepaired : Resolver.Store := {|
  Resolver.positions := [];
  Resolver.price_orders := [ ethTrigger Resolver.cancelled (T0 + 600000) ];
  Resolver.trades :=
    [ ethOpenTrade;
      Resolver.closeTradeRow ethState ethFigures (T0 + 600000) ];
  Resolver.position_close_events :=
    [ Resolver.closeEventRow ethState ethFigures (T0 + 600000) ];
  Resolver.inconsistent_states :=
    [ {| Resolver.id := 1;
         Resolver.operation := "close_position";
         Resolver.symbol := "ETH";
         Resolver.side := Exchange.short;
         Resolver.exchange_order_id := "987654321";
         Resolver.created_at := T0;
         Resolver.resolved := 1;
         Resolver.resolved_at := Some (T0 + 600000);
         Resolver.resolved_by := Some "auto" |} ]
|}.

Lemma repair_transaction_is_atomic_witness :
  (Resolver.operation ethState = "close_position"
   ∨ Resolver.operation ethState = "price_order_triggered")
  ∧ Resolver.snapshot (Resolver.db (Resolver.world ethPass)) = None
  ∧ Resolver.prepareClose noFault ethExchange ethState (Resolver.world ethPass)
    = (Some (ethFill, ethFigures),
       {| Resolver.db := Resolver.db ethWorld; Resolver.executed := 1 |})
  ∧ Resolver.db (Resolver.world
       (Resolver.processRow noFault (λ _, ethExchange) (T0 + 600000) ethPass ethState))
    = {| Resolver.store := ethRepaired; Resolver.snapshot := None |}.
Proof.
  assert (H1 : Resolver.operation ethState = "close_position"
               ∨ Resolver.operation ethState = "price_order_triggered")
    by (left; reflexivity).
  assert (H2 : Resolver.snapshot (Resolver.db (Resolver.world ethPass)) = None)
    by reflexivity.
  assert (H3 : Resolver.prepareClose noFault ethExchange ethState
                 (Resolver.world ethPass)
               = (Some (ethFill, ethFigures),
                  {| Resolver.db := Resolver.db ethWorld;
                     Resolver.executed := 1 |}))
    by by_compute.
  split; [exact H1|]. split; [exact H2|]. split; [exact H3|].
  destruct (proj1 (repair_transaction_is_atomic noFault (λ _, ethExchange)
                     (T0 + 600000) ethPass ethState ethFill ethFigures _ H1 H2 H3)
              (λ _ _, eq_refl)) as (_ & -> & _).
  by_compute.
Defined.

(** The third write (the INSERT of the close trade) fails: nothing of
    the repair is left in the database. *)
Example failed_insert_rolls_everything_back :
  let fault := λ k, bool_decide (k = 4%nat) in
  let p' := Resolver.processRow fault (λ _, ethExchange) (T0 + 600000)
              ethPass ethState in
  Resolver.db (Resolver.world p') = Resolver.db ethWorld
  ∧ Resolver.failedStates (Resolver.tracker p') !! 1 = Some 1%nat.
Proof. split; by_compute. Qed.

(** The UPDATE of the row runs after COMMIT, as a statement of its own:
    if it fails, the repair stays committed, the row stays unresolved, and
    the attempt is counted as a failure. *)
Example failed_update_leaves_the_row_unresolved :
  let fault := λ k, bool_decide (k = 7%nat) in
  let p' := Resolver.processRow fault (λ _, ethExchange) (T0 + 600000)
              ethPass ethState in
  Resolver.db (Resolver.world p')
  = {| Resolver.store :=
         repairedStore (T0 + 600000) ethState ethFigures ethStore;
       Resolver.snapshot := None |}
  ∧ Resolver.inconsistent_states (Resolver.store (Resolver.db (Resolver.world p')))
    = [ ethState ]
  ∧ Resolver.failedStates (Resolver.tracker p') !! 1 = Some 1%nat.
Proof. repeat split; by_compute. Qed.

(** One pass of the reconciler repairs the row; a second pass finds no
    unresolved row and changes nothing. *)
Example pass_repairs_and_second_pass_is_idle :
  let first := Resolver.resolveInconsistentStates noFault (λ _, ethExchange)
                 (T0 + 600000) ethWorld Resolver.newTracker in
  let second := Resolver.resolveInconsistentStates noFault (λ _, ethExchange)
                  (T0 + 1200000) (Resolver.world first) (Resolver.tracker first) in
  Resolver.db (Resolver.world first)
  = {| Resolver.store := ethRepaired; Resolver.snapshot := None |}
  ∧ Resolver.alerts first = []
  ∧ Resolver.db (Resolver.world second) = Resolver.db (Resolver.world first)
  ∧ Resolver.alerts second = [].
Proof. repeat split; by_compute. Qed.

Lemma synthesized_close_fee_is_flat_rate_witness :
  let w' := {| Resolver.db :=
                 {| Resolver.store :=
                      repairedStore (T0 + 600000) ethState ethFigures ethStore;
                    Resolver.snapshot := None |};
               Resolver.executed := 7 |} in
  Resolver.resolveClosePosition noFault ethExchange (T0 + 600000) ethState ethWorld
  = (true, w')
  ∧ ∃ fills fill f m,
      Resolver.getMyTrades ethExchange
        (Resolver.normalizeContract ethExchange (Resolver.symbol ethState)) 100
      = Some fills
      ∧ find (Resolver.isCloseTrade (Resolver.exchange_order_id ethState)) fills
        = Some fill
      ∧ Resolver.closeTradeRow ethState f (T0 + 600000)
        ∈ Resolver.trades (Resolver.store (Resolver.db w'))
      ∧ Resolver.closeEventRow ethState f (T0 + 600000)
        ∈ Resolver.position_close_events (Resolver.store (Resolver.db w'))
      ∧ Resolver.tradeFee (Resolver.closeTradeRow ethState f (T0 + 600000))
        = (Resolver.positionValue f * Num.dec 0.001)%Qc
      ∧ Resolver.eventFee (Resolver.closeEventRow ethState f (T0 + 600000))
        = (Resolver.positionValue f * Num.dec 0.001)%Qc
      ∧ Resolver.positionValue f =
          match Resolver.getContractType ethExchange with
          | Exchange.inverse => (fillQuantity fill * m * Resolver.fillPrice fill)%Qc
          | Exchange.linear => (fillQuantity fill * Resolver.fillPrice fill)%Qc
          end
      ∧ match Resolver.getContractType ethExchange with
        | Exchange.inverse =>
            Resolver.getQuantoMultiplier ethExchange
              (Resolver.normalizeContract ethExchange (Resolver.symbol ethState))
            = Some m
        | Exchange.linear => m = 1%Qc
        end.
Proof.
  intros w'.
  assert (H : Resolver.resolveClosePosition noFault ethExchange (T0 + 600000)
                ethState ethWorld = (true, w')) by by_compute.
  split; [exact H|].
  exact (synthesized_close_fee_is_flat_rate noFault ethExchange (T0 + 600000)
           ethState ethWorld w' H).
Defined.

(** C2, counterexample.  The matching fill is found and carries a fee of
    0.5; the close trade row and the close event are written with a fee
    of 2, which is 0.1% of the close notional of 2000. *)
Lemma synthesized_close_ignores_fill_fee :
  let w' := snd (Resolver.resolveClosePosition noFault ethExchange (T0 + 600000)
                   ethState ethWorld) in
  fst (Resolver.resolveClosePosition noFault ethExchange (T0 + 600000)
         ethState ethWorld) = true
  ∧ find (Resolver.isCloseTrade "987654321") [ethFill] = Some ethFill
  ∧ Resolver.fillFee ethFill = Num.dec 0.5
  ∧ Resolver.tradeFee <$> Resolver.trades (Resolver.store (Resolver.db w'))
    = [ Num.dec 2.1; Num.ofZ 2 ]
  ∧ Resolver.eventFee
      <$> Resolver.position_close_events (Resolver.store (Resolver.db w'))
    = [ Num.ofZ 2 ]
  ∧ Num.ofZ 2 ≠ Resolver.fillFee ethFill.
Proof. repeat split; by_compute. Qed.

(** ** GET /api/prices *)

Section PricesProps.
Import Api.

Variable envTradingSymbols : option string.
Variable ex : Exchange.

(** The price the handler stores for a symbol on a cache miss: the last
    price of the ticker, or, when the ticker call fails, the price of the
    old cache entry if there is a non-zero one, or 0. *)
Definition priceOf (priceCache : option PriceCache) (symbol : string) : Qc :=
  match getFuturesTicker ex (normalizeContract ex symbol) with
  | Some last => last
  | None =>
      match priceCache with
      | Some cache => default 0%Qc (prices cache !! symbol)
      | None => 0%Qc
      end
  end.

Lemma fetchPrice_insert priceCache acc symbol :
  fetchPrice ex priceCache acc symbol
  = <[symbol := priceOf priceCache symbol]> acc.
Proof.
  unfold fetchPrice, priceOf.
  destruct (getFuturesTicker ex _); [done|].
  destruct priceCache as [cache|]; [|done].
  destruct (prices cache !! symbol) as [old|]; [|done]. simpl.
  unfold Num.truthy. case_bool_decide as Hz; [done|]. by rewrite Hz.
Qed.

Lemma fetched_lookup priceCache (symbols : list string) acc (s : string) :
  foldl (fetchPrice ex priceCache) acc symbols !! s
  = if decide (s ∈ symbols) then Some (priceOf priceCache s) else acc !! s.
Proof.
  revert acc. induction symbols as [|x xs IH]; intros acc; cbn [foldl].
  - rewrite decide_False; [done|]. apply not_elem_of_nil.
  - rewrite IH, fetchPrice_insert.
    destruct (decide (s ∈ xs)) as [Hin|Hnin].
    + rewrite decide_True; [done|]. by apply elem_of_cons; right.
    + destruct (decide (s = x)) as [->|Hne].
      * rewrite decide_True by (apply elem_of_cons; by left).
        by rewrite lookup_insert_eq.
      * rewrite decide_False by (intros [?|?]%elem_of_cons; done).
        by rewrite lookup_insert_ne.
Qed.

(** C8 (as amended).  The handler never reads the request: any two
    requests get the same answer.  A request arriving less than 5000 ms
    after the time stamp of the cache gets the cached prices object, and
    the cache stays as it is.  Any other request gets a fresh object that
    has exactly the configured trading symbols (TRADING_SYMBOLS of the
    environment, or the default list) as keys, each with the last price
    of its ticker, or with the old cached price or 0 when its ticker call
    fails; that object becomes the cache, stamped with the time at which
    the fetch ended. *)
Theorem getPrices_serves_configured_symbols
    (req : Request) (now elapsed : Z) (priceCache : option PriceCache) :
  let r := getPrices envTradingSymbols ex req now elapsed priceCache in
  (∀ req', getPrices envTradingSymbols ex req' now elapsed priceCache = r)
  ∧ (∀ cache, priceCache = Some cache →
       now - timestamp cache < PRICE_CACHE_TTL →
       r = (prices cache, Some cache))
  ∧ ((∀ cache, priceCache = Some cache →
        ¬ now - timestamp cache < PRICE_CACHE_TTL) →
     snd r = Some {| prices := fst r; timestamp := now + elapsed |}
     ∧ (∀ s, fst r !! s =
             if decide (s ∈ tradingSymbols envTradingSymbols)
             then Some (priceOf priceCache s) else None)
     ∧ (∀ s last, s ∈ tradingSymbols envTradingSymbols →
          getFuturesTicker ex (normalizeContract ex s) = Some last →
          fst r !! s = Some last)).
Proof.
  intros r. subst r. split; [done|]. split.
  - intros cache -> Hfresh. unfold getPrices. by rewrite decide_True.
  - intros Hstale. unfold getPrices.
    assert (Hmiss : match priceCache with
                    | Some cache =>
                        if decide (now - timestamp cache < PRICE_CACHE_TTL)
                        then Some (prices cache) else None
                    | None => None
                    end = None).
    { destruct priceCache as [cache|]; [|done].
      rewrite decide_False; [done|]. by apply Hstale. }
    rewrite Hmiss. simpl. split; [done|].
    assert (Hlookup : ∀ s,
      foldl (fetchPrice ex priceCache) ∅ (tradingSymbols envTradingSymbols) !! s
      = if decide (s ∈ tradingSymbols envTradingSymbols)
        then Some (priceOf priceCache s) else None).
    { intros s. rewrite fetched_lookup. by rewrite lookup_empty. }
    split; [exact Hlookup|].
    intros s last Hin Hticker. rewrite Hlookup, decide_True by done.
    unfold priceOf. by rewrite Hticker.
Qed.

End PricesProps.

(** *** Scenario: the dashboard asks for a symbol that is not configured *)

Definition flatExchange (last : Qc) : Api.Exchange := {|
  Api.normalizeContract := λ s, (s +:+ "_USDT")%string;
  Api.getFuturesTicker := λ _, Some last
|}.

Definition dogeRequest : Api.Request :=
  {| Api.query := {[ "symbols"%string := "DOGE"%string ]} |}.

Example default_symbols :
  Api.tradingSymbols None = ["BTC"; "ETH"; "SOL"; "XRP"; "BNB"; "BCH"]%string
  ∧ Api.tradingSymbols (Some " BTC, ETH ,SOL"%string) = ["BTC"; "ETH"; "SOL"]%string.
Proof. split; reflexivity. Qed.

(** C8, counterexample.  With the default configuration a request for
    [symbols=DOGE] is answered with the six configured symbols and
    without DOGE.  And the cache is stamped when it is filled, not when it
    is read: a request 4 s after the fill is served from the cache, the
    next one 2 s later is not, and sees other prices. *)
Lemma prices_ignore_the_symbols_parameter :
  let first := Api.getPrices None (flatExchange (Num.ofZ 100)) dogeRequest
                 T0 0 None in
  let second := Api.getPrices None (flatExchange (Num.ofZ 101)) dogeRequest
                  (T0 + 4000) 0 (snd first) in
  let third := Api.getPrices None (flatExchange (Num.ofZ 102)) dogeRequest
                 (T0 + 6000) 0 (snd second) in
  Api.query dogeRequest !! "symbols"%string = Some "DOGE"%string
  ∧ fst first !! "DOGE"%string = None
  ∧ fst first !! "BTC"%string = Some (Num.ofZ 100)
  ∧ fst second = fst first
  ∧ fst third !! "BTC"%string = Some (Num.ofZ 102)
  ∧ fst third ≠ fst second.
Proof. repeat split; by_compute. Qed.

(** * Further properties of the request coordinator *)

Section RateLimitWindow.
Import RateLimit.

Variable cfg : RateLimitConfig.

(** Seen from clock value [clock], the ring is in order and holds at most
    [maxRequestsPerMinute] timestamps younger than 60 s. *)
Definition withinLimit (clock : Z) (s : State) : Prop :=
  ringInOrder clock s
  ∧ Z.of_nat (length (evict clock (requestTimestamps s))) ≤ maxRequestsPerMinute cfg.

Lemma evict_later_shorter now later ts :
  now ≤ later → (length (evict later ts) ≤ length (evict now ts))%nat.
Proof.
  intros Hle. unfold evict. induction ts as [|t ts IH]; [done|].
  rewrite !filter_cons.
  destruct (decide (later - t < REQUEST_WINDOW)) as [Hl|Hl].
  - rewrite decide_True by lia. simpl. lia.
  - case_decide; simpl; lia.
Qed.

Lemma evict_app now ts us : evict now (ts ++ us) = evict now ts ++ evict now us.
Proof. unfold evict. apply filter_app. Qed.

Lemma evict_idemp now ts : evict now (evict now ts) = evict now ts.
Proof.
  unfold evict. induction ts as [|t ts IH]; [done|].
  rewrite filter_cons. case_decide; [|done].
  rewrite filter_cons, decide_True by done. by rewrite IH.
Qed.

Lemma withinLimit_later now later s :
  now ≤ later → withinLimit now s → withinLimit later s.
Proof.
  intros Hle [[Hs Hb] Hlen]. split; [split; [done|]|].
  - intros t Ht. specialize (Hb t Ht). lia.
  - pose proof (evict_later_shorter now later (requestTimestamps s) Hle). lia.
Qed.

Lemma sumZ_app l k : sumZ (l ++ k) = sumZ l + sumZ k.
Proof. unfold sumZ. induction l as [|x l IH]; simpl; [done|]. rewrite IH. lia. Qed.

Lemma limitWait_nonneg now ts : 0 ≤ sumZ (limitWait cfg now ts).
Proof.
  unfold limitWait. case_decide; [|simpl; lia].
  destruct (head ts); [|simpl; lia]. case_decide; simpl; lia.
Qed.

Lemma spacingWait_nonneg now s : 0 ≤ sumZ (spacingWait cfg now s).
Proof. unfold spacingWait. case_decide; simpl; lia. Qed.

(** What a call that is let through leaves behind. *)
Lemma waitForRateLimit_granted endpoint now s sleeps :
  fst (waitForRateLimit cfg endpoint now s) = Granted sleeps →
  let kept := evict now (requestTimestamps s) in
  sleeps = limitWait cfg now kept ++ spacingWait cfg now s
  ∧ requestTimestamps (snd (waitForRateLimit cfg endpoint now s))
    = kept ++ [now + sumZ sleeps]
  ∧ lastRequestTime (snd (waitForRateLimit cfg endpoint now s)) = now + sumZ sleeps.
Proof.
  unfold waitForRateLimit.
  destruct (shouldBlockRequest_ring now s) as [Hring Hlast].
  destruct (shouldBlockRequest now s) as [[b|] s1]; simpl in *; [done|].
  intros [= <-]. rewrite Hring.
  assert (Hsp : spacingWait cfg now s1 = spacingWait cfg now s)
    by (unfold spacingWait; by rewrite Hlast).
  by rewrite Hsp.
Qed.

Lemma waitForRateLimit_rejected_ring endpoint now s e :
  fst (waitForRateLimit cfg endpoint now s) = Rejected e →
  requestTimestamps (snd (waitForRateLimit cfg endpoint now s)) = requestTimestamps s.
Proof.
  unfold waitForRateLimit.
  destruct (shouldBlockRequest_ring now s) as [Hring Hlast].
  destruct (shouldBlockRequest now s) as [[b|] s1]; simpl in *; done.
Qed.

(** One call keeps the limit: at the time the request is recorded it is
    at most the [maxRequestsPerMinute]-th of the last 60 s. *)
Lemma waitForRateLimit_withinLimit endpoint now s :
  1 ≤ maxRequestsPerMinute cfg →
  withinLimit now s →
  let r := waitForRateLimit cfg endpoint now s in
  match fst r with
  | Rejected _ => withinLimit now (snd r)
  | Granted sleeps => 0 ≤ sumZ sleeps ∧ withinLimit (now + sumZ sleeps) (snd r)
  end.
Proof.
  intros Hmax [[Hs Hb] Hlen] r. subst r.
  destruct (fst (waitForRateLimit cfg endpoint now s)) as [e|sleeps] eqn:Hout.
  { unfold withinLimit, ringInOrder.
    by rewrite (waitForRateLimit_rejected_ring _ _ _ _ Hout). }
  destruct (waitForRateLimit_granted _ _ _ _ Hout) as (Hsl & Hring & _).
  unfold withinLimit, ringInOrder. rewrite Hring.
  set (E := evict now (requestTimestamps s)) in *.
  pose proof (limitWait_nonneg now E) as Hlw.
  pose proof (spacingWait_nonneg now s) as Hsw.
  assert (Hsum : sumZ sleeps = sumZ (limitWait cfg now E) + sumZ (spacingWait cfg now s))
    by (rewrite Hsl; apply sumZ_app).
  set (r := now + sumZ sleeps) in *.
  assert (HE : ∀ t, t ∈ E → t ≤ now ∧ now - t < REQUEST_WINDOW).
  { intros t Ht. apply list_elem_of_filter in Ht as [Hw Ht]. split; [by apply Hb|done]. }
  split; [lia|]. split; [split|].
  - apply StronglySorted_app_2; [|by apply evict_sorted|repeat constructor].
    intros t u Ht Hu. apply list_elem_of_singleton in Hu as ->.
    destruct (HE t Ht). lia.
  - intros t Ht. apply elem_of_app in Ht as [Ht|Ht].
    + destruct (HE t Ht). lia.
    + apply list_elem_of_singleton in Ht as ->. lia.
  - rewrite evict_app, length_app.
    assert (Hone : (length (evict r [r]) ≤ 1)%nat).
    { unfold evict. rewrite filter_cons, filter_nil. case_decide; simpl; lia. }
    destruct (decide (Z.of_nat (length E) < maxRequestsPerMinute cfg)) as [Hroom|Hfull].
    + pose proof (evict_later_shorter now r E ltac:(lia)) as Hshort.
      unfold E in Hshort at 2. rewrite evict_idemp in Hshort. fold E in Hshort. lia.
    + assert (Hk : Z.of_nat (length E) = maxRequestsPerMinute cfg) by lia.
      destruct E as [|oldest rest] eqn:HEeq; [simpl in Hk; lia|].
      assert (Hwait : oldest + 60100 ≤ r).
      { destruct (HE oldest ltac:(left)) as [_ Hw].
        assert (Hl : limitWait cfg now (oldest :: rest)
                     = [REQUEST_WINDOW - (now - oldest) + 100]).
        { unfold limitWait. rewrite decide_True by lia. simpl.
          case_decide; [done|]. unfold REQUEST_WINDOW in *. lia. }
        rewrite Hl in Hsum. unfold REQUEST_WINDOW in *. simpl in Hsum. lia. }
      change (oldest :: rest) with ([oldest] ++ rest).
      rewrite evict_app, length_app.
      assert (Hgone : evict r [oldest] = []).
      { unfold evict. rewrite filter_cons, filter_nil.
        rewrite decide_False; [done|]. unfold REQUEST_WINDOW. lia. }
      rewrite Hgone. simpl length at 1.
      assert (Hrest : (length (evict r rest) ≤ length rest)%nat).
      { unfold evict. apply length_filter. }
      simpl length in Hk. lia.
Qed.

(** A session: calls made one after the other; [gaps] are the idle times
    before each call, and a call that waits occupies the caller until its
    sleeps are over. *)
Fixpoint runCalls (clock : Z) (gaps : list Z) (s : State) : Z * State :=
  match gaps with
  | [] => (clock, s)
  | gap :: rest =>
      let now := clock + gap in
      let r := waitForRateLimit cfg "request" now s in
      match fst r with
      | Rejected _ => runCalls now rest (snd r)
      | Granted sleeps => runCalls (now + sumZ sleeps) rest (snd r)
      end
  end.

(** X1.  With a limit of at least one request per minute, calls made one
    after the other never record more than [maxRequestsPerMinute]
    requests within any 60 s ending at a record time: if the ring is
    within the limit before a session, it is within the limit at the
    clock value at which the session ends. *)
Theorem runCalls_withinLimit (clock : Z) (gaps : list Z) (s : State) :
  1 ≤ maxRequestsPerMinute cfg →
  Forall (λ gap, 0 ≤ gap) gaps →
  withinLimit clock s →
  clock ≤ fst (runCalls clock gaps s)
  ∧ withinLimit (fst (runCalls clock gaps s)) (snd (runCalls clock gaps s)).
Proof.
  intros Hmax Hgaps. revert clock s.
  induction Hgaps as [|gap rest Hgap _ IH]; intros clock s Hin; simpl; [done|].
  assert (Hnow : withinLimit (clock + gap) s)
    by (apply (withinLimit_later clock); [lia|done]).
  pose proof (waitForRateLimit_withinLimit "request" (clock + gap) s Hmax Hnow) as Hstep.
  simpl in Hstep.
  destruct (fst (waitForRateLimit cfg "request" (clock + gap) s)) as [e|sleeps].
  - destruct (IH _ _ Hstep) as [Hle Hw]. split; [lia|done].
  - destruct Hstep as [Hpos Hstep].
    destruct (IH _ _ Hstep) as [Hle Hw]. split; [lia|done].
Qed.

(** X2.  A request that is let through is recorded no sooner than
    [minRequestDelay] after the one recorded before it and not before the
    call was entered; the record time is the clock value at which the
    call's sleeps end, and it becomes the newest entry of the ring. *)
Theorem waitForRateLimit_spacing (endpoint : string) (now : Z) (s : State)
    (sleeps : list Z) :
  fst (waitForRateLimit cfg endpoint now s) = Granted sleeps →
  let s' := snd (waitForRateLimit cfg endpoint now s) in
  lastRequestTime s' = now + sumZ sleeps
  ∧ lastRequestTime s + minRequestDelay cfg ≤ lastRequestTime s'
  ∧ now ≤ lastRequestTime s'
  ∧ last (requestTimestamps s') = Some (lastRequestTime s').
Proof.
  intros Hout. destruct (waitForRateLimit_granted _ _ _ _ Hout) as (Hsl & Hring & Hlast).
  simpl. rewrite Hring, Hlast, last_snoc.
  pose proof (limitWait_nonneg now (evict now (requestTimestamps s))) as Hlw.
  assert (Hsum : sumZ sleeps
                 = sumZ (limitWait cfg now (evict now (requestTimestamps s)))
                   + sumZ (spacingWait cfg now s))
    by (rewrite Hsl; apply sumZ_app).
  split; [done|].
  unfold spacingWait in Hsum.
  split; [case_decide; simpl in Hsum; lia|].
  split; [case_decide; simpl in Hsum; lia|done].
Qed.

End RateLimitWindow.

Section PenaltyLifeCycle.
Import RateLimit.

Variable cfg : RateLimitConfig.

(** The ban length [handle418Ban] uses, in milliseconds. *)
Definition banDuration (banDurationSeconds : option Z) : Z :=
  match banDurationSeconds with
  | Some d => if decide (d = 0) then 300000 else d * 1000
  | None => 300000
  end.

(** X3.  After a 418 answer handled at [t], with a ban that ends at a
    positive clock value: every call made before the ban ends is rejected
    as banned, with the remaining seconds rounded up, and changes
    nothing; the first call made when the ban has ended is let through
    and wipes the failure count, the breaker and a 429 back-off that may
    still be running. *)
Theorem handle418Ban_life_cycle (banDurationSeconds : option Z) (t now : Z)
    (endpoint : string) (s : State) :
  0 < t + banDuration banDurationSeconds →
  let banned := handle418Ban cfg banDurationSeconds t s in
  let r := waitForRateLimit cfg endpoint now banned in
  (now < t + banDuration banDurationSeconds →
     r = (Rejected {| errExchange := exchangeName cfg;
                      errWindow := IpBan;
                      errRemainingSeconds :=
                        Num.ceilSeconds (t + banDuration banDurationSeconds - now) |},
          banned))
  ∧ (t + banDuration banDurationSeconds ≤ now →
     (∃ sleeps, fst r = Granted sleeps)
     ∧ consecutiveFailures (snd r) = 0
     ∧ ipBannedUntil (snd r) = 0
     ∧ backoffUntil (snd r) = 0
     ∧ circuitBreakerOpenUntil (snd r) = 0).
Proof.
  intros Hpos banned r. subst r banned.
  unfold waitForRateLimit, shouldBlockRequest, handle418Ban.
  fold (banDuration banDurationSeconds).
  set (d := banDuration banDurationSeconds) in *. simpl.
  split; intros Hnow.
  - rewrite (decide_True (P := t + d > now)) by lia. done.
  - rewrite (decide_False (P := t + d > now)) by lia.
    rewrite (decide_True (P := t + d > 0 ∧ t + d <= now)) by lia. simpl.
    do 2 (rewrite (decide_False (P := 0 > now)) by lia; simpl).
    split; [by eexists|done].
Qed.

(** X4.  After a 429 answer handled at [t], with no ban on record: every
    call made during the next 60 s is rejected as backing off and changes
    nothing; a call made once the 60 s are over is let through unless the
    circuit breaker is open.  The 429 itself does not count as a failure. *)
Theorem handle429Warning_life_cycle (t now : Z) (endpoint : string) (s : State) :
  ipBannedUntil s = 0 →
  0 ≤ now →
  let warned := handle429Warning t s in
  let r := waitForRateLimit cfg endpoint now warned in
  consecutiveFailures warned = consecutiveFailures s
  ∧ (now < t + 60000 →
       r = (Rejected {| errExchange := exchangeName cfg;
                        errWindow := Backoff429;
                        errRemainingSeconds := Num.ceilSeconds (t + 60000 - now) |},
            warned))
  ∧ (t + 60000 ≤ now → circuitBreakerOpenUntil s ≤ now →
       ∃ sleeps, fst r = Granted sleeps).
Proof.
  intros Hban Hclock warned r. subst r warned.
  unfold waitForRateLimit, shouldBlockRequest, handle429Warning,
    BACKOFF_429_DURATION. simpl. rewrite Hban.
  rewrite (decide_False (P := 0 > now)) by lia.
  rewrite (decide_False (P := 0 > 0 ∧ 0 <= now)) by lia. simpl.
  split; [done|].
  split.
  - intros Hnow. rewrite (decide_True (P := t + 60000 > now)) by lia. done.
  - intros Hnow Hbr. rewrite (decide_False (P := t + 60000 > now)) by lia.
    rewrite (decide_False (P := circuitBreakerOpenUntil s > now)) by lia.
    case_decide; simpl; by eexists.
Qed.

(** [recordFailure] once for each of [times], in order. *)
Definition failuresAt (times : list Z) (s : State) : State :=
  foldl (λ s t, recordFailure cfg t s) s times.

Lemma failuresAt_snoc times t s :
  failuresAt (times ++ [t]) s = recordFailure cfg t (failuresAt times s).
Proof. unfold failuresAt. by rewrite foldl_app. Qed.

Lemma failuresAt_count times s :
  consecutiveFailures (failuresAt times s)
  = consecutiveFailures s + Z.of_nat (length times).
Proof.
  induction times as [|t times IH] using rev_ind; [simpl; lia|].
  rewrite failuresAt_snoc, length_app. simpl. rewrite IH. lia.
Qed.

(** X5.  A run of failures with no success in between: the breaker
    deadline is left alone while the failure count stays under
    [circuitBreakerThreshold]; every failure that brings the count to the
    threshold or above sets the deadline to [circuitBreakerTimeout] after
    that failure, so the window slides with each further failure.  A
    success zeroes the count but does not close a breaker that is open. *)
Theorem circuit_breaker_threshold (times : list Z) (s : State) :
  let s' := failuresAt times s in
  let n := consecutiveFailures s + Z.of_nat (length times) in
  consecutiveFailures s' = n
  ∧ (n < circuitBreakerThreshold cfg →
       circuitBreakerOpenUntil s' = circuitBreakerOpenUntil s)
  ∧ (∀ t, last times = Some t → circuitBreakerThreshold cfg ≤ n →
       circuitBreakerOpenUntil s' = t + circuitBreakerTimeout cfg)
  ∧ (0 ≤ consecutiveFailures s → consecutiveFailures (recordSuccess s') = 0)
  ∧ circuitBreakerOpenUntil (recordSuccess s') = circuitBreakerOpenUntil s'.
Proof.
  simpl. split; [apply failuresAt_count|].
  split; [|split; [|split]].
  - induction times as [|t times IH] using rev_ind; [done|].
    rewrite failuresAt_snoc, length_app. simpl. intros Hn.
    rewrite failuresAt_count.
    rewrite decide_False by lia. apply IH. lia.
  - intros t Hlast Hn.
    destruct times as [|t0 times] using rev_ind; [done|].
    rewrite last_snoc in Hlast. injection Hlast as ->.
    rewrite failuresAt_snoc. simpl. rewrite failuresAt_count.
    rewrite length_app in Hn. simpl in Hn.
    rewrite decide_True by lia. done.
  - intros Hcount. pose proof (failuresAt_count times s) as Hn.
    unfold recordSuccess. case_decide; simpl; lia.
  - unfold recordSuccess. case_decide; done.
Qed.

End PenaltyLifeCycle.

(** *** Concrete sessions *)

(** Five calls in a row against a limit of three per minute. *)
Definition burst : list Z := [0; 10; 10; 10; 10].

Lemma runCalls_withinLimit_witness :
  1 ≤ RateLimit.maxRequestsPerMinute demoConfig
  ∧ Forall (λ gap, 0 ≤ gap) burst
  ∧ withinLimit demoConfig T0 RateLimit.initial
  ∧ T0 ≤ fst (runCalls demoConfig T0 burst RateLimit.initial)
  ∧ withinLimit demoConfig (fst (runCalls demoConfig T0 burst RateLimit.initial))
      (snd (runCalls demoConfig T0 burst RateLimit.initial)).
Proof.
  assert (H1 : 1 ≤ RateLimit.maxRequestsPerMinute demoConfig) by (simpl; lia).
  assert (H2 : Forall (λ gap, 0 ≤ gap) burst) by (repeat constructor; lia).
  assert (H3 : withinLimit demoConfig T0 RateLimit.initial).
  { split; [split; [constructor|]|simpl; lia].
    intros t Ht. simpl in Ht. by apply elem_of_nil in Ht. }
  split; [exact H1|]. split; [exact H2|]. split; [exact H3|].
  exact (runCalls_withinLimit demoConfig T0 burst RateLimit.initial H1 H2 H3).
Defined.

(** The first three calls of the burst are recorded 100 ms apart; the
    fourth is held back until the first one is more than 60.1 s old, and
    by then the fifth finds room in the window. *)
Example burst_is_spread_over_the_window :
  RateLimit.requestTimestamps (snd (runCalls demoConfig T0 [0; 10; 10] RateLimit.initial))
  = [T0; T0 + 100; T0 + 200]
  ∧ RateLimit.requestTimestamps (snd (runCalls demoConfig T0 burst RateLimit.initial))
    = [T0 + 60190; T0 + 60290]
  ∧ fst (runCalls demoConfig T0 burst RateLimit.initial) = T0 + 60290.
Proof. vm_compute. repeat split; reflexivity. Qed.

Lemma waitForRateLimit_spacing_witness :
  fst (RateLimit.waitForRateLimit demoConfig "ticker" (T0 + 230) afterThreeCalls)
    = RateLimit.Granted [59870; 70]
  ∧ RateLimit.lastRequestTime
      (snd (RateLimit.waitForRateLimit demoConfig "ticker" (T0 + 230) afterThreeCalls))
    = T0 + 230 + RateLimit.sumZ [59870; 70]
  ∧ RateLimit.lastRequestTime afterThreeCalls
    + RateLimit.minRequestDelay demoConfig
    ≤ RateLimit.lastRequestTime
        (snd (RateLimit.waitForRateLimit demoConfig "ticker" (T0 + 230) afterThreeCalls))
  ∧ T0 + 230
    ≤ RateLimit.lastRequestTime
        (snd (RateLimit.waitForRateLimit demoConfig "ticker" (T0 + 230) afterThreeCalls))
  ∧ last (RateLimit.requestTimestamps
            (snd (RateLimit.waitForRateLimit demoConfig "ticker" (T0 + 230)
                    afterThreeCalls)))
    = Some (RateLimit.lastRequestTime
              (snd (RateLimit.waitForRateLimit demoConfig "ticker" (T0 + 230)
                      afterThreeCalls))).
Proof.
  assert (H : fst (RateLimit.waitForRateLimit demoConfig "ticker" (T0 + 230)
                     afterThreeCalls) = RateLimit.Granted [59870; 70])
    by (vm_compute; reflexivity).
  split; [exact H|].
  exact (waitForRateLimit_spacing demoConfig "ticker" (T0 + 230) afterThreeCalls
           [59870; 70] H).
Defined.

Lemma handle418Ban_life_cycle_witness :
  0 < T0 + banDuration (Some 240)
  ∧ (T0 + 1000 < T0 + banDuration (Some 240) →
       RateLimit.waitForRateLimit demoConfig "ticker" (T0 + 1000) bannedState
       = (RateLimit.Rejected
            {| RateLimit.errExchange := RateLimit.exchangeName demoConfig;
               RateLimit.errWindow := RateLimit.IpBan;
               RateLimit.errRemainingSeconds :=
                 Num.ceilSeconds (T0 + banDuration (Some 240) - (T0 + 1000)) |},
          bannedState))
  ∧ (T0 + banDuration (Some 240) ≤ T0 + 1000 →
       (∃ sleeps,
          fst (RateLimit.waitForRateLimit demoConfig "ticker" (T0 + 1000) bannedState)
          = RateLimit.Granted sleeps)
       ∧ RateLimit.consecutiveFailures
           (snd (RateLimit.waitForRateLimit demoConfig "ticker" (T0 + 1000) bannedState))
         = 0
       ∧ RateLimit.ipBannedUntil
           (snd (RateLimit.waitForRateLimit demoConfig "ticker" (T0 + 1000) bannedState))
         = 0
       ∧ RateLimit.backoffUntil
           (snd (RateLimit.waitForRateLimit demoConfig "ticker" (T0 + 1000) bannedState))
         = 0
       ∧ RateLimit.circuitBreakerOpenUntil
           (snd (RateLimit.waitForRateLimit demoConfig "ticker" (T0 + 1000) bannedState))
         = 0).
Proof.
  assert (H : 0 < T0 + banDuration (Some 240)) by (vm_compute; reflexivity).
  split; [exact H|].
  exact (handle418Ban_life_cycle demoConfig (Some 240) T0 (T0 + 1000) "ticker"
           RateLimit.initial H).
Defined.

(** A 240 s ban with the failure count at the threshold and a back-off
    running: the call made when the ban is over starts from a clean
    slate. *)
Example ban_expiry_wipes_all_penalties :
  let s := RateLimit.handle429Warning (T0 + 200000) bannedState in
  let r := RateLimit.waitForRateLimit demoConfig "ticker" (T0 + 240000) s in
  RateLimit.consecutiveFailures s = 5
  ∧ T0 + 240000 < RateLimit.backoffUntil s
  ∧ fst r = RateLimit.Granted []
  ∧ RateLimit.consecutiveFailures (snd r) = 0
  ∧ RateLimit.backoffUntil (snd r) = 0.
Proof. vm_compute. repeat split; reflexivity. Qed.

Lemma handle429Warning_life_cycle_witness :
  RateLimit.ipBannedUntil RateLimit.initial = 0
  ∧ 0 ≤ T0 + 59999
  ∧ RateLimit.waitForRateLimit demoConfig "ticker" (T0 + 59999)
      (RateLimit.handle429Warning T0 RateLimit.initial)
    = (RateLimit.Rejected
         {| RateLimit.errExchange := "gate";
            RateLimit.errWindow := RateLimit.Backoff429;
            RateLimit.errRemainingSeconds := 1 |},
       RateLimit.handle429Warning T0 RateLimit.initial).
Proof.
  assert (H1 : RateLimit.ipBannedUntil RateLimit.initial = 0) by reflexivity.
  assert (H2 : 0 ≤ T0 + 59999) by (vm_compute; discriminate).
  split; [exact H1|]. split; [exact H2|].
  destruct (handle429Warning_life_cycle demoConfig T0 (T0 + 59999) "ticker"
              RateLimit.initial H1 H2) as (_ & Hin & _).
  apply Hin. vm_compute. reflexivity.
Defined.

(** Five failures in a row against a threshold of five: the fourth leaves
    the breaker closed, the fifth opens it for a minute, and a success
    afterwards does not close it. *)
Example fifth_failure_opens_the_breaker :
  let times := [T0; T0 + 1; T0 + 2; T0 + 3] in
  let s4 := failuresAt demoConfig times RateLimit.initial in
  let s5 := RateLimit.recordFailure demoConfig (T0 + 4) s4 in
  RateLimit.circuitBreakerOpenUntil s4 = 0
  ∧ RateLimit.circuitBreakerOpenUntil s5 = T0 + 60004
  ∧ RateLimit.circuitBreakerOpenUntil (RateLimit.recordSuccess s5) = T0 + 60004
  ∧ (∃ e, fst (RateLimit.waitForRateLimit demoConfig "ticker" (T0 + 5)
                 (RateLimit.recordSuccess s5)) = RateLimit.Rejected e).
Proof. vm_compute. repeat split; try reflexivity. by eexists. Qed.

(** * Further properties of the fee service *)

Section FeeCacheProps.
Import Fee.
Local Open Scope Qc_scope.

Lemma totalFee_from (acc : Qc) (trades : list TradeRecord) :
  0 ≤ acc → 0 ≤ foldl (λ sum trade, sum + Num.abs (tradeFee trade)) acc trades.
Proof.
  revert acc. induction trades as [|t trades IH]; intros acc Hacc; [done|].
  simpl. apply IH.
  replace 0 with (0 + 0) by ring.
  apply Qcplus_le_compat; [done|apply abs_nonneg].
Qed.

(** X6.  A fee found on the exchange is served from the cache afterwards:
    when a lookup returns a result, the cache holds that result under the
    order id with a stamp less than the TTL old, the entries of other
    orders are as before, and until that stamp is 300 s old every lookup
    for the order returns the same result and leaves the cache alone,
    whatever the exchange would answer and whatever contract or start
    time is passed.  A lookup that returns nothing caches nothing. *)
Theorem getActualFeeFromTrade_caches (cl : Client) (orderId contract : string)
    (startTime : option Z) (now : Z) (feeCache : gmap string CacheEntry) :
  let r := getActualFeeFromTrade cl orderId contract startTime now feeCache in
  (fst r = None → snd r = feeCache)
  ∧ (∀ found, fst r = Some found →
       ∃ stamp,
         snd r !! orderId = Some {| result := found; timestamp := stamp |}
         ∧ (now - stamp < CACHE_TTL)%Z
         ∧ (feeCache !! orderId = None → stamp = now)
         ∧ (∀ other, other ≠ orderId → snd r !! other = feeCache !! other)
         ∧ ∀ cl' contract' startTime' later,
             (later - stamp < CACHE_TTL)%Z →
             getActualFeeFromTrade cl' orderId contract' startTime' later (snd r)
             = (Some found, snd r)).
Proof.
  intros r. subst r. unfold getActualFeeFromTrade.
  assert (Hmiss : ∀ trades : option (list TradeRecord),
    let r := match trades with
             | None => (None, feeCache)
             | Some trades =>
                 let matchedTrades := filter (λ t, matches orderId t) trades in
                 if decide (length matchedTrades = 0%nat) then (None, feeCache)
                 else
                   let r := {| fee := totalFee matchedTrades;
                               source := actual; rate := None |} in
                   (Some r, <[orderId := {| result := r; timestamp := now |}]> feeCache)
             end in
    (fst r = None → snd r = feeCache)
    ∧ (∀ found, fst r = Some found →
       ∃ stamp,
         snd r !! orderId = Some {| result := found; timestamp := stamp |}
         ∧ (now - stamp < CACHE_TTL)%Z
         ∧ (feeCache !! orderId = None → stamp = now)
         ∧ (∀ other, other ≠ orderId → snd r !! other = feeCache !! other)
         ∧ ∀ cl' contract' startTime' later,
             (later - stamp < CACHE_TTL)%Z →
             getActualFeeFromTrade cl' orderId contract' startTime' later (snd r)
             = (Some found, snd r))).
  { intros [trades|]; cbn zeta; [|done].
    case_decide; cbn [fst snd]; [done|].
    split; [done|]. intros found [= <-]. exists now.
    rewrite lookup_insert_eq. split; [done|]. split; [unfold CACHE_TTL; lia|].
    split; [done|].
    split; [intros other Hother; by rewrite lookup_insert_ne|].
    intros cl' contract' startTime' later Hlater.
    unfold getActualFeeFromTrade.
    rewrite lookup_insert_eq. cbn [timestamp result]. by rewrite decide_True. }
  destruct (feeCache !! orderId) as [[res stamp]|] eqn:Hc; cbn [timestamp result].
  - destruct (decide (now - stamp < CACHE_TTL)%Z) as [Hfresh|Hstale]; cbn [fst snd].
    + split; [done|]. intros found [= <-]. exists stamp.
      split; [done|]. split; [done|]. split; [done|]. split; [done|].
      intros cl' contract' startTime' later Hlater.
      unfold getActualFeeFromTrade.
      rewrite Hc. cbn [timestamp result]. by rewrite decide_True.
    + destruct (Hmiss (getMyTrades cl contract 100%Z
                         match startTime with
                         | Some t => if decide (t = 0%Z)
                                     then (now - 24 * 60 * 60 * 1000)%Z else t
                         | None => (now - 24 * 60 * 60 * 1000)%Z
                         end)) as [H1 H2].
      split; [exact H1|].
      intros found Hfound. destruct (H2 found Hfound) as (st & Ha & Hb & Hd & He & Hf).
      exists st. split; [done|]. split; [done|]. split; [done|]. done.
  - destruct (Hmiss (getMyTrades cl contract 100%Z
                       match startTime with
                       | Some t => if decide (t = 0%Z)
                                   then (now - 24 * 60 * 60 * 1000)%Z else t
                       | None => (now - 24 * 60 * 60 * 1000)%Z
                       end)) as [H1 H2].
    split; [exact H1|].
    intros found Hfound. destruct (H2 found Hfound) as (st & Ha & Hb & Hd & He & Hf).
    exists st. split; [done|]. split; [done|]. split; [done|]. done.
Qed.

(** X7.  [cleanupCache] keeps exactly the entries that are at most 300 s
    old (an entry of exactly that age stays, although a lookup no longer
    uses it), and it is invisible to the lookups made afterwards: they
    return what they would have returned without it. *)
Theorem cleanupCache_neutral (cl : Client) (orderId contract : string)
    (startTime : option Z) (now later : Z) (feeCache : gmap string CacheEntry) :
  (now ≤ later)%Z →
  (∀ o e, cleanupCache now feeCache !! o = Some e
          ↔ feeCache !! o = Some e ∧ (now - timestamp e ≤ CACHE_TTL)%Z)
  ∧ fst (getActualFeeFromTrade cl orderId contract startTime later
           (cleanupCache now feeCache))
    = fst (getActualFeeFromTrade cl orderId contract startTime later feeCache).
Proof.
  intros Hle.
  assert (Hspec : ∀ o e, cleanupCache now feeCache !! o = Some e
            ↔ feeCache !! o = Some e ∧ (now - timestamp e ≤ CACHE_TTL)%Z).
  { intros o e. unfold cleanupCache. rewrite map_lookup_filter_Some. simpl.
    split; intros [H1 H2]; (split; [done|lia]). }
  split; [done|].
  unfold getActualFeeFromTrade.
  destruct (feeCache !! orderId) as [e|] eqn:Hc.
  - destruct (decide (now - timestamp e ≤ CACHE_TTL)%Z) as [Hkeep|Hdrop].
    + rewrite (proj2 (Hspec orderId e)) by done.
      case_decide; simpl; [done|].
      destruct (getMyTrades cl contract 100%Z _); simpl; [|done].
      case_decide; done.
    + assert (Hgone : cleanupCache now feeCache !! orderId = None).
      { destruct (cleanupCache now feeCache !! orderId) as [e'|] eqn:He'; [|done].
        apply Hspec in He' as [He' Hage]. rewrite Hc in He'.
        injection He' as <-. lia. }
      rewrite Hgone. rewrite decide_False by lia.
      destruct (getMyTrades cl contract 100%Z _); simpl; [|done].
      case_decide; done.
  - assert (Hgone : cleanupCache now feeCache !! orderId = None).
    { destruct (cleanupCache now feeCache !! orderId) as [e'|] eqn:He'; [|done].
      apply Hspec in He' as [He' _]. by rewrite Hc in He'. }
    rewrite Hgone.
    destruct (getMyTrades cl contract 100%Z _); simpl; [|done].
    case_decide; done.
Qed.

(** X8.  [getFee] never returns a negative fee, whatever the fills, the
    cache and the sign of the notional; a fee looked up on the exchange
    is the sum of the absolute fees of the fills, so a negative fill fee
    (a rebate) is counted as a cost.  Without an order id ([null] or the
    empty string) the result is the estimate, and neither the exchange is
    asked nor the cache touched. *)
Theorem getFee_never_negative (cl : Client) (orderId : option string)
    (contract : string) (notionalValue : Qc) (isMaker : bool)
    (startTime : option Z) (now : Z) (feeCache : gmap string CacheEntry) :
  0 ≤ fee (fst (getFee cl orderId contract notionalValue isMaker startTime now
                  feeCache))
  ∧ (∀ trades, 0 ≤ totalFee trades)
  ∧ (orderId = None ∨ orderId = Some EmptyString →
     getFee cl orderId contract notionalValue isMaker startTime now feeCache
     = (estimateFee cl notionalValue isMaker, feeCache)).
Proof.
  split; [|split].
  - unfold getFee.
    set (attempt := match orderId with
                    | Some o => if Num.truthyStr o
                                then getActualFeeFromTrade cl o contract startTime
                                       now feeCache
                                else (None, feeCache)
                    | None => (None, feeCache)
                    end).
    destruct attempt as [[actualFee|] cache]; simpl.
    + case_decide as Hpos; simpl; [by apply Qclt_le_weak|apply abs_nonneg].
    + apply abs_nonneg.
  - intros trades. unfold totalFee. by apply totalFee_from.
  - intros [->| ->]; reflexivity.
Qed.

End FeeCacheProps.

(** *** A concrete order with two fills, one of them a rebate *)

Definition rebateClient : Fee.Client := {|
  Fee.getExchangeName := "gate";
  Fee.isTestnet := false;
  Fee.getMyTrades := λ _ _ _,
    Some [ {| Fee.tradeId := "t-7"; Fee.tradeOrderId := Some "555";
              Fee.tradeFee := Num.dec 0.3 |};
           {| Fee.tradeId := "t-8"; Fee.tradeOrderId := Some "555";
              Fee.tradeFee := (- Num.dec 0.1)%Qc |};
           {| Fee.tradeId := "t-9"; Fee.tradeOrderId := Some "556";
              Fee.tradeFee := Num.dec 5 |} ];
  Fee.FEE_RATES := λ _ _, gateRates
|}.

(** An exchange that cannot be reached. *)
Definition downClient : Fee.Client := {|
  Fee.getExchangeName := "gate";
  Fee.isTestnet := false;
  Fee.getMyTrades := λ _ _ _, None;
  Fee.FEE_RATES := λ _ _, gateRates
|}.

Definition cacheAfterLookup : gmap string Fee.CacheEntry :=
  snd (Fee.getActualFeeFromTrade rebateClient "555" "BTC_USDT" None T0 ∅).

(** The two fills of order 555 cost 0.3 + |-0.1| = 0.4; 299.999 s later
    the figure is served although the exchange is down, and 300 s later
    it is not. *)
Example cached_fee_outlives_the_exchange :
  fst (Fee.getActualFeeFromTrade rebateClient "555" "BTC_USDT" None T0 ∅)
    = Some {| Fee.fee := Num.dec 0.4; Fee.source := Fee.actual; Fee.rate := None |}
  ∧ fst (Fee.getActualFeeFromTrade downClient "555" "BTC_USDT" None (T0 + 299999)
           cacheAfterLookup)
    = Some {| Fee.fee := Num.dec 0.4; Fee.source := Fee.actual; Fee.rate := None |}
  ∧ fst (Fee.getActualFeeFromTrade downClient "555" "BTC_USDT" None (T0 + 300000)
           cacheAfterLookup)
    = None.
Proof. repeat split; by_compute. Qed.

Lemma cleanupCache_neutral_witness :
  (T0 + 300000 ≤ T0 + 300000)%Z
  ∧ Fee.cleanupCache (T0 + 300000) cacheAfterLookup !! "555" = cacheAfterLookup !! "555"
  ∧ Fee.cleanupCache (T0 + 300001) cacheAfterLookup !! "555" = None
  ∧ fst (Fee.getActualFeeFromTrade downClient "555" "BTC_USDT" None (T0 + 300000)
           (Fee.cleanupCache (T0 + 300000) cacheAfterLookup))
    = fst (Fee.getActualFeeFromTrade downClient "555" "BTC_USDT" None (T0 + 300000)
             cacheAfterLookup).
Proof.
  assert (H : (T0 + 300000 ≤ T0 + 300000)%Z) by lia.
  split; [exact H|]. split; [by_compute|]. split; [by_compute|].
  exact (proj2 (cleanupCache_neutral downClient "555" "BTC_USDT" None
                  (T0 + 300000) (T0 + 300000) cacheAfterLookup H)).
Defined.

(** * Further properties of the reconciler *)

Section ReconcilerRows.
Import Exchange Resolver.

Variable fails : nat → bool.
Variable exOf : InconsistentState → ExchangeClient.
Variable timestamp : Z.

(** The pass as it stands after a failed attempt on [state]. *)
Definition failedAttempt (p : Pass) (state : InconsistentState) (w : World) : Pass :=
  {| world := w;
     tracker := fst (recordFailure (id state) (tracker p));
     alerts := alerts p ++ snd (recordFailure (id state) (tracker p)) |}.

Lemma processRow_failure p state w :
  (let '(t, a) := recordFailure (id state) (tracker p) in
   {| world := w; tracker := t; alerts := alerts p ++ a |})
  = failedAttempt p state w.
Proof. unfold failedAttempt. by destruct (recordFailure (id state) (tracker p)). Qed.

(** X9.  Handling one row, on a connection without an open transaction,
    ends in one of four ways, whatever statements fail: (1) the attempt
    failed and the database is exactly as before; (2) the attempt failed
    because the ROLLBACK itself failed, and then the transaction is still
    open over the tables as they were, nothing being committed; (3) the
    four writes are committed but the UPDATE of the row failed, so the
    row stays unresolved and a failure is counted; (4) the four writes are
    committed and the row is marked resolved.  In no case is a part of
    the four writes committed. *)
Theorem processRow_outcomes (p : Pass) (state : InconsistentState) :
  snapshot (db (world p)) = None →
  let p' := processRow fails exOf timestamp p state in
  let st := store (db (world p)) in
  (p' = failedAttempt p state (world p') ∧ db (world p') = db (world p))
  ∨ (p' = failedAttempt p state (world p')
     ∧ snapshot (db (world p')) = Some st
     ∧ ∃ n, executed (world p') = S n ∧ fails n = true)
  ∨ (∃ f, p' = failedAttempt p state (world p')
          ∧ db (world p') = {| store := repairedStore timestamp state f st;
                               snapshot := None |}
          ∧ ∃ n, executed (world p') = S n ∧ fails n = true)
  ∨ (∃ f, db (world p')
          = {| store := markResolved timestamp (id state)
                          (repairedStore timestamp state f st);
               snapshot := None |}
          ∧ tracker p' = recordSuccess (id state) (tracker p)
          ∧ alerts p' = alerts p).
Proof.
  intros Hsnap p' st. subst p' st. unfold processRow. cbv beta zeta.
  assert (Hclose : ∀ w', resolveState fails (exOf state) timestamp state (world p)
                         = (false, w') →
            db w' = db (world p)
            ∨ (snapshot (db w') = Some (store (db (world p)))
               ∧ ∃ n, executed w' = S n ∧ fails n = true)).
  { intros w'. unfold resolveState.
    repeat case_decide; try (intros [= <-]; by left);
      apply resolveClosePosition_false; done. }
  assert (Hdone : ∀ w', resolveState fails (exOf state) timestamp state (world p)
                        = (true, w') →
            ∃ f, db w' = {| store := repairedStore timestamp state f
                                       (store (db (world p)));
                            snapshot := None |}).
  { intros w'. unfold resolveState.
    repeat case_decide; try done; intros Hres;
      destruct (resolveClosePosition_true _ _ _ _ _ _ Hres)
        as (fill & f & w1 & _ & _ & Hdb & _); by exists f. }
  destruct (resolveState fails (exOf state) timestamp state (world p))
    as [[|] w1] eqn:Hres.
  - destruct (Hdone w1 eq_refl) as [f Hdb].
    unfold execute. destruct (fails (executed w1)) eqn:Hf.
    + rewrite processRow_failure.
      right. right. left. exists f. simpl. split; [done|]. split; [done|].
      by exists (executed w1).
    + simpl. rewrite Hdb. simpl. right. right. right. exists f. done.
  - rewrite processRow_failure. destruct (Hclose w1 eq_refl) as [Hdb|[Hopen Hn]].
    + left. done.
    + right. left. done.
Qed.

(** X10.  A row is declined without a single statement being sent to the
    database when its operation is neither [close_position] nor
    [price_order_triggered], when the position query fails, when the
    exchange still shows a position for the contract, when the fills
    cannot be read, or when no fill carries the row's order id: the world
    is untouched and the attempt is counted as a failure of the row. *)
Theorem processRow_declines (p : Pass) (state : InconsistentState) :
  let ex := exOf state in
  let contract := normalizeContract ex (symbol state) in
  (operation state ≠ "close_position"%string
   ∧ operation state ≠ "price_order_triggered"%string)
  ∨ getPositions ex = None
  ∨ (∃ ps, getPositions ex = Some ps ∧ positionExists contract ps = true)
  ∨ getMyTrades ex contract 100 = None
  ∨ (∃ fills, getMyTrades ex contract 100 = Some fills
              ∧ ∀ fill, fill ∈ fills → isCloseTrade (exchange_order_id state) fill = false) →
  processRow fails exOf timestamp p state = failedAttempt p state (world p).
Proof.
  intros ex contract Hcase. subst ex contract. unfold processRow. cbv beta zeta.
  assert (Hres : resolveState fails (exOf state) timestamp state (world p)
                 = (false, world p)); [|by rewrite Hres, processRow_failure].
  unfold resolveState.
  destruct Hcase as [[H1 H2]|Hcase]; [by rewrite !decide_False|].
  assert (Hprep : resolveClosePosition fails (exOf state) timestamp state (world p)
                  = (false, world p)); [|by repeat case_decide].
  unfold resolveClosePosition, prepareClose.
  destruct Hcase as [->|[(ps & -> & ->)|Hcase]]; [done|done|].
  destruct (getPositions (exOf state)) as [ps|]; [|done].
  destruct (positionExists _ ps); [done|].
  destruct Hcase as [->|(fills & -> & Hnone)]; [done|].
  assert (Hfind : find (isCloseTrade (exchange_order_id state)) fills = None).
  { clear -Hnone. induction fills as [|x fills IH]; [done|]. simpl.
    rewrite (Hnone x) by left. apply IH. intros fill Hin. apply Hnone. by right. }
  by rewrite Hfind.
Qed.

End ReconcilerRows.

Section ReconcilerStore.
Import Exchange Resolver.

Variable timestamp : Z.

(** X11.  What the four writes of a repair do to the tables: no position
    row of the row's symbol and side is left and the other position rows
    stay; no trigger order of that symbol and side is left active (those
    that were are cancelled, stamped with the repair time), every other
    trigger order is as before and none is added or dropped; exactly one
    trade row and one close event are appended; the inconsistent_states
    table is not written. *)
Theorem repairedStore_effect (state : InconsistentState) (f : CloseFigures)
    (st : Store) :
  let st' := repairedStore timestamp state f st in
  let hit sym sd := sym = symbol state ∧ sd = side state in
  (∀ row, row ∈ positions st'
          ↔ row ∈ positions st ∧ ¬ hit (positionSymbol row) (positionSide row))
  ∧ (∀ o, o ∈ price_orders st' →
          hit (priceOrderSymbol o) (priceOrderSide o) → priceOrderStatus o ≠ active)
  ∧ (∀ i o, price_orders st !! i = Some o →
       price_orders st' !! i =
         Some (if decide (hit (priceOrderSymbol o) (priceOrderSide o)
                          ∧ priceOrderStatus o = active)
               then {| priceOrderId := priceOrderId o;
                       priceOrderSymbol := priceOrderSymbol o;
                       priceOrderSide := priceOrderSide o;
                       priceOrderStatus := cancelled;
                       priceOrderUpdatedAt := timestamp |}
               else o))
  ∧ length (price_orders st') = length (price_orders st)
  ∧ trades st' = trades st ++ [closeTradeRow state f timestamp]
  ∧ position_close_events st'
    = position_close_events st ++ [closeEventRow state f timestamp]
  ∧ inconsistent_states st' = inconsistent_states st.
Proof.
  simpl. split; [|split; [|split; [|split]]].
  - intros row. rewrite list_elem_of_filter. tauto.
  - intros o Hin [Hsym Hside] Hact.
    apply list_elem_of_fmap in Hin as (o0 & -> & _).
    unfold cancelRow in *. case_decide as Hd; simpl in *; [done|].
    apply Hd. done.
  - intros i o Hi. rewrite list_lookup_fmap, Hi. simpl. unfold cancelRow.
    f_equal. repeat case_decide; try done; tauto.
  - by rewrite length_fmap.
  - done.
Qed.

Lemma latestOpenTrade_from (sym : string) (sd : Side) (rows : list TradeRow)
    (best : option TradeRow) :
  let wanted r := tradeSymbol r = sym ∧ tradeSide r = sd ∧ tradeType r = open in
  let pick := λ best r,
    if decide (wanted r)
    then match best with
         | None => Some r
         | Some b => if decide (tradeTimestamp b < tradeTimestamp r)
                     then Some r else Some b
         end
    else best in
  match foldl pick best rows with
  | Some r =>
      (Some r = best ∨ (r ∈ rows ∧ wanted r))
      ∧ (∀ b, best = Some b → tradeTimestamp b ≤ tradeTimestamp r)
      ∧ (∀ r', r' ∈ rows → wanted r' → tradeTimestamp r' ≤ tradeTimestamp r)
  | None => best = None ∧ ∀ r', r' ∈ rows → ¬ wanted r'
  end.
Proof.
  intros wanted pick. revert best.
  induction rows as [|x rows IH]; intros best; simpl.
  - destruct best as [b|].
    + split; [by left|]. split; [by intros ? [= ->]|].
      intros r' Hin. by apply elem_of_nil in Hin.
    + split; [done|]. intros r' Hin. by apply elem_of_nil in Hin.
  - specialize (IH (pick best x)).
    destruct (foldl pick (pick best x) rows) as [r|].
    + destruct IH as (Hwhere & Hbest & Hmax).
      assert (Hx : wanted x → tradeTimestamp x ≤ tradeTimestamp r).
      { intros Hw. unfold pick in Hbest. rewrite decide_True in Hbest by done.
        destruct best as [b|].
        - case_decide; [by apply Hbest|].
          specialize (Hbest b eq_refl). lia.
        - by apply Hbest. }
      split; [|split].
      * destruct Hwhere as [Heq|[Hin Hw]]; [|right; split; [by right|done]].
        unfold pick in Heq. case_decide as Hw; [|by left].
        destruct best as [b|].
        -- case_decide; injection Heq as ->; [right; split; [by left|done]|by left].
        -- injection Heq as ->. right. split; [by left|done].
      * intros b ->. unfold pick in Hbest.
        case_decide as Hw; [|by apply Hbest].
        case_decide as Hlt; [|by apply Hbest].
        specialize (Hbest x eq_refl). lia.
      * intros r' Hin Hw. apply elem_of_cons in Hin as [->|Hin]; [by apply Hx|].
        by apply Hmax.
    + destruct IH as [Hnone Hno]. unfold pick in Hnone.
      case_decide as Hw.
      * destruct best as [b|]; [case_decide; done|done].
      * split; [done|]. intros r' Hin.
        apply elem_of_cons in Hin as [->|Hin]; [done|]. by apply Hno.
Qed.

(** X12.  The open trade the repair starts from is, among the trade rows
    of type [open] with the row's symbol and side, one with the greatest
    timestamp; there is none exactly when the table has no such row (and
    then the repair is abandoned). *)
Theorem latestOpenTrade_spec (sym : string) (sd : Side) (st : Store) :
  let wanted r := tradeSymbol r = sym ∧ tradeSide r = sd ∧ tradeType r = open in
  match latestOpenTrade sym sd st with
  | Some r =>
      r ∈ trades st ∧ wanted r
      ∧ ∀ r', r' ∈ trades st → wanted r' → tradeTimestamp r' ≤ tradeTimestamp r
  | None => ∀ r', r' ∈ trades st → ¬ wanted r'
  end.
Proof.
  intros wanted.
  pose proof (latestOpenTrade_from sym sd (trades st) None) as H.
  simpl in H. unfold latestOpenTrade.
  destruct (foldl _ None (trades st)) as [r|].
  - destruct H as ([Heq|[Hin Hw]] & _ & Hmax); [done|]. done.
  - by destruct H.
Qed.

End ReconcilerStore.

Section ReconcilerPass.
Import Exchange Resolver.

Variable fails : nat → bool.
Variable exOf : InconsistentState → ExchangeClient.
Variable timestamp : Z.

#[local] Instance createdNoLater_total : Total createdNoLater.
Proof. intros a b. unfold createdNoLater. lia. Qed.

#[local] Instance createdNoLater_trans : Transitive createdNoLater.
Proof. intros a b c. unfold createdNoLater. lia. Qed.

(** The rows of the table that are not resolved yet. *)
Definition pendingRows (st : Store) : list InconsistentState :=
  filter (λ r, resolved r = 0) (inconsistent_states st).

(** X13.  A pass reads the unresolved rows once, with one query, and
    handles each of them exactly once, oldest first: the rows it folds
    over are a permutation of the unresolved rows of the table, in
    ascending order of [created_at].  The check of the overall failure
    run is made only after a pass that had rows to handle: when the query
    fails or finds no unresolved row, the pass changes nothing and sends
    no alert, whatever the tracker holds. *)
Theorem pass_handles_rows_oldest_first (w : World) (t : Tracker) :
  let w1 := {| db := db w; executed := S (executed w) |} in
  let start := {| world := w1; tracker := t; alerts := [] |} in
  let rows := unresolvedRows (store (db w)) in
  rows ≡ₚ pendingRows (store (db w))
  ∧ StronglySorted createdNoLater rows
  ∧ (fails (executed w) = true ∨ pendingRows (store (db w)) = [] →
       resolveInconsistentStates fails exOf timestamp w t = start)
  ∧ (fails (executed w) = false → pendingRows (store (db w)) ≠ [] →
       let p := foldl (processRow fails exOf timestamp) start rows in
       resolveInconsistentStates fails exOf timestamp w t
       = {| world := world p; tracker := tracker p;
            alerts := alerts p ++ checkOverallFailures (tracker p) |}).
Proof.
  simpl.
  assert (Hperm : unresolvedRows (store (db w)) ≡ₚ pendingRows (store (db w)))
    by apply merge_sort_Permutation.
  split; [exact Hperm|].
  split; [apply (StronglySorted_merge_sort _)|].
  unfold resolveInconsistentStates, select.
  split.
  - intros [Hf|Hnone]; [by rewrite Hf|].
    destruct (fails (executed w)); [done|].
    rewrite Hnone in Hperm. apply Permutation_nil_r in Hperm. by rewrite Hperm.
  - intros Hf Hsome. rewrite Hf.
    destruct (unresolvedRows (store (db w))) as [|r rows] eqn:Hrows; [|done].
    symmetry in Hperm. apply Permutation_nil_r in Hperm. done.
Qed.

(** X14.  A success on a row forgets the row's failure count and ends the
    run of consecutive failures: after it, the n-th failure of the row
    in a row raises the per-row alert again only from the fifth on, with
    the counts starting from one. *)
Theorem success_restarts_the_count (stateId : Z) (t : Tracker) (n : nat) :
  let t0 := recordSuccess stateId t in
  consecutiveFailures t0 = 0%nat
  ∧ failedStates t0 !! stateId = None
  ∧ (∀ other, other ≠ stateId → failedStates t0 !! other = failedStates t !! other)
  ∧ snd (failTimes (S n) stateId t0)
    = (if decide (5 ≤ S n)%nat
       then [ {| level := ERROR; title := RepairKeepsFailing;
                 details := RowDetails stateId (S n) (S n) |} ]
       else []).
Proof.
  simpl. split; [done|].
  assert (Hnone : failedStates (recordSuccess stateId t) !! stateId = None)
    by apply lookup_delete_eq.
  split; [exact Hnone|].
  split; [intros other Hother; by apply lookup_delete_ne|].
  destruct (failTimes_count n stateId _ Hnone) as [Hc Hf].
  unfold recordFailure. simpl in *. rewrite Hc, Hf.
  replace (n + 1)%nat with (S n) by lia. done.
Qed.

End ReconcilerPass.

(** *** The ETH scenario again *)

Lemma processRow_outcomes_witness :
  let p' := Resolver.processRow (λ k, bool_decide (k = 7%nat)) (λ _, ethExchange)
              (T0 + 600000) ethPass ethState in
  Resolver.snapshot (Resolver.db (Resolver.world ethPass)) = None
  ∧ (p' = failedAttempt ethPass ethState (Resolver.world p')
     ∧ Resolver.db (Resolver.world p') = Resolver.db (Resolver.world ethPass)
     ∨ p' = failedAttempt ethPass ethState (Resolver.world p')
       ∧ Resolver.snapshot (Resolver.db (Resolver.world p'))
         = Some (Resolver.store (Resolver.db (Resolver.world ethPass)))
       ∧ (∃ n, Resolver.executed (Resolver.world p') = S n
               ∧ bool_decide (n = 7%nat) = true)
     ∨ (∃ f, p' = failedAttempt ethPass ethState (Resolver.world p')
             ∧ Resolver.db (Resolver.world p')
               = {| Resolver.store :=
                      repairedStore (T0 + 600000) ethState f
                        (Resolver.store (Resolver.db (Resolver.world ethPass)));
                    Resolver.snapshot := None |}
             ∧ ∃ n, Resolver.executed (Resolver.world p') = S n
                    ∧ bool_decide (n = 7%nat) = true)
     ∨ (∃ f, Resolver.db (Resolver.world p')
             = {| Resolver.store :=
                    Resolver.markResolved (T0 + 600000) (Resolver.id ethState)
                      (repairedStore (T0 + 600000) ethState f
                         (Resolver.store (Resolver.db (Resolver.world ethPass))));
                  Resolver.snapshot := None |}
             ∧ Resolver.tracker p'
               = Resolver.recordSuccess (Resolver.id ethState)
                   (Resolver.tracker ethPass)
             ∧ Resolver.alerts p' = Resolver.alerts ethPass)).
Proof.
  intros p'.
  assert (H : Resolver.snapshot (Resolver.db (Resolver.world ethPass)) = None)
    by reflexivity.
  split; [exact H|].
  exact (processRow_outcomes (λ k, bool_decide (k = 7%nat)) (λ _, ethExchange)
           (T0 + 600000) ethPass ethState H).
Defined.

(** The exchange still shows the short ETH position. *)
Definition ethStillOpen : Resolver.ExchangeClient := {|
  Resolver.getPositions :=
    Some [ {| Exchange.posContract := "ETHUSDT"; Exchange.posSize := Num.ofZ (-1) |} ];
  Resolver.normalizeContract := Resolver.normalizeContract ethExchange;
  Resolver.getMyTrades := Resolver.getMyTrades ethExchange;
  Resolver.calculatePnl := Resolver.calculatePnl ethExchange;
  Resolver.getContractType := Exchange.linear;
  Resolver.getQuantoMultiplier := Resolver.getQuantoMultiplier ethExchange
|}.

Lemma processRow_declines_witness :
  (∃ ps, Resolver.getPositions ethStillOpen = Some ps
         ∧ Resolver.positionExists
             (Resolver.normalizeContract ethStillOpen (Resolver.symbol ethState)) ps
           = true)
  ∧ Resolver.processRow noFault (λ _, ethStillOpen) (T0 + 600000) ethPass ethState
    = failedAttempt ethPass ethState ethWorld.
Proof.
  assert (H : ∃ ps, Resolver.getPositions ethStillOpen = Some ps
                    ∧ Resolver.positionExists
                        (Resolver.normalizeContract ethStillOpen
                           (Resolver.symbol ethState)) ps = true).
  { eexists. split; [reflexivity|]. by_compute. }
  split; [exact H|].
  exact (processRow_declines noFault (λ _, ethStillOpen) (T0 + 600000) ethPass
           ethState (or_intror (or_intror (or_introl H)))).
Defined.

(** Five passes over a row with an operation the resolver does not know:
    nothing is ever written, the row stays unresolved, and from the fifth
    pass on each pass raises the per-row alert. *)
Example unknown_operation_is_retried_forever :
  let odd := {| Resolver.id := 9; Resolver.operation := "open_position";
                Resolver.symbol := "ETH"; Resolver.side := Exchange.short;
                Resolver.exchange_order_id := "1"; Resolver.created_at := T0;
                Resolver.resolved := 0; Resolver.resolved_at := None;
                Resolver.resolved_by := None |} in
  let w := {| Resolver.db :=
                {| Resolver.store :=
                     {| Resolver.positions := []; Resolver.price_orders := [];
                        Resolver.trades := []; Resolver.position_close_events := [];
                        Resolver.inconsistent_states := [odd] |};
                   Resolver.snapshot := None |};
              Resolver.executed := 0 |} in
  let pass p := Resolver.resolveInconsistentStates noFault (λ _, ethExchange)
                  (T0 + 600000) (Resolver.world p) (Resolver.tracker p) in
  let start := {| Resolver.world := w; Resolver.tracker := Resolver.newTracker;
                  Resolver.alerts := [] |} in
  Resolver.alerts (pass (pass (pass (pass start)))) = []
  ∧ Resolver.level <$> Resolver.alerts (pass (pass (pass (pass (pass start)))))
    = [Resolver.ERROR]
  ∧ Resolver.db (Resolver.world (pass (pass (pass (pass (pass start))))))
    = Resolver.db w.
Proof. repeat split; by_compute. Qed.

(** * Further properties of the Gate.io client *)

Section RetryProps.
Import GateClient.

Context {A : Type}.
Variable attempt : nat → ApiError + A.

Lemma retryLoop_stops_at (fatal : ApiError → bool) (remaining i k : nat) :
  (k ≤ remaining)%nat →
  (∀ j, (j < k)%nat → ∃ e, attempt (i + j) = inl e ∧ fatal e = false) →
  (k = remaining
   ∨ (∃ a, attempt (i + k) = inr a)
   ∨ (∃ e, attempt (i + k) = inl e ∧ fatal e = true)) →
  retryLoop fatal attempt remaining i = (attempt (i + k), backoff <$> seq i k).
Proof.
  revert i k. induction remaining as [|r IH]; intros i k Hk Hfail Hstop.
  - assert (k = 0)%nat as -> by lia. rewrite Nat.add_0_r. simpl.
    destruct (attempt i) as [e|a]; [|done]. by destruct (fatal e).
  - destruct k as [|k].
    + rewrite Nat.add_0_r in *. simpl.
      destruct Hstop as [?|[[a Ha]|(e & He & Hfatal)]]; [lia| |].
      * by rewrite Ha.
      * by rewrite He, Hfatal.
    + destruct (Hfail 0%nat ltac:(lia)) as (e & He & Hfatal).
      rewrite Nat.add_0_r in He. cbn [retryLoop]. rewrite He, Hfatal.
      rewrite (IH (S i) k).
      * replace (S i + k)%nat with (i + S k)%nat by lia. done.
      * lia.
      * intros j Hj. replace (S i + j)%nat with (i + S j)%nat by lia.
        apply Hfail. lia.
      * replace (S i + k)%nat with (i + S k)%nat by lia.
        destruct Hstop as [?|Hstop]; [left; lia|by right].
Qed.

Lemma backoff_total (i k : nat) :
  RateLimit.sumZ (backoff <$> seq i k) = 1000 * 2 ^ Z.of_nat i * (2 ^ Z.of_nat k - 1).
Proof.
  revert i. induction k as [|k IH]; intros i; [simpl; lia|].
  cbn [seq fmap list_fmap RateLimit.sumZ foldr].
  change (foldr Z.add 0 (backoff <$> seq (S i) k))
    with (RateLimit.sumZ (backoff <$> seq (S i) k)).
  rewrite IH. unfold backoff.
  rewrite !Nat2Z.inj_succ, !Z.pow_succ_r by lia. lia.
Qed.

(** X15.  The retry loops of the market-data and account calls.  If the
    first [k] executions of the request fail and either the next one
    succeeds or [k] is the number of retries allowed, the method makes
    exactly [k + 1] requests, returns the value or throws the error of
    the last one, and sleeps 1 s, 2 s, 4 s, ... between them: [k] sleeps,
    [2^k - 1] seconds in all, so with the default of 2 retries at most
    3 s, and no sleep follows the last failure.  [getFuturesAccount]
    moreover stops at the first 401, without retrying it. *)
Theorem retry_loops_back_off (retries k : nat) :
  (k ≤ retries)%nat →
  ((∀ j, (j < k)%nat → ∃ e, attempt j = inl e) →
   k = retries ∨ (∃ a, attempt k = inr a) →
   getFuturesTicker attempt retries = (attempt k, backoff <$> seq 0 k)
   ∧ getFuturesCandles attempt retries = (attempt k, backoff <$> seq 0 k)
   ∧ getPositions attempt retries = (attempt k, backoff <$> seq 0 k))
  ∧ ((∀ j, (j < k)%nat → ∃ e, attempt j = inl e ∧ is401 e = false) →
     k = retries ∨ (∃ a, attempt k = inr a)
     ∨ (∃ e, attempt k = inl e ∧ is401 e = true) →
     getFuturesAccount attempt retries = (attempt k, backoff <$> seq 0 k))
  ∧ RateLimit.sumZ (backoff <$> seq 0 k) = 1000 * (2 ^ Z.of_nat k - 1)
  ∧ RateLimit.sumZ (backoff <$> seq 0 k) ≤ 1000 * (2 ^ Z.of_nat retries - 1).
Proof.
  intros Hk. split; [|split; [|split]].
  - intros Hfail Hstop.
    assert (H : retryLoop (λ _, false) attempt retries 0
                = (attempt k, backoff <$> seq 0 k)).
    { apply (retryLoop_stops_at _ retries 0%nat k Hk).
      - intros j Hj. destruct (Hfail j Hj) as [e He]. by exists e.
      - destruct Hstop as [?|?]; [by left|right; by left]. }
    done.
  - intros Hfail Hstop. by apply (retryLoop_stops_at _ retries 0%nat k Hk).
  - rewrite backoff_total. simpl. lia.
  - rewrite backoff_total. simpl.
    assert (2 ^ Z.of_nat k ≤ 2 ^ Z.of_nat retries) by (apply Z.pow_le_mono_r; lia).
    lia.
Qed.

End RetryProps.

Section ContractNames.
Import GateClient.

(** The string holds the character. *)
Fixpoint hasChar (ch : Ascii.ascii) (s : string) : bool :=
  match s with
  | EmptyString => false
  | String c rest => bool_decide (c = ch) || hasChar ch rest
  end.

Lemma split_nonempty sep s : Api.split sep s ≠ [].
Proof.
  destruct s as [|ch rest]; simpl; [done|].
  case_decide; [done|]. by destruct (Api.split sep rest).
Qed.

Lemma split_head_app sep s t :
  head (Api.split sep (s +:+ String sep t)) = head (Api.split sep s).
Proof.
  induction s as [|ch s IH]; simpl.
  - by rewrite decide_True.
  - case_decide; [done|].
    pose proof (split_nonempty sep (s +:+ String sep t)) as H1.
    pose proof (split_nonempty sep s) as H2.
    destruct (Api.split sep (s +:+ String sep t)) as [|h1 t1]; [done|].
    destruct (Api.split sep s) as [|h2 t2]; [done|].
    simpl in *. by injection IH as ->.
Qed.

Lemma split_head_plain sep s :
  hasChar sep s = false → head (Api.split sep s) = Some s.
Proof.
  induction s as [|ch s IH]; simpl; [done|].
  intros Hno. apply orb_false_iff in Hno as [Hch Hno].
  apply bool_decide_eq_false in Hch. rewrite decide_False by done.
  specialize (IH Hno). pose proof (split_nonempty sep s) as H2.
  destruct (Api.split sep s) as [|h t]; [done|]. simpl in *. by injection IH as ->.
Qed.

Lemma split_head_clean sep s h :
  head (Api.split sep s) = Some h → hasChar sep h = false.
Proof.
  revert h. induction s as [|ch s IH]; intros h; simpl.
  - by intros [= <-].
  - case_decide as Hch; [by intros [= <-]|].
    pose proof (split_nonempty sep s) as H2.
    destruct (Api.split sep s) as [|h2 t2]; [done|]. simpl.
    intros [= <-]. simpl. rewrite (IH h2) by done.
    rewrite orb_false_r. by apply bool_decide_eq_false.
Qed.

(** X16.  [extractSymbol] undoes [normalizeContract] on every symbol
    that holds no underscore; on any symbol the round trip yields the
    symbol's part before its first underscore, which is what
    [extractSymbol] yields on the symbol itself, and the result never
    holds an underscore. *)
Theorem extractSymbol_normalizeContract (symbol : string) :
  extractSymbol (normalizeContract symbol) = extractSymbol symbol
  ∧ hasChar "_" (extractSymbol symbol) = false
  ∧ (hasChar "_" symbol = false →
     extractSymbol (normalizeContract symbol) = symbol).
Proof.
  unfold extractSymbol, normalizeContract.
  change ("_USDT"%string) with (String "_" "USDT").
  rewrite split_head_app.
  split; [done|]. split.
  - pose proof (split_nonempty "_" symbol) as Hne.
    destruct (Api.split "_" symbol) as [|h t] eqn:Hs; [done|]. simpl.
    apply (split_head_clean "_" symbol). by rewrite Hs.
  - intros Hno. by rewrite split_head_plain.
Qed.

End ContractNames.

Section Rounding.
Local Open Scope Qc_scope.

Lemma ofZ_this (z : Z) : (this (Num.ofZ z) == inject_Z z)%Q.
Proof. unfold Num.ofZ. simpl. apply Qred_correct. Qed.

Lemma ofZ_le (a b : Z) : (a ≤ b)%Z → Num.ofZ a ≤ Num.ofZ b.
Proof. intros Hab. unfold Qcle. rewrite !ofZ_this. by rewrite <- Zle_Qle. Qed.

Lemma ofZ_plus (a b : Z) : Num.ofZ (a + b) = Num.ofZ a + Num.ofZ b.
Proof.
  apply Qc_is_canon. simpl. rewrite !Qred_correct, inject_Z_plus. reflexivity.
Qed.

Lemma floor_spec (x : Qc) :
  Num.ofZ (Num.floor x) ≤ x ∧ x < Num.ofZ (Num.floor x) + 1.
Proof.
  unfold Num.floor. split.
  - unfold Qcle. rewrite ofZ_this. apply Qfloor_le.
  - unfold Qclt. simpl. rewrite Qred_correct, Qred_correct.
    pose proof (Qlt_floor x) as H. rewrite inject_Z_plus in H. exact H.
Qed.

Lemma Qc_pos_neq (x : Qc) : 0 < x → x ≠ 0.
Proof. intros Hx Heq. apply (Qclt_not_eq _ _ Hx). done. Qed.

End Rounding.

Section QuantityProps.
Import Exchange GateClient.
Local Open Scope Qc_scope.

(** X18.  [calculatePnl] for a positive quantity and multiplier: a long
    gains exactly when the exit price is above the entry price, a short
    exactly when it is below; the two sides of the same trade have
    opposite results, and a trade closed at its entry price has none. *)
Theorem calculatePnl_sign (quantoMultiplier entryPrice exitPrice quantity : Qc) :
  0 < quantoMultiplier → 0 < quantity →
  (0 < calculatePnl quantoMultiplier entryPrice exitPrice quantity long
   ↔ entryPrice < exitPrice)
  ∧ (0 < calculatePnl quantoMultiplier entryPrice exitPrice quantity short
     ↔ exitPrice < entryPrice)
  ∧ calculatePnl quantoMultiplier entryPrice exitPrice quantity short
    = - calculatePnl quantoMultiplier entryPrice exitPrice quantity long
  ∧ calculatePnl quantoMultiplier entryPrice entryPrice quantity long = 0.
Proof.
  intros Hm Hq. unfold calculatePnl.
  assert (Hqm : 0 < quantity * quantoMultiplier) by by apply Qcmult_pos_pos.
  assert (Hsign : ∀ d : Qc, 0 < d * quantity * quantoMultiplier ↔ 0 < d).
  { intros d. rewrite <- Qcmult_assoc. split.
    - intros Hpos. destruct (Qclt_le_dec 0 d) as [|Hle]; [done|]. exfalso.
      apply (Qclt_not_le _ _ Hpos).
      replace 0 with (0 * (quantity * quantoMultiplier)) by ring.
      apply Qcmult_le_compat_r; [done|by apply Qclt_le_weak].
    - intros Hd. by apply Qcmult_pos_pos. }
  split; [|split; [|split]].
  - rewrite Hsign. split; intros H.
    + apply Qclt_minus_iff. by replace (exitPrice + - entryPrice)
        with (exitPrice - entryPrice) by ring.
    + apply Qclt_minus_iff in H. by replace (exitPrice - entryPrice)
        with (exitPrice + - entryPrice) by ring.
  - rewrite Hsign. split; intros H.
    + apply Qclt_minus_iff. by replace (entryPrice + - exitPrice)
        with (entryPrice - exitPrice) by ring.
    + apply Qclt_minus_iff in H. by replace (entryPrice - exitPrice)
        with (entryPrice + - exitPrice) by ring.
  - ring.
  - ring.
Qed.

End QuantityProps.

Section PriceProps.
Import Exchange Gate.
Local Open Scope Qc_scope.



End PriceProps.

Section TriggerReadBack.
Import Exchange Gate GateClient.
Local Open Scope Qc_scope.

Variable api : TriggerApi.
Variable c : string.

(** [getPositionStopLossOrders] when the exchange lists [orders] as the
    open trigger orders of the contract. *)
Definition readBack (orders : list TriggerOrder)
    : option TriggerOrder * option TriggerOrder :=
  getPositionStopLossOrders (Gate.getPositions api) (λ _, Some (Some orders)) c.

Lemma placeLeg_rule leg side closeSize p o :
  CreateTrigger o ∈ snd (placeLeg api leg c side closeSize p) →
  triggerRule o = match leg, side with
                  | StopLossLeg, long | TakeProfitLeg, short => 2%Z
                  | StopLossLeg, short | TakeProfitLeg, long => 1%Z
                  end.
Proof.
  unfold placeLeg.
  destruct (markPrice api leg c) as [mark|]; simpl; [|by intros ?%elem_of_nil].
  destruct (mark <=? 0)%float; simpl; [by intros ?%elem_of_nil|].
  intros Hin.
  destruct (createPriceTriggeredOrder api _); simpl in Hin;
    apply list_elem_of_singleton in Hin; injection Hin as ->;
    destruct leg, side; done.
Qed.

(** X21.  The trigger orders that [setPositionStopLoss] sends for a
    position are told apart again by [getPositionStopLossOrders]: as long
    as the position is listed with the same sign, the order sent for the
    stop-loss is read back as the stop-loss order and the one sent for
    the take-profit as the take-profit order, alone or together and in
    either order of the listing. *)
Theorem trigger_orders_read_back (positions : list PositionInfo)
    (position : PositionInfo) (closeSize : Z) (p1 p2 : float)
    (o1 o2 : TriggerOrder) :
  Gate.getPositions api = Some positions →
  find (λ q, bool_decide (posContract q = c)) positions = Some position →
  let side := if decide (0 < posSize position) then long else short in
  CreateTrigger o1 ∈ snd (placeLeg api StopLossLeg c side closeSize p1) →
  CreateTrigger o2 ∈ snd (placeLeg api TakeProfitLeg c side closeSize p2) →
  readBack [o1] = (Some o1, None)
  ∧ readBack [o2] = (None, Some o2)
  ∧ readBack [o1; o2] = (Some o1, Some o2)
  ∧ readBack [o2; o1] = (Some o1, Some o2).
Proof.
  intros Hpos Hfind side H1 H2.
  apply placeLeg_rule in H1. apply placeLeg_rule in H2.
  unfold readBack, getPositionStopLossOrders. rewrite Hpos, Hfind. fold side.
  simpl. unfold classify. rewrite H1, H2.
  destruct side; simpl; done.
Qed.

(** X22.  [setPositionStopLoss] sends nothing to the exchange unless it
    finds a position of non-zero size for the contract; when it does, the
    first thing it sends is the cancellation of all trigger orders of the
    contract, followed by at most two creations.  So a call whose
    stop-loss creation fails has already cancelled the old triggers, and
    a call that asks for neither a stop-loss nor a take-profit (both
    missing or not positive) cancels the triggers, creates none and
    reports success. *)
Theorem setPositionStopLoss_cancels_first (stopLoss takeProfit : option float) :
  let r := setPositionStopLoss api c stopLoss takeProfit in
  (snd r = [] ↔ message (fst r) = MsgNoPosition ∨ message (fst r) = MsgSetFailed)
  ∧ (snd r ≠ [] →
     ∃ creates, snd r = CancelTriggers c :: creates
                ∧ (length creates ≤ 2)%nat
                ∧ ∀ call, call ∈ creates → ∃ o, call = CreateTrigger o)
  ∧ (message (fst r) = MsgStopLossFailed →
     success (fst r) = false ∧ head (snd r) = Some (CancelTriggers c))
  ∧ (requested stopLoss = None → requested takeProfit = None → snd r ≠ [] →
     r = ({| success := true; stopLossOrderId := None;
             takeProfitOrderId := None; message := MsgSet |},
          [CancelTriggers c])).
Proof.
  assert (Hleg : ∀ leg side closeSize p,
            snd (placeLeg api leg c side closeSize p) = []
            ∨ ∃ o, snd (placeLeg api leg c side closeSize p) = [CreateTrigger o]).
  { intros leg side closeSize p. unfold placeLeg.
    destruct (markPrice api leg c) as [mark|]; [|by left].
    destruct (mark <=? 0)%float; [by left|].
    destruct (createPriceTriggeredOrder api _); right; by eexists. }
  simpl. unfold setPositionStopLoss.
  destruct (Gate.getPositions api) as [positions|]; simpl;
    [|split; [split; [by right|done]|done]].
  destruct (find _ positions) as [position|]; simpl;
    [|split; [split; [by left|done]|done]].
  case_decide as Hsize; simpl; [split; [split; [by left|done]|done]|].
  set (side := if decide (0 < posSize position) then long else short).
  set (closeSize := Z.abs (Num.round (posSize position))).
  destruct (requested stopLoss) as [v|];
    [pose proof (Hleg StopLossLeg side closeSize v) as Hsl;
     destruct (placeLeg api StopLossLeg c side closeSize v) as [[[]|slId] slCalls]|];
    simpl in *;
    try (destruct (requested takeProfit) as [t|];
         [pose proof (Hleg TakeProfitLeg side closeSize t) as Htp;
          destruct (placeLeg api TakeProfitLeg c side closeSize t)
            as [[[]|tpId] tpCalls]|];
         simpl in *; try destruct (truthyId slId); simpl);
    (split; [split; [done|intros [?|?]; done]|]);
    (split; [intros _; eexists; split; [reflexivity|];
             repeat match goal with
                    | H : _ ∨ _ |- _ => destruct H as [->|[? ->]]
                    end; simpl;
             (split; [lia|]);
             intros call Hin;
             repeat (apply elem_of_cons in Hin as [->|Hin]; [by eexists|]);
             by apply elem_of_nil in Hin|]);
    (split; [try done; intros _; done|]);
    try done.
Qed.

End TriggerReadBack.

(** *** Concrete calls of the client *)

(** Two server errors, then an answer. *)
Definition flakyTicker (i : nat) : GateClient.ApiError + string :=
  if decide (i < 2)%nat
  then inl {| GateClient.status := Some 502; GateClient.responseStatus := None |}
  else inr "ticker"%string.

(** A server error, then a rejected key. *)
Definition badKey (i : nat) : GateClient.ApiError + string :=
  if decide (i < 1)%nat
  then inl {| GateClient.status := Some 502; GateClient.responseStatus := None |}
  else inl {| GateClient.status := None; GateClient.responseStatus := Some 401 |}.

Lemma retry_loops_back_off_witness :
  (2 ≤ 2)%nat
  ∧ GateClient.getFuturesTicker flakyTicker 2 = (inr "ticker"%string, [1000; 2000])
  ∧ RateLimit.sumZ (GateClient.backoff <$> seq 0 2) = 3000.
Proof.
  assert (H : (2 ≤ 2)%nat) by lia.
  split; [exact H|].
  destruct (retry_loops_back_off flakyTicker 2 2 H) as (Hplain & _ & Hsum & _).
  split; [|exact Hsum].
  apply Hplain.
  - intros j Hj. eexists. unfold flakyTicker. by rewrite decide_True.
  - by left.
Defined.

(** The 401 ends [getFuturesAccount] after one sleep; a loop that retries
    everything would go on, and with no retries left the error of the
    last attempt is the one thrown. *)
Example account_call_stops_at_401 :
  GateClient.getFuturesAccount badKey 2
  = (inl {| GateClient.status := None; GateClient.responseStatus := Some 401 |},
     [1000])
  ∧ snd (GateClient.getFuturesTicker badKey 2) = [1000; 2000]
  ∧ GateClient.getFuturesTicker flakyTicker 1
    = (inl {| GateClient.status := Some 502; GateClient.responseStatus := None |},
       [1000]).
Proof. repeat split; reflexivity. Qed.

(** A symbol with an underscore does not survive the round trip. *)
Example extractSymbol_cuts_at_the_first_underscore :
  GateClient.extractSymbol (GateClient.normalizeContract "BTC") = "BTC"%string
  ∧ GateClient.normalizeContract "1000_PEPE" = "1000_PEPE_USDT"%string
  ∧ GateClient.extractSymbol (GateClient.normalizeContract "1000_PEPE") = "1000"%string.
Proof. repeat split; reflexivity. Qed.

Lemma calculatePnl_sign_witness :
  (0 < Num.dec 0.0001)%Qc ∧ (0 < Num.ofZ 78)%Qc
  ∧ GateClient.calculatePnl (Num.dec 0.0001) (Num.ofZ 64000) (Num.ofZ 65000)
      (Num.ofZ 78) Exchange.long = Num.dec 7.8
  ∧ GateClient.calculatePnl (Num.dec 0.0001) (Num.ofZ 64000) (Num.ofZ 65000)
      (Num.ofZ 78) Exchange.short
    = (- GateClient.calculatePnl (Num.dec 0.0001) (Num.ofZ 64000) (Num.ofZ 65000)
           (Num.ofZ 78) Exchange.long)%Qc.
Proof.
  assert (H1 : (0 < Num.dec 0.0001)%Qc) by reflexivity.
  assert (H2 : (0 < Num.ofZ 78)%Qc) by reflexivity.
  split; [exact H1|]. split; [exact H2|]. split; [by_compute|].
  exact (proj1 (proj2 (proj2 (calculatePnl_sign (Num.dec 0.0001) (Num.ofZ 64000)
                                (Num.ofZ 65000) (Num.ofZ 78) H1 H2)))).
Defined.



(** A limit price below half of the eighth decimal is printed as 0, and
    the order goes out as a market order. *)
Example tiny_limit_price_becomes_a_market_order :
  let tiny := {| Gate.contract := "PEPE_USDT"; Gate.size := Num.ofZ 1000;
                 Gate.price := Some (Num.dec 0.000000004);
                 Gate.tif := Some "gtc"%string; Gate.reduceOnly := None |} in
  let api := {| Gate.orderContractInfo := λ _, Some btcInfo;
                Gate.orderMarkPrice := λ _, Some (Num.dec 0.000000004);
                Gate.createFuturesOrder := λ _, Gate.Created "7002" |} in
  ∃ o, Gate.placeOrder api tiny = Gate.Placed o "7002"
       ∧ Gate.orderPrice o = 0%Qc ∧ Gate.orderTif o = "ioc"%string.
Proof. eexists. split; [reflexivity|]. split; by_compute. Qed.

Lemma trigger_orders_read_back_witness :
  let api := calmApi 100%float in
  let o1 := Gate.triggerOrder "BTC_USDT" 10 "95.0" 2 in
  let o2 := Gate.triggerOrder "BTC_USDT" 10 "110.0" 1 in
  Gate.getPositions api = Some [btcPosition]
  ∧ find (λ q, bool_decide (Exchange.posContract q = "BTC_USDT")) [btcPosition]
    = Some btcPosition
  ∧ Gate.CreateTrigger o1
    ∈ snd (Gate.placeLeg api Gate.StopLossLeg "BTC_USDT" Exchange.long 10 95%float)
  ∧ Gate.CreateTrigger o2
    ∈ snd (Gate.placeLeg api Gate.TakeProfitLeg "BTC_USDT" Exchange.long 10
             110%float)
  ∧ snd (Gate.setPositionStopLoss api "BTC_USDT" (Some 95%float)
           (Some 110%float))
    = [Gate.CancelTriggers "BTC_USDT"; Gate.CreateTrigger o1; Gate.CreateTrigger o2]
  ∧ readBack api "BTC_USDT" [o2; o1] = (Some o1, Some o2).
Proof.
  intros api o1 o2.
  assert (H1 : Gate.getPositions api = Some [btcPosition]) by reflexivity.
  assert (H2 : find (λ q, bool_decide (Exchange.posContract q = "BTC_USDT"))
                 [btcPosition] = Some btcPosition) by reflexivity.
  assert (H3 : Gate.CreateTrigger o1
    ∈ snd (Gate.placeLeg api Gate.StopLossLeg "BTC_USDT" Exchange.long 10
             95%float)) by by_compute.
  assert (H4 : Gate.CreateTrigger o2
    ∈ snd (Gate.placeLeg api Gate.TakeProfitLeg "BTC_USDT" Exchange.long 10
             110%float)) by by_compute.
  split; [exact H1|]. split; [exact H2|]. split; [exact H3|]. split; [exact H4|].
  split; [by_compute|].
  exact (proj2 (proj2 (proj2 (trigger_orders_read_back api "BTC_USDT" [btcPosition]
                                btcPosition 10 95%float 110%float o1 o2
                                H1 H2 H3 H4)))).
Defined.

(** With a tick of 1 under a mark of 100, the stop-loss shifted to 99.7
    is printed as 100: the trigger sits on the mark price. *)
Example coarse_tick_undoes_the_shift :
  snd (Gate.setPositionStopLoss (tickApi 100 1) "BTC_USDT" (Some 99.9%float) None)
  = [ Gate.CancelTriggers "BTC_USDT";
      Gate.CreateTrigger (Gate.triggerOrder "BTC_USDT" 10 "100" 2) ].
Proof. by_compute. Qed.

(** Zero for both prices: the triggers of the position are cancelled,
    none is created, and the call reports success. *)
Example zero_prices_only_cancel :
  Gate.setPositionStopLoss (calmApi 100%float) "BTC_USDT" (Some 0%float) None
  = ({| Gate.success := true; Gate.stopLossOrderId := None;
        Gate.takeProfitOrderId := None; Gate.message := Gate.MsgSet |},
     [Gate.CancelTriggers "BTC_USDT"]).
Proof. by_compute. Qed.

(** [calculateQuantity] floors the quotient of doubles: a margin of 30
    at leverage 1 buys 500 contracts of 0.0001 at a price of 600, but the
    quotient is 499.99999999999994 and 499 is returned. *)
Example calculateQuantity_floors_the_double_quotient :
  Js.toString (30 * 1 / (0.0001 * 600))%float = "499.99999999999994"%string
  ∧ Js.toString (GateClient.calculateQuantity 0.0001 30 600 1) = "499"%string
  ∧ Js.toString (GateClient.calculateQuantity 0.0001 100 64000 5) = "78"%string
  ∧ Js.toString (GateClient.calculateQuantity 0.0001 100 0 5) = "Infinity"%string.
Proof. repeat split; by_compute. Qed.

(** * Order ids *)

Section OrderIdProps.
Import OrderId.

(** The orders of the list whose extracted id is [key], in list order. *)
Definition ordersWithId (key : string) (orders : list (option Order)) : list Order :=
  omap (λ order, match order with
                 | Some o => if decide (extractOrderId order = Some key)
                             then Some o else None
                 | None => None
                 end) orders.

Lemma createOrderIdMap_from (orders : list (option Order)) (map : gmap string Order)
    (key : string) :
  foldl (λ map order,
           match extractOrderId order, order with
           | Some orderId, Some o =>
               if Num.truthyStr orderId then <[orderId := o]> map else map
           | _, _ => map
           end) map orders !! key
  = if decide (key = EmptyString) then map !! key
    else match last (ordersWithId key orders) with
         | Some o => Some o
         | None => map !! key
         end.
Proof.
  revert map. induction orders as [|order orders IH]; intros map.
  { simpl. by case_decide. }
  cbn [foldl]. rewrite IH. case_decide as Hkey.
  - destruct order as [o|]; [|reflexivity]. simpl.
    destruct (toString <$> _) as [orderId|] eqn:Hid; [|done].
    unfold Num.truthyStr. case_bool_decide as Hne; [|done].
    rewrite lookup_insert_ne; [done|]. by rewrite Hkey.
  - unfold ordersWithId at 2. cbn [omap list_omap].
    fold (ordersWithId key orders).
    destruct order as [o|]; [|reflexivity].
    destruct (extractOrderId (Some o)) as [orderId|] eqn:Hid.
    + destruct (decide (Some orderId = Some key)) as [[= ->]|Hne].
      * unfold Num.truthyStr. rewrite bool_decide_eq_true_2 by done.
        rewrite lookup_insert_eq.
        destruct (ordersWithId key orders) as [|o' rest] eqn:Hrest; [done|].
        change (last (o :: o' :: rest)) with (last (o' :: rest)).
        destruct (last (o' :: rest)) eqn:Hl; [done|]. by apply last_None in Hl.
      * destruct (Num.truthyStr orderId); [|done].
        rewrite lookup_insert_ne by congruence. done.
    + rewrite decide_False by done. done.
Qed.

(** X23.  [createOrderIdMap] maps every non-empty extracted id to the
    last order of the list that carries it (a later order replaces an
    earlier one with the same id, and a numeric id and a string id with
    the same digits are the same key); it has no entry for the empty
    string; and its keys are exactly the ids [extractOrderIds] returns. *)
Theorem createOrderIdMap_spec (orders : list (option Order)) (key : string) :
  createOrderIdMap orders !! key
  = (if decide (key = EmptyString) then None else last (ordersWithId key orders))
  ∧ (key ∈ extractOrderIds orders ↔ is_Some (createOrderIdMap orders !! key)).
Proof.
  assert (Hlookup : createOrderIdMap orders !! key
            = if decide (key = EmptyString) then None
              else last (ordersWithId key orders)).
  { unfold createOrderIdMap. rewrite createOrderIdMap_from, lookup_empty.
    case_decide; [done|]. by destruct (last _). }
  split; [exact Hlookup|].
  rewrite Hlookup. unfold extractOrderIds.
  rewrite list_elem_of_filter, list_elem_of_omap.
  case_decide as Hkey.
  - split; [by intros [? _]|by intros [? ?]].
  - split.
    + intros (_ & order & Hin & Hid).
      assert (Hsome : ∃ o, o ∈ ordersWithId key orders).
      { destruct order as [o|]; [|done]. exists o.
        apply list_elem_of_omap. exists (Some o). split; [done|].
        by rewrite decide_True. }
      destruct Hsome as [o Ho].
      destruct (ordersWithId key orders) as [|o' rest] using rev_ind;
        [by apply elem_of_nil in Ho|].
      rewrite last_snoc. by eexists.
    + intros [o Hlast]. split; [done|].
      apply last_Some_elem_of in Hlast.
      apply list_elem_of_omap in Hlast as (order & Hin & Ho).
      exists order. split; [done|].
      destruct order as [o0|]; [|done]. by case_decide.
Qed.

End OrderIdProps.

(** An id that is the number 0 is skipped in favour of the next field; a
    Gate.io numeric id and the same id as a string share a key, and the
    later order wins. *)
Example order_ids_by_priority :
  let gate := {| OrderId.algoId := None; OrderId.id := Some (OrderId.IdNum 8842);
                 OrderId.orderId := None; OrderId.order_id := None;
                 OrderId.clientOrderId := Some (OrderId.IdStr "t-1");
                 OrderId.payload := "first" |} in
  let binance := {| OrderId.algoId := Some (OrderId.IdNum 0); OrderId.id := None;
                    OrderId.orderId := Some (OrderId.IdStr "8842");
                    OrderId.order_id := None; OrderId.clientOrderId := None;
                    OrderId.payload := "second" |} in
  OrderId.extractOrderIds [Some gate; None; Some binance] = ["8842"; "8842"]%string
  ∧ OrderId.createOrderIdMap [Some gate; None; Some binance] !! "8842"%string
    = Some binance.
Proof. split; by_compute. Qed.

(** * Email alerts *)

Section EmailProps.
Import Exchange Email.
Local Open Scope Z_scope.

(** One awaited call of [sendAlert]. *)
Record Event := {
  evLevel : Resolver.AlertLevel;
  evTitle : string;
  evTime : Z;
  evSendMail : bool
}.

(** The mails sent so far (key and time, newest first) and the service. *)
Definition deliver (acc : list (string * Z) * Service) (ev : Event)
    : list (string * Z) * Service :=
  let r := sendAlert (evSendMail ev) (evLevel ev) (evTitle ev) (evTime ev) (snd acc) in
  (if fst r then (alertKey (evLevel ev) (evTitle ev), evTime ev) :: fst acc
   else fst acc,
   snd r).

(** Every mail is at least the cooldown later than each earlier mail
    with the same key. *)
Fixpoint spaced (log : list (string * Z)) : Prop :=
  match log with
  | [] => True
  | (key, t) :: older =>
      (∀ t', (key, t') ∈ older → alertCooldown ≤ t - t') ∧ spaced older
  end.

(** The service remembers, for every mail of the log, a send time of the
    same key that is not earlier. *)
Definition remembered (log : list (string * Z)) (s : Service) : Prop :=
  ∀ key t, (key, t) ∈ log → ∃ t', lastAlertTime s !! key = Some t' ∧ t ≤ t'.

Lemma deliver_keeps (log : list (string * Z)) (s : Service) (ev : Event) :
  spaced log → remembered log s →
  spaced (fst (deliver (log, s) ev)) ∧ remembered (fst (deliver (log, s) ev))
                                         (snd (deliver (log, s) ev)).
Proof.
  intros Hsp Hrem. unfold deliver, sendAlert. cbn [fst snd].
  destruct (enabled s); cbn [negb fst snd]; [|done].
  set (key := alertKey (evLevel ev) (evTitle ev)).
  case_decide as Hcool; cbn [fst snd]; [done|].
  destruct (evSendMail ev); cbn [fst snd lastAlertTime]; [|done].
  assert (Hold : ∀ t', (key, t') ∈ log → alertCooldown ≤ evTime ev - t').
  { intros t' Hin. destruct (Hrem key t' Hin) as (t0 & Hlook & Hle).
    rewrite Hlook in Hcool. simpl in Hcool. lia. }
  split; [split; [exact Hold|exact Hsp]|].
  intros k t Hin. cbn [lastAlertTime].
  apply elem_of_cons in Hin as [[= -> ->]|Hin].
  - exists (evTime ev). by rewrite lookup_insert_eq.
  - destruct (decide (k = key)) as [->|Hne].
    + exists (evTime ev). rewrite lookup_insert_eq. split; [done|].
      specialize (Hold t Hin). unfold alertCooldown in Hold. lia.
    + rewrite lookup_insert_ne by done. by apply Hrem.
Qed.

(** X24.  Whatever alerts are sent through [sendAlert], one awaited call
    after the other, at whatever clock values and whether or not the
    mail server accepts them: any two mails that went out with the same
    level and title are at least five minutes apart.  A send that fails
    does not start the cooldown, and a service that is not enabled sends
    nothing. *)
Theorem sendAlert_cooldown (events : list Event) (s : Service) :
  let r := foldl deliver ([], s) events in
  spaced (fst r)
  ∧ (enabled s = false → r = ([], s))
  ∧ (∀ level title now, fst (sendAlert false level title now s) = false
                        ∧ snd (sendAlert false level title now s) = s).
Proof.
  simpl. split; [|split].
  - assert (Hgen : ∀ log s0, spaced log → remembered log s0 →
              spaced (fst (foldl deliver (log, s0) events))
              ∧ remembered (fst (foldl deliver (log, s0) events))
                           (snd (foldl deliver (log, s0) events))).
    { induction events as [|ev events IH]; intros log s0 Hsp Hrem; [done|].
      cbn [foldl].
      destruct (deliver_keeps log s0 ev Hsp Hrem) as [Hsp' Hrem'].
      destruct (deliver (log, s0) ev) as [log' s'] eqn:Hd. by apply IH. }
    apply Hgen; [done|]. intros key t Hin. by apply elem_of_nil in Hin.
  - intros Hoff. induction events as [|ev events IH]; [done|].
    cbn [foldl]. unfold deliver at 2, sendAlert. cbn [fst snd]. rewrite Hoff.
    cbn [negb fst snd]. exact IH.
  - intros level title now. unfold sendAlert.
    destruct (enabled s); simpl; [|done]. by case_decide.
Qed.

(** X25.  The level of a trade notification is ERROR for a close with a
    loss of more than 100, WARNING for a close with a smaller loss (a
    loss of exactly 100 included) and INFO otherwise; and because the
    cooldown key is the level with the title, once a notification has
    been sent, a notification of the same type, symbol, direction and
    level that follows less than five minutes later is not sent. *)
Theorem sendTradeNotification_level_and_cooldown
    (first second : TradeNotification) (now later : Z) (sendMail : bool)
    (s : Service) :
  (tradeLevel first = Resolver.ERROR
   ↔ type first = Resolver.close
     ∧ ∃ p, pnl first = Some p ∧ (p < Num.ofZ (-100))%Qc)
  ∧ (tradeLevel first = Resolver.WARNING
     ↔ type first = Resolver.close
       ∧ ∃ p, pnl first = Some p ∧ (Num.ofZ (-100) ≤ p)%Qc ∧ (p < 0)%Qc)
  ∧ (type second = type first → symbol second = symbol first →
     side second = side first → tradeLevel second = tradeLevel first →
     fst (sendTradeNotification true first now s) = true →
     later - now < 300000 →
     fst (sendTradeNotification sendMail second later
            (snd (sendTradeNotification true first now s))) = false).
Proof.
  split; [|split].
  - unfold tradeLevel. destruct (type first); [split; [done|by intros [? _]]|].
    destruct (pnl first) as [p|]; [|split; [done|by intros (_ & ? & ? & _)]].
    repeat case_decide; split; try done.
    + intros _. split; [done|]. by exists p.
    + intros (_ & q & [= <-] & Hq). done.
    + intros (_ & q & [= <-] & Hq). done.
  - unfold tradeLevel. destruct (type first); [split; [done|by intros [? _]]|].
    destruct (pnl first) as [p|]; [|split; [done|by intros (_ & ? & ? & _)]].
    repeat case_decide; split; try done.
    + intros (_ & q & [= <-] & Hq & _). by apply Qcle_not_lt in Hq.
    + intros _. split; [done|]. exists p. split; [done|].
      split; [by apply Qcnot_lt_le|done].
    + intros (_ & q & [= <-] & _ & Hq). done.
  - intros Htype Hsym Hside Hlevel Hsent Hsoon.
    assert (Htitle : tradeTitle second = tradeTitle first)
      by (unfold tradeTitle; by rewrite Htype, Hsym, Hside).
    unfold sendTradeNotification in *. rewrite Htitle, Hlevel.
    revert Hsent. unfold sendAlert.
    destruct (enabled s) eqn:Hen; cbn [negb fst snd]; [|done].
    case_decide; cbn [fst snd]; [done|]. intros _.
    cbn [enabled lastAlertTime negb].
    rewrite lookup_insert_eq.
    rewrite decide_True; [done|]. unfold alertCooldown. simpl. lia.
Qed.

End EmailProps.

(** * Durations: the server's holding time and the dashboard's parser *)

Section DecimalProps.
Import Dashboard.
Local Open Scope Z_scope.

Fixpoint allDigits (s : string) : bool :=
  match s with
  | EmptyString => true
  | String ch rest => isDigit ch && allDigits rest
  end.

(** The string does not start with a digit. *)
Definition startsPlain (s : string) : Prop :=
  match s with
  | EmptyString => True
  | String ch _ => isDigit ch = false
  end.

Lemma append_cons (ch : Ascii.ascii) (a b : string) :
  String ch a +:+ b = String ch (a +:+ b).
Proof. reflexivity. Qed.

Lemma append_nil_l (b : string) : EmptyString +:+ b = b.
Proof. reflexivity. Qed.

Lemma append_nil_r (a : string) : a +:+ EmptyString = a.
Proof. induction a as [|ch a IH]; [done|]. by rewrite append_cons, IH. Qed.

Lemma append_assoc (a b c : string) : (a +:+ b) +:+ c = a +:+ (b +:+ c).
Proof.
  induction a as [|ch a IH]; [done|]. by rewrite !append_cons, IH.
Qed.

Lemma allDigits_app (a b : string) :
  allDigits (a +:+ b) = allDigits a && allDigits b.
Proof.
  induction a as [|ch a IH]; [done|].
  rewrite append_cons. simpl. rewrite IH. by rewrite andb_assoc.
Qed.

Lemma parseDigits_snoc (acc : Z) (s : string) (ch : Ascii.ascii) :
  parseDigits acc (s +:+ String ch EmptyString)
  = 10 * parseDigits acc s + digitValue ch.
Proof.
  revert acc. induction s as [|c s IH]; intros acc; [done|].
  rewrite append_cons. simpl. apply IH.
Qed.

Lemma pretty_N_char_digit (d : N) :
  (d < 10)%N →
  isDigit (pretty_N_char d) = true ∧ digitValue (pretty_N_char d) = Z.of_N d.
Proof.
  intros Hd.
  assert (d = 0 ∨ d = 1 ∨ d = 2 ∨ d = 3 ∨ d = 4 ∨ d = 5 ∨ d = 6 ∨ d = 7
          ∨ d = 8 ∨ d = 9)%N as Hcases by lia.
  repeat destruct Hcases as [->|Hcases]; try subst d; by compute.
Qed.

Lemma pretty_N_go_spec (x : N) :
  ∃ D, allDigits D = true
       ∧ parseDigits 0 D = Z.of_N x
       ∧ ((0 < x)%N → D ≠ EmptyString)
       ∧ ∀ s, pretty_N_go x s = D +:+ s.
Proof.
  induction (N.lt_wf_0 x) as [x _ IH].
  destruct (decide (x = 0)%N) as [->|Hx].
  - exists EmptyString. split; [done|]. split; [done|]. split; [lia|].
    intros s. apply pretty_N_go_0.
  - assert (Hpos : (0 < x)%N) by lia.
    destruct (IH (x `div` 10)%N (N.div_lt x 10 Hpos eq_refl))
      as (D & Hall & Hval & _ & Hgo).
    destruct (pretty_N_char_digit (x `mod` 10)%N (N.mod_lt x 10 ltac:(lia)))
      as [Hdig Hdv].
    exists (D +:+ String (pretty_N_char (x `mod` 10)) EmptyString).
    split; [|split; [|split]].
    + rewrite allDigits_app, Hall. simpl. by rewrite Hdig.
    + rewrite parseDigits_snoc, Hval, Hdv.
      pose proof (N.div_mod x 10 ltac:(lia)). lia.
    + intros _. by destruct D.
    + intros s. rewrite pretty_N_go_step by done. rewrite Hgo.
      by rewrite append_assoc.
Qed.

(** A number that is not negative prints as its decimal digits. *)
Lemma pretty_Z_digits (n : Z) :
  0 ≤ n →
  allDigits (pretty n) = true ∧ pretty n ≠ EmptyString ∧ parseInt (pretty n) = n.
Proof.
  intros Hn. destruct n as [|p|p]; [by compute| |lia].
  unfold pretty, pretty_Z, pretty, pretty_positive, pretty, pretty_N.
  rewrite decide_False by done.
  destruct (pretty_N_go_spec (N.pos p)) as (D & Hall & Hval & Hne & Hgo).
  rewrite Hgo, append_nil_r.
  split; [done|]. split; [apply Hne; lia|]. exact Hval.
Qed.

Lemma digitsPrefix_app (D rest : string) :
  allDigits D = true → startsPlain rest → digitsPrefix (D +:+ rest) = (D, rest).
Proof.
  intros Hall Hplain. induction D as [|ch D IH].
  - rewrite append_nil_l. destruct rest as [|c rest]; [done|].
    simpl in *. by rewrite Hplain.
  - simpl in Hall. apply andb_true_iff in Hall as [Hch Hall].
    rewrite append_cons. simpl. rewrite Hch, IH by done. done.
Qed.

(** Scanning over a run of digits: either the literal follows it, or the
    search goes on behind it. *)
Lemma matchDigitsBefore_digits (lit D rest : string) :
  allDigits D = true → startsPlain rest →
  matchDigitsBefore lit (D +:+ rest)
  = if negb (bool_decide (D = EmptyString)) && String.prefix lit rest
    then Some D else matchDigitsBefore lit rest.
Proof.
  intros Hall Hplain. induction D as [|ch D IH].
  - by rewrite append_nil_l.
  - pose proof (digitsPrefix_app (String ch D) rest Hall Hplain) as Hpre.
    simpl in Hall. apply andb_true_iff in Hall as [Hch Hall].
    rewrite append_cons in *.
    cbn [matchDigitsBefore]. rewrite Hpre.
    rewrite (bool_decide_eq_false_2 (String ch D = EmptyString)) by done.
    cbn [negb andb].
    destruct (String.prefix lit rest) eqn:Hlit; [done|].
    rewrite IH by done. by rewrite ?Hlit, andb_false_r.
Qed.

Lemma matchDigitsBefore_plain (lit : string) (ch : Ascii.ascii) (rest : string) :
  isDigit ch = false →
  matchDigitsBefore lit (String ch rest) = matchDigitsBefore lit rest.
Proof. intros Hch. cbn [matchDigitsBefore digitsPrefix]. by rewrite Hch. Qed.

End DecimalProps.

Section FloorDiv.
Local Open Scope Qc_scope.

Lemma ofZ_mult (a b : Z) : Num.ofZ (a * b) = Num.ofZ a * Num.ofZ b.
Proof.
  apply Qc_is_canon. simpl. rewrite !Qred_correct, inject_Z_mult. reflexivity.
Qed.

Lemma ofZ_lt (a b : Z) : (a < b)%Z → Num.ofZ a < Num.ofZ b.
Proof. intros Hab. unfold Qclt. rewrite !ofZ_this. by rewrite <- Zlt_Qlt. Qed.

Lemma ofZ_lt_inv (a b : Z) : Num.ofZ a < Num.ofZ b → (a < b)%Z.
Proof. unfold Qclt. rewrite !ofZ_this. by rewrite <- Zlt_Qlt. Qed.

Lemma floor_unique (x : Qc) (n : Z) :
  Num.ofZ n ≤ x → x < Num.ofZ n + 1 → Num.floor x = n.
Proof.
  intros Hle Hlt. destruct (floor_spec x) as [Hfle Hflt].
  change (1 : Qc) with (Num.ofZ 1) in *. rewrite <- ofZ_plus in *.
  pose proof (ofZ_lt_inv _ _ (Qcle_lt_trans _ _ _ Hle Hflt)).
  pose proof (ofZ_lt_inv _ _ (Qcle_lt_trans _ _ _ Hfle Hlt)).
  lia.
Qed.

Lemma floor_div_bounds (x : Qc) (d : Z) :
  (0 < d)%Z →
  Num.ofZ d * Num.ofZ (Num.floor (x / Num.ofZ d)) ≤ x
  ∧ x < Num.ofZ d * Num.ofZ (Num.floor (x / Num.ofZ d)) + Num.ofZ d.
Proof.
  intros Hd. assert (Hpos : 0 < Num.ofZ d) by (by apply (ofZ_lt 0)).
  pose proof (Qc_pos_neq _ Hpos) as Hne.
  destruct (floor_spec (x / Num.ofZ d)) as [Hle Hlt].
  assert (Hx : x / Num.ofZ d * Num.ofZ d = x) by (field; done).
  split.
  - apply (Qcmult_le_compat_r _ _ (Num.ofZ d)) in Hle; [|by apply Qclt_le_weak].
    rewrite Hx in Hle. by rewrite Qcmult_comm.
  - apply (Qcmult_lt_compat_r _ _ _ Hpos) in Hlt. rewrite Hx in Hlt.
    replace (Num.ofZ d * Num.ofZ (Num.floor (x / Num.ofZ d)) + Num.ofZ d)
      with ((Num.ofZ (Num.floor (x / Num.ofZ d)) + 1) * Num.ofZ d) by ring.
    done.
Qed.

Lemma Qc_inv_pos (x : Qc) : 0 < x → 0 < / x.
Proof.
  intros Hx. pose proof (Qc_pos_neq _ Hx) as Hne.
  destruct (Qclt_le_dec 0 (/ x)) as [|Hle]; [done|]. exfalso.
  apply (Qcmult_le_compat_r _ _ x) in Hle; [|by apply Qclt_le_weak].
  rewrite Qcmult_0_l in Hle.
  replace (/ x * x) with (1 : Qc) in Hle by (field; done).
  by apply (Qcle_not_lt _ _ Hle).
Qed.

Lemma floor_div_unique (x : Qc) (d n : Z) :
  (0 < d)%Z →
  Num.ofZ d * Num.ofZ n ≤ x → x < Num.ofZ d * Num.ofZ n + Num.ofZ d →
  Num.floor (x / Num.ofZ d) = n.
Proof.
  intros Hd Hle Hlt. assert (Hpos : 0 < Num.ofZ d) by (by apply (ofZ_lt 0)).
  pose proof (Qc_pos_neq _ Hpos) as Hne.
  assert (Hinv : 0 < / Num.ofZ d) by (by apply Qc_inv_pos).
  apply floor_unique.
  - apply (Qcmult_le_compat_r _ _ (/ Num.ofZ d)) in Hle; [|by apply Qclt_le_weak].
    replace (Num.ofZ d * Num.ofZ n * / Num.ofZ d) with (Num.ofZ n) in Hle
      by (field; done).
    done.
  - apply (Qcmult_lt_compat_r _ _ _ Hinv) in Hlt.
    replace ((Num.ofZ d * Num.ofZ n + Num.ofZ d) * / Num.ofZ d)
      with (Num.ofZ n + 1) in Hlt by (field; done).
    done.
Qed.

End FloorDiv.

Section DurationProps.
Import Routes Dashboard.
Local Open Scope Z_scope.

Lemma prefix_cons (a b : Ascii.ascii) (s t : string) :
  String.prefix (String a s) (String b t)
  = if decide (a = b) then String.prefix s t else false.
Proof.
  cbn [String.prefix]. destruct (Ascii.ascii_dec a b); by case_decide.
Qed.

Lemma prefix_nil (t : string) : String.prefix EmptyString t = true.
Proof. by destruct t. Qed.

(** Steps of a scan over a string whose literal parts are known. *)
Ltac scan :=
  repeat first
    [ rewrite append_cons
    | rewrite append_nil_l
    | rewrite matchDigitsBefore_plain by reflexivity
    | rewrite matchDigitsBefore_digits by (assumption || reflexivity)
    | rewrite prefix_cons
    | rewrite prefix_nil
    | rewrite (decide_False (P := _ = _ :> Ascii.ascii)) by discriminate
    | rewrite (decide_True (P := _ = _ :> Ascii.ascii)) by reflexivity
    | rewrite bool_decide_eq_false_2 by assumption
    | progress cbn [negb andb matchDigitsBefore] ].

(** X27.  The dashboard reads the holding time of a completed trade
    from the string the server prints, but the server writes the hours
    as [N时] while the dashboard looks for [N小时]: whatever the holding
    time, [parseDuration] of the server's string counts the minutes
    only, so it is always less than one hour, and the hours of a trade
    held longer are lost to the average on the dashboard. *)
Theorem parseDuration_of_holdingTime (holdingTimeMs : Z) :
  0 ≤ holdingTimeMs →
  parseDuration (holdingTime holdingTimeMs) = 60 * holdingMinutes holdingTimeMs
  ∧ 0 ≤ holdingMinutes holdingTimeMs < 60
  ∧ parseDuration (holdingTime holdingTimeMs) < 3600.
Proof.
  intros Hms.
  assert (Hm : 0 ≤ holdingMinutes holdingTimeMs < 60).
  { unfold holdingMinutes. rewrite Z.rem_mod_nonneg by lia.
    pose proof (Z.mod_pos_bound holdingTimeMs (1000 * 60 * 60) ltac:(lia)).
    split; [apply Z.div_pos; lia|apply Z.div_lt_upper_bound; lia]. }
  assert (Hh : 0 ≤ holdingHours holdingTimeMs)
    by (unfold holdingHours; apply Z.div_pos; lia).
  assert (Hparse : parseDuration (holdingTime holdingTimeMs)
                   = 60 * holdingMinutes holdingTimeMs); [|split; [done|split; [done|lia]]].
  unfold holdingTime, parseDuration.
  set (h := holdingHours holdingTimeMs) in *.
  set (m := holdingMinutes holdingTimeMs) in *.
  destruct (pretty_Z_digits h Hh) as (Hhd & Hhn & Hhv).
  destruct (pretty_Z_digits m (proj1 Hm)) as (Hmd & Hmn & Hmv).
  case_decide.
  - scan. rewrite Hmv. lia.
  - scan. rewrite Hmv. lia.
Qed.


(** What [formatDuration] prints for seconds that are not negative. *)
Lemma formatDuration_parts (seconds : Qc) :
  (0 ≤ seconds)%Qc →
  let hours := Num.floor (seconds / Num.ofZ 3600) in
  let minutes := Num.floor (fmod seconds (Num.ofZ 3600) / Num.ofZ 60) in
  0 ≤ hours ∧ 0 ≤ minutes < 60
  ∧ 60 * hours + minutes = Num.floor (seconds / Num.ofZ 60).
Proof.
  intros Hs. simpl.
  set (h := Num.floor (seconds / Num.ofZ 3600)).
  destruct (floor_div_bounds seconds 3600 ltac:(lia)) as [Hle Hlt]. fold h in Hle, Hlt.
  assert (Hh : 0 ≤ h).
  { assert (Hpos : (0 < Num.ofZ 3600 * Num.ofZ h + Num.ofZ 3600)%Qc)
      by (by apply (Qcle_lt_trans _ seconds)).
    rewrite <- ofZ_mult, <- ofZ_plus in Hpos.
    apply (ofZ_lt_inv 0) in Hpos. lia. }
  assert (Htrunc : trunc (seconds / Num.ofZ 3600) = h).
  { unfold trunc. rewrite decide_False; [done|].
    apply Qcle_not_lt.
    assert (Hc : (0 < / Num.ofZ 3600)%Qc) by reflexivity.
    apply (Qcmult_le_compat_r _ _ (/ Num.ofZ 3600)%Qc) in Hs;
      [|by apply Qclt_le_weak].
    by rewrite Qcmult_0_l in Hs. }
  unfold fmod. rewrite Htrunc.
  set (r := (seconds - Num.ofZ 3600 * Num.ofZ h)%Qc).
  set (m := Num.floor (r / Num.ofZ 60)).
  destruct (floor_div_bounds r 60 ltac:(lia)) as [Hrle Hrlt]. fold m in Hrle, Hrlt.
  assert (Hr0 : (0 ≤ r)%Qc).
  { unfold r. apply Qcle_minus_iff in Hle. apply Qcle_minus_iff.
    by replace (seconds - Num.ofZ 3600 * Num.ofZ h + - 0)%Qc
      with (seconds + - (Num.ofZ 3600 * Num.ofZ h))%Qc by ring. }
  assert (Hr1 : (r < Num.ofZ 3600)%Qc).
  { unfold r. apply Qclt_minus_iff in Hlt. apply Qclt_minus_iff.
    by replace (Num.ofZ 3600 + - (seconds - Num.ofZ 3600 * Num.ofZ h))%Qc
      with (Num.ofZ 3600 * Num.ofZ h + Num.ofZ 3600 + - seconds)%Qc by ring. }
  assert (Hm : 0 ≤ m < 60).
  { split.
    - assert (Hpos : (0 < Num.ofZ 60 * Num.ofZ m + Num.ofZ 60)%Qc)
        by (by apply (Qcle_lt_trans _ r)).
      rewrite <- ofZ_mult, <- ofZ_plus in Hpos.
      apply (ofZ_lt_inv 0) in Hpos. lia.
    - assert (Hup : (Num.ofZ 60 * Num.ofZ m < Num.ofZ 3600)%Qc)
        by (by apply (Qcle_lt_trans _ r)).
      rewrite <- ofZ_mult in Hup. apply ofZ_lt_inv in Hup. lia. }
  split; [done|]. split; [done|].
  symmetry. apply floor_div_unique; [lia| |].
  - rewrite ofZ_plus, ofZ_mult.
    apply Qcle_minus_iff in Hrle. apply Qcle_minus_iff.
    replace (seconds + - (Num.ofZ 60 * (Num.ofZ 60 * Num.ofZ h + Num.ofZ m)))%Qc
      with (r + - (Num.ofZ 60 * Num.ofZ m))%Qc; [done|].
    unfold r. replace (Num.ofZ 3600) with (Num.ofZ 60 * Num.ofZ 60)%Qc by by_compute.
    ring.
  - rewrite ofZ_plus, ofZ_mult.
    apply Qclt_minus_iff in Hrlt. apply Qclt_minus_iff.
    replace (Num.ofZ 60 * (Num.ofZ 60 * Num.ofZ h + Num.ofZ m) + Num.ofZ 60
             + - seconds)%Qc
      with (Num.ofZ 60 * Num.ofZ m + Num.ofZ 60 + - r)%Qc; [done|].
    unfold r. replace (Num.ofZ 3600) with (Num.ofZ 60 * Num.ofZ 60)%Qc by by_compute.
    ring.
Qed.

(** X28.  On its own format the dashboard's parser is right: for every
    number of seconds that is not negative, whole or not,
    [parseDuration (formatDuration seconds)] is the duration rounded down
    to the minute. *)
Theorem parseDuration_formatDuration (seconds : Qc) :
  (0 ≤ seconds)%Qc →
  parseDuration (formatDuration seconds) = 60 * Num.floor (seconds / Num.ofZ 60).
Proof.
  intros Hs. destruct (formatDuration_parts seconds Hs) as (Hh & Hm & <-).
  unfold formatDuration, parseDuration.
  set (h := Num.floor (seconds / Num.ofZ 3600)) in *.
  set (m := Num.floor (fmod seconds (Num.ofZ 3600) / Num.ofZ 60)) in *.
  destruct (pretty_Z_digits m (proj1 Hm)) as (Hmd & Hmn & Hmv).
  destruct (decide (h >= 24)) as [Hday|Hday].
  - assert (Hd : 0 ≤ h `div` 24) by (apply Z.div_pos; lia).
    assert (Hr : 0 ≤ h `rem` 24) by (apply Z.rem_nonneg; lia).
    destruct (pretty_Z_digits _ Hd) as (Hdd & Hdn & Hdv).
    destruct (pretty_Z_digits _ Hr) as (Hrd & Hrn & Hrv).
    scan. rewrite Hdv, Hrv, Hmv.
    rewrite Z.rem_mod_nonneg by lia.
    pose proof (Z.div_mod h 24 ltac:(lia)). lia.
  - destruct (pretty_Z_digits h Hh) as (Hhd & Hhn & Hhv).
    case_decide.
    + scan. rewrite Hhv, Hmv. lia.
    + scan. rewrite Hmv. lia.
Qed.

End DurationProps.

(** * GET /api/stats and GET /api/completed-trades *)

Section StatsProps.
Import Exchange Resolver Routes.
Local Open Scope Qc_scope.

Lemma sqlMax_spec (xs : list Qc) :
  match sqlMax xs with
  | None => xs = []
  | Some v => v ∈ xs ∧ ∀ x, x ∈ xs → x ≤ v
  end.
Proof.
  destruct xs as [|x0 rest]; [done|]. simpl.
  assert (Hgen : ∀ best, let v := foldl (λ best y, if decide (best < y) then y else best)
                                        best rest in
            (v = best ∨ v ∈ rest) ∧ best ≤ v ∧ ∀ x, x ∈ rest → x ≤ v).
  { induction rest as [|y rest IH]; intros best; simpl.
    - split; [by left|]. split; [apply Qcle_refl|]. by intros x ?%elem_of_nil.
    - destruct (IH (if decide (best < y) then y else best)) as (Hin & Hle & Hall).
      split; [|split].
      + destruct Hin as [->|Hin]; [|right; by right].
        case_decide; [right; by left|by left].
      + case_decide as Hlt; [|done].
        apply (Qcle_trans _ y); [by apply Qclt_le_weak|done].
      + intros x Hx. apply elem_of_cons in Hx as [->|Hx]; [|by apply Hall].
        case_decide as Hlt; [done|].
        apply (Qcle_trans _ best); [by apply Qcnot_lt_le|done]. }
  destruct (Hgen x0) as (Hin & Hle & Hall). split.
  - destruct Hin as [->|Hin]; [by left|by right].
  - intros x Hx. apply elem_of_cons in Hx as [->|Hx]; [done|by apply Hall].
Qed.

Lemma sqlMin_spec (xs : list Qc) :
  match sqlMin xs with
  | None => xs = []
  | Some v => v ∈ xs ∧ ∀ x, x ∈ xs → v ≤ x
  end.
Proof.
  destruct xs as [|x0 rest]; [done|]. simpl.
  assert (Hgen : ∀ best, let v := foldl (λ best y, if decide (y < best) then y else best)
                                        best rest in
            (v = best ∨ v ∈ rest) ∧ v ≤ best ∧ ∀ x, x ∈ rest → v ≤ x).
  { induction rest as [|y rest IH]; intros best; simpl.
    - split; [by left|]. split; [apply Qcle_refl|]. by intros x ?%elem_of_nil.
    - destruct (IH (if decide (y < best) then y else best)) as (Hin & Hle & Hall).
      split; [|split].
      + destruct Hin as [->|Hin]; [|right; by right].
        case_decide; [right; by left|by left].
      + case_decide as Hlt; [|done].
        apply (Qcle_trans _ y); [done|by apply Qclt_le_weak].
      + intros x Hx. apply elem_of_cons in Hx as [->|Hx]; [|by apply Hall].
        case_decide as Hlt; [done|].
        apply (Qcle_trans _ best); [done|by apply Qcnot_lt_le]. }
  destruct (Hgen x0) as (Hin & Hle & Hall). split.
  - destruct Hin as [->|Hin]; [by left|by right].
  - intros x Hx. apply elem_of_cons in Hx as [->|Hx]; [done|by apply Hall].
Qed.

Lemma orZero_id (v : Qc) : orZero (Some v) = v.
Proof.
  unfold orZero, Num.truthy. case_bool_decide as Hv; [done|].
  destruct (decide (v = 0)) as [->|Hne]; [done|]. by destruct Hv.
Qed.

Lemma filter_split_length (xs : list Qc) :
  Nat.add (length (filter (λ pnl, 0 < pnl) xs)) (length (filter (λ pnl, pnl ≤ 0) xs))
  = length xs.
Proof.
  induction xs as [|x xs IH]; [done|].
  rewrite !filter_cons. destruct (decide (0 < x)) as [Hpos|Hneg].
  - rewrite decide_False by (by apply Qclt_not_le). simpl. lia.
  - rewrite decide_True by (by apply Qcnot_lt_le). simpl. lia.
Qed.

(** X26.  The figures of [GET /api/stats], computed over the close
    trades that carry a pnl: the win rate lies between 0 and 100 and is
    0 when there is no such trade; wins and losses add up to the total,
    a loss being every trade whose pnl is not positive, break-even trades
    included; and every pnl lies between [maxLoss] and [maxWin], where
    [maxLoss] is never positive and [maxWin] never negative. *)
Theorem getStats_bounds (st : Store) :
  let s := getStats st in
  0 ≤ winRate s ∧ winRate s ≤ Num.ofZ 100
  ∧ (totalTrades s = 0%nat → winRate s = 0)
  ∧ lossTrades s = Z.of_nat (length (filter (λ pnl, pnl ≤ 0) (closedPnls st)))
  ∧ (Z.of_nat (winTrades s) + lossTrades s = Z.of_nat (totalTrades s))%Z
  ∧ maxLoss s ≤ 0 ∧ 0 ≤ maxWin s
  ∧ ∀ pnl, pnl ∈ closedPnls st → maxLoss s ≤ pnl ∧ pnl ≤ maxWin s.
Proof.
  simpl. set (pnls := closedPnls st).
  pose proof (filter_split_length pnls) as Hsplit.
  set (wins := filter (λ pnl, 0 < pnl) pnls) in *.
  assert (Hrate : 0 ≤ (if decide (0 < length pnls)%nat
                       then Num.ofZ (Z.of_nat (length wins))
                            / Num.ofZ (Z.of_nat (length pnls)) * Num.ofZ 100
                       else 0)
                  ∧ (if decide (0 < length pnls)%nat
                     then Num.ofZ (Z.of_nat (length wins))
                          / Num.ofZ (Z.of_nat (length pnls)) * Num.ofZ 100
                     else 0) ≤ Num.ofZ 100).
  { case_decide as Htotal; [|split; [apply Qcle_refl|done]].
    assert (Ht : 0 < Num.ofZ (Z.of_nat (length pnls))) by (apply (ofZ_lt 0); lia).
    pose proof (Qc_inv_pos _ Ht) as Hinv. pose proof (Qc_pos_neq _ Ht) as Hne.
    assert (Hw0 : 0 ≤ Num.ofZ (Z.of_nat (length wins))) by (apply (ofZ_le 0); lia).
    assert (Hwt : Num.ofZ (Z.of_nat (length wins)) ≤ Num.ofZ (Z.of_nat (length pnls)))
      by (apply ofZ_le; lia).
    assert (Hq0 : 0 ≤ Num.ofZ (Z.of_nat (length wins)) / Num.ofZ (Z.of_nat (length pnls))).
    { apply (Qcmult_le_compat_r _ _ (/ Num.ofZ (Z.of_nat (length pnls)))) in Hw0;
        [|by apply Qclt_le_weak].
      by rewrite Qcmult_0_l in Hw0. }
    assert (Hq1 : Num.ofZ (Z.of_nat (length wins)) / Num.ofZ (Z.of_nat (length pnls)) ≤ 1).
    { apply (Qcmult_le_compat_r _ _ (/ Num.ofZ (Z.of_nat (length pnls)))) in Hwt;
        [|by apply Qclt_le_weak].
      by replace (Num.ofZ (Z.of_nat (length pnls)) * / Num.ofZ (Z.of_nat (length pnls)))
        with (1 : Qc) in Hwt by (field; done). }
    split.
    - apply (Qcmult_le_compat_r _ _ (Num.ofZ 100)) in Hq0; [|done].
      by rewrite Qcmult_0_l in Hq0.
    - apply (Qcmult_le_compat_r _ _ (Num.ofZ 100)) in Hq1; [|done].
      by rewrite Qcmult_1_l in Hq1. }
  destruct Hrate as [Hr0 Hr1].
  split; [exact Hr0|]. split; [exact Hr1|].
  split; [intros Hzero; rewrite decide_False by lia; done|].
  split; [lia|]. split; [lia|].
  pose proof (sqlMax_spec wins) as Hmax.
  pose proof (sqlMin_spec (filter (λ pnl, pnl < 0) pnls)) as Hmin.
  assert (Hwin0 : 0 ≤ orZero (sqlMax wins)).
  { destruct (sqlMax wins) as [v|]; [|apply Qcle_refl].
    rewrite orZero_id. destruct Hmax as [Hin _].
    apply list_elem_of_filter in Hin as [Hpos _]. by apply Qclt_le_weak. }
  assert (Hloss0 : orZero (sqlMin (filter (λ pnl, pnl < 0) pnls)) ≤ 0).
  { destruct (sqlMin _) as [v|]; [|apply Qcle_refl].
    rewrite orZero_id. destruct Hmin as [Hin _].
    apply list_elem_of_filter in Hin as [Hneg _]. by apply Qclt_le_weak. }
  split; [exact Hloss0|]. split; [exact Hwin0|].
  intros pnl Hin. split.
  - destruct (decide (pnl < 0)) as [Hneg|Hnn].
    + destruct (sqlMin _) as [v|] eqn:Hv.
      * rewrite orZero_id. apply Hmin. by apply list_elem_of_filter.
      * assert (Hmem : pnl ∈ filter (λ pnl, pnl < 0) pnls)
          by (by apply list_elem_of_filter).
        rewrite Hmin in Hmem. by apply elem_of_nil in Hmem.
    + apply (Qcle_trans _ 0); [done|by apply Qcnot_lt_le].
  - destruct (decide (0 < pnl)) as [Hpos|Hnp].
    + destruct (sqlMax wins) as [v|] eqn:Hv.
      * rewrite orZero_id. apply Hmax. by apply list_elem_of_filter.
      * assert (Hmem : pnl ∈ wins) by (by apply list_elem_of_filter).
        rewrite Hmax in Hmem. by apply elem_of_nil in Hmem.
    + apply (Qcle_trans _ 0); [by apply Qcnot_lt_le|done].
Qed.

End StatsProps.

Section CompletedTradeProps.
Import Exchange Resolver Routes.
Local Open Scope Z_scope.



#[local] Instance newerFirst_total : Total newerFirst.
Proof. intros a b. unfold newerFirst. lia. Qed.

#[local] Instance newerFirst_trans : Transitive newerFirst.
Proof. intros a b c. unfold newerFirst. lia. Qed.




End CompletedTradeProps.

(** The store that the reconciler left behind in the ETH scenario, as
    the route shows it: the synthesized close, paired with the open row
    of an hour and ten minutes earlier.  With a second close event for
    the same order the trade is listed twice, and a limit of 1 cuts the
    list after the first row of the join. *)
Example synthesized_close_is_listed_once_per_close_event :
  let entry := {| Routes.completedSymbol := "ETH";
                  Routes.completedSide := Exchange.short;
                  Routes.openTime := T0 - 3600000;
                  Routes.closeTime := T0 + 600000;
                  Routes.completedHoldingTimeMs := 4200000;
                  Routes.completedHoldingTime := "1时10分";
                  Routes.completedTotalFee := Num.dec 4.1;
                  Routes.completedPnl := Num.ofZ 98;
                  Routes.completedCloseReason := Some "system_recovered"%string |} in
  let twice :=
    Resolver.insertCloseEvent
      (Resolver.closeEventRow ethState ethFigures (T0 + 600000)) ethRepaired in
  Routes.completedTrades 50 ethRepaired = [entry]
  ∧ Routes.completedTrades 50 twice = [entry; entry]
  ∧ Routes.completedTrades 1 twice = [entry]
  ∧ Routes.completedTrades 0 twice = []
  ∧ Routes.completedTrades (-1) twice = [entry; entry].
Proof. repeat split; by_compute. Qed.

(** * Compact prompt *)

Section PromptProps.
Import Exchange Prompt.
Local Open Scope Qc_scope.

Lemma orZero_nonzero (x : option Qc) (bound : Qc) :
  0 < bound → (bound ≤ orZero x ↔ ∃ v, x = Some v ∧ bound ≤ v).
Proof.
  intros Hb. unfold orZero, Num.truthy. destruct x as [v|].
  - case_bool_decide as Hv.
    + split; [intros ?; by exists v|by intros (? & [= <-] & ?)].
    + assert (v = 0) as -> by (destruct (decide (v = 0)); [done|by destruct Hv]).
      split; [|by intros (? & [= <-] & ?)].
      intros Hle. exfalso. by apply (Qcle_not_lt _ _ Hle).
  - split; [|by intros (? & ? & _)].
    intros Hle. exfalso. by apply (Qcle_not_lt _ _ Hle).
Qed.

(** X30.  The line the compact prompt prints for a position.  With a
    positive entry price and leverage the percentage carries a plus sign
    exactly when the position is not losing (price at or above the entry
    for a long, at or below it for a short); without a positive entry
    price it is printed as +0.  The urgent flag needs both the reversal
    mark and a warning score of at least 70: a score of 70 or more
    without the mark is shown as a pre-warning only.  The stage shown is
    S3 from 66% closed on and S2 from 33% closed on. *)
Theorem prompt_position_line (p : Position) :
  (0 < entry_price p → 0 < leverage p →
   (pnlSign p = "+"%string
    ↔ match side p with
      | long => entry_price p ≤ current_price p
      | short => current_price p ≤ entry_price p
      end))
  ∧ (¬ 0 < entry_price p → pnl p = 0 ∧ pnlSign p = "+"%string)
  ∧ (warningFlag p = "⚠️紧急"%string
     ↔ reversalWarning p = Some 1%Z
       ∧ ∃ w, warningScore p = Some w ∧ Num.ofZ 70 ≤ w)
  ∧ (warningFlag p = "⚠️预"%string
     ↔ (∃ w, warningScore p = Some w ∧ Num.ofZ 50 ≤ w)
       ∧ ¬ (reversalWarning p = Some 1%Z
            ∧ ∃ w, warningScore p = Some w ∧ Num.ofZ 70 ≤ w))
  ∧ (stageInfo p = "|S3(已平66%)"%string
     ↔ ∃ x, partial_close_percentage p = Some x ∧ Num.ofZ 66 ≤ x)
  ∧ (stageInfo p = "|S2(已平33%)"%string
     ↔ ∃ x, partial_close_percentage p = Some x ∧ Num.ofZ 33 ≤ x ∧ x < Num.ofZ 66).
Proof.
  split; [|split; [|split; [|split; [|split]]]].
  - intros He Hl. unfold pnlSign, pnl. rewrite (decide_True (P := 0 < entry_price p)) by done.
    pose proof (Qc_pos_neq _ He) as Hne.
    assert (Hk : 0 < / entry_price p * Num.ofZ 100 * leverage p).
    { apply Qcmult_pos_pos; [apply Qcmult_pos_pos; [by apply Qc_inv_pos|done]|done]. }
    set (k := / entry_price p * Num.ofZ 100 * leverage p) in *.
    assert (Hsign : ∀ d : Qc, 0 ≤ d * k ↔ 0 ≤ d).
    { intros d. split.
      - intros Hd. destruct (Qclt_le_dec d 0) as [Hneg|]; [|done]. exfalso.
        apply (Qcmult_lt_compat_r _ _ _ Hk) in Hneg. rewrite Qcmult_0_l in Hneg.
        by apply (Qcle_not_lt _ _ Hd).
      - intros Hd. apply (Qcmult_le_compat_r _ _ k) in Hd; [|by apply Qclt_le_weak].
        by rewrite Qcmult_0_l in Hd. }
    destruct (side p).
    + replace ((current_price p - entry_price p) / entry_price p * Num.ofZ 100 * 1
               * leverage p)
        with ((current_price p - entry_price p) * k) by (unfold k; field; done).
      case_decide as Hd; rewrite Hsign in Hd; split; try done.
      * intros _. apply Qcle_minus_iff.
        by replace (current_price p + - entry_price p)
          with (current_price p - entry_price p) by ring.
      * intros Hle. exfalso. apply Hd. apply Qcle_minus_iff in Hle.
        by replace (current_price p - entry_price p)
          with (current_price p + - entry_price p) by ring.
    + replace ((current_price p - entry_price p) / entry_price p * Num.ofZ 100 * - (1)
               * leverage p)
        with ((entry_price p - current_price p) * k) by (unfold k; field; done).
      case_decide as Hd; rewrite Hsign in Hd; split; try done.
      * intros _. apply Qcle_minus_iff.
        by replace (entry_price p + - current_price p)
          with (entry_price p - current_price p) by ring.
      * intros Hle. exfalso. apply Hd. apply Qcle_minus_iff in Hle.
        by replace (entry_price p - current_price p)
          with (entry_price p + - current_price p) by ring.
  - intros He. unfold pnlSign, pnl. by rewrite (decide_False (P := 0 < entry_price p)).
  - unfold warningFlag.
    rewrite <- (orZero_nonzero (warningScore p) (Num.ofZ 70)) by reflexivity.
    destruct (bool_decide (reversalWarning p = Some 1%Z)) eqn:Hr; simpl.
    + apply bool_decide_eq_true in Hr.
      case_bool_decide as Hw; [done|].
      case_decide; split; try done; by intros [_ ?].
    + apply bool_decide_eq_false in Hr.
      case_decide; split; try done; by intros [? _].
  - unfold warningFlag.
    rewrite <- (orZero_nonzero (warningScore p) (Num.ofZ 70)) by reflexivity.
    rewrite <- (orZero_nonzero (warningScore p) (Num.ofZ 50)) by reflexivity.
    destruct (bool_decide (reversalWarning p = Some 1%Z)) eqn:Hr; simpl.
    + apply bool_decide_eq_true in Hr.
      case_bool_decide as Hw; [split; [done|by intros [_ Hn]; destruct Hn]|].
      case_decide; split; try done.
      * intros _. split; [done|]. by intros [_ ?].
      * by intros [? _].
    + apply bool_decide_eq_false in Hr.
      case_decide; split; try done.
      * intros _. split; [done|]. by intros [? _].
      * by intros [? _].
  - unfold stageInfo.
    rewrite <- (orZero_nonzero (partial_close_percentage p) (Num.ofZ 66)) by reflexivity.
    repeat case_decide; split; done.
  - unfold stageInfo.
    assert (Hiff : (∃ x, partial_close_percentage p = Some x
                         ∧ Num.ofZ 33 ≤ x ∧ x < Num.ofZ 66)
                   ↔ Num.ofZ 33 ≤ orZero (partial_close_percentage p)
                     ∧ ¬ Num.ofZ 66 ≤ orZero (partial_close_percentage p)).
    { rewrite !orZero_nonzero by reflexivity. split.
      - intros (x & Hx & Hlo & Hhi). split; [by exists x|].
        intros (y & Hy & Hle). rewrite Hx in Hy. injection Hy as <-.
        by apply (Qcle_not_lt _ _ Hle).
      - intros [(x & Hx & Hlo) Hn]. exists x. split; [done|]. split; [done|].
        apply Qcnot_le_lt. intros Hle. apply Hn. by exists x. }
    rewrite Hiff. repeat case_decide; split; try done; by intros [? ?].
Qed.

End PromptProps.

(** *** Concrete alerts, trades and durations *)

(** Two BTC longs opened four minutes apart: the second mail is held
    back; six minutes apart it is sent. *)
Example second_open_notification_is_suppressed :
  let service := {| Email.enabled := true; Email.lastAlertTime := ∅ |} in
  let btc := {| Email.type := Resolver.open; Email.symbol := "BTC";
                Email.side := Exchange.long; Email.pnl := None |} in
  let first := Email.sendTradeNotification true btc T0 service in
  fst first = true
  ∧ fst (Email.sendTradeNotification true btc (T0 + 240000) (snd first)) = false
  ∧ fst (Email.sendTradeNotification true btc (T0 + 360000) (snd first)) = true.
Proof. repeat split; by_compute. Qed.

(** A loss of exactly 100 is a WARNING, one cent more an ERROR. *)
Example loss_of_100_is_a_warning :
  let closed pnl := {| Email.type := Resolver.close; Email.symbol := "BTC";
                       Email.side := Exchange.long; Email.pnl := Some pnl |} in
  Email.tradeLevel (closed (Num.ofZ (-100))) = Resolver.WARNING
  ∧ Email.tradeLevel (closed (Num.dec (-100.01))) = Resolver.ERROR
  ∧ Email.tradeLevel (closed 0%Qc) = Resolver.INFO.
Proof. repeat split; by_compute. Qed.

Lemma parseDuration_of_holdingTime_witness :
  0 ≤ 12000000
  ∧ Routes.holdingTime 12000000 = "3时20分"%string
  ∧ Dashboard.parseDuration (Routes.holdingTime 12000000) = 1200
  ∧ Dashboard.parseDuration (Routes.holdingTime 12000000) < 3600.
Proof.
  assert (H : 0 ≤ 12000000) by lia.
  split; [exact H|]. split; [reflexivity|].
  destruct (parseDuration_of_holdingTime 12000000 H) as (Hparse & _ & Hlt).
  split; [|exact Hlt]. rewrite Hparse. reflexivity.
Defined.

Lemma parseDuration_formatDuration_witness :
  (0 ≤ Num.dec 12000.5)%Qc
  ∧ Dashboard.formatDuration (Num.dec 12000.5) = "3小时20分"%string
  ∧ Dashboard.parseDuration (Dashboard.formatDuration (Num.dec 12000.5)) = 12000.
Proof.
  assert (H : (0 ≤ Num.dec 12000.5)%Qc) by by_compute.
  split; [exact H|]. split; [by_compute|].
  rewrite (parseDuration_formatDuration (Num.dec 12000.5) H). reflexivity.
Defined.

(** A trade of two days, three hours and four minutes on the dashboard's
    own format, and the same holding time as the server prints it. *)
Example durations_of_two_days :
  Dashboard.formatDuration (Num.ofZ 183840) = "2天3小时4分"%string
  ∧ Dashboard.parseDuration "2天3小时4分" = 183840
  ∧ Routes.holdingTime 183840000 = "51时4分"%string
  ∧ Dashboard.parseDuration "51时4分" = 240.
Proof. repeat split; by_compute. Qed.

(** Three closed trades, one of them break-even: it counts as a loss. *)
Example break_even_counts_as_loss :
  let closed pnl := {| Resolver.tradeOrderId := "1"; Resolver.tradeSymbol := "ETH";
                       Resolver.tradeSide := Exchange.long;
                       Resolver.tradeType := Resolver.close;
                       Resolver.tradePrice := Num.ofZ 2000;
                       Resolver.tradeQuantity := Num.ofZ 1;
                       Resolver.tradeLeverage := Num.ofZ 3;
                       Resolver.tradePnl := Some pnl;
                       Resolver.tradeFee := Num.ofZ 2;
                       Resolver.tradeTimestamp := T0;
                       Resolver.tradeStatus := "filled" |} in
  let st := {| Resolver.positions := []; Resolver.price_orders := [];
               Resolver.trades := [closed (Num.ofZ 30); closed 0%Qc;
                                   closed (Num.ofZ (-12)); ethOpenTrade];
               Resolver.position_close_events := [];
               Resolver.inconsistent_states := [] |} in
  Routes.totalTrades (Routes.getStats st) = 3%nat
  ∧ Routes.winTrades (Routes.getStats st) = 1%nat
  ∧ Routes.lossTrades (Routes.getStats st) = 2
  ∧ Routes.maxWin (Routes.getStats st) = Num.ofZ 30
  ∧ Routes.maxLoss (Routes.getStats st) = Num.ofZ (-12)
  ∧ Routes.totalPnl (Routes.getStats st) = Num.ofZ 18.
Proof. repeat split; by_compute. Qed.

(** One third closed is shown as stage S2. *)
Example one_third_closed_shows_S2 :
  Prompt.stageInfo {| Prompt.side := Exchange.long; Prompt.leverage := Num.ofZ 5;
                      Prompt.entry_price := Num.ofZ 100;
                      Prompt.current_price := Num.ofZ 103;
                      Prompt.reversalWarning := None;
                      Prompt.warningScore := Some (Num.ofZ 80);
                      Prompt.partial_close_percentage := Some (Num.ofZ 33) |}
  = "|S2(已平33%)"%string
  ∧ Prompt.warningFlag {| Prompt.side := Exchange.long; Prompt.leverage := Num.ofZ 5;
                          Prompt.entry_price := Num.ofZ 100;
                          Prompt.current_price := Num.ofZ 103;
                          Prompt.reversalWarning := None;
                          Prompt.warningScore := Some (Num.ofZ 80);
                          Prompt.partial_close_percentage := Some (Num.ofZ 33) |}
    = "⚠️预"%string.
Proof. split; by_compute. Qed.
